(** * python-ring-doorbell: session life cycle and query retry loop

    A shallow embedding of [ring_doorbell/__init__.py] (class [Ring]):
    [_get_oauth_token], [_authenticate], [query], [_process_cached_session]
    and [__init__].  The object's attributes, the module-level dictionaries
    and the cache file are explicit state; the HTTP transport, the OAuth
    helper and the wall clock are oracles that answer from the history of
    the run, so that every statement holds for every server behaviour. *)

From Stdlib Require Import ZArith List Bool Lia.
From stdpp Require Import base option list gmap strings fin_maps.

Set Warnings "-register-all".

Open Scope string_scope.
Open Scope list_scope.
Open Scope Z_scope.

(** ** Python values *)

(** The values that flow through the session code: JSON documents, as
    [req.json()] and the pickled cache hold them.  [JNull] is Python's
    [None]; numbers are integers (seconds for [expires_in]). *)
Inductive json :=
| JNull
| JBool (b : bool)
| JNum (z : Z)
| JStr (s : string)
| JArr (l : list json)
| JObj (kvs : list (string * json)).

(** Python truth value ([if v:], [not v]). *)
Definition truthy (v : json) : bool :=
  match v with
  | JNull => false
  | JBool b => b
  | JNum z => negb (z =? 0)
  | JStr s => negb (String.eqb s "")
  | JArr l => match l with [] => false | _ => true end
  | JObj kvs => match kvs with [] => false | _ => true end
  end.

(** [v is None]. *)
Definition is_none (v : json) : bool :=
  match v with JNull => true | _ => false end.

(** [v != s] for a string [s]. *)
Definition ne_str (v : json) (s : string) : bool :=
  match v with JStr s' => negb (String.eqb s' s) | _ => true end.

(** The value of a key in the items of a dictionary (each key once, as a
    decoded dictionary has them). *)
Fixpoint assoc (k : string) (kvs : list (string * json)) : option json :=
  match kvs with
  | [] => None
  | (k', v) :: rest => if String.eqb k k' then Some v else assoc k rest
  end.

(** ** Exceptions *)

Inductive exn :=
| RequestException (msg : string)   (* requests.exceptions.RequestException *)
| HTTPError (status : Z)            (* raised by raise_for_status *)
| OAuthError (msg : string)         (* whatever the Auth helper raises *)
| KeyError (key : string)
| TypeError
| AttributeError
| ValueError
| UnboundLocalError (var : string).

Inductive res (A : Type) :=
| Ok (a : A)
| Raise (e : exn).
Arguments Ok {A} a.
Arguments Raise {A} e.

(** ** HTTP messages *)

(** [requests.Response]: the status code and the body, [None] when the body
    is not a JSON document ([json()] raises [ValueError]). *)
Record response := mkResponse {
  status_code : Z;
  body : option json
}.

(** [Response.__bool__] is [Response.ok]: false exactly when
    [raise_for_status] would raise, which is for 400 <= status < 600. *)
Definition is_error_status (s : Z) : bool := (400 <=? s) && (s <? 600).
Definition ok (r : response) : bool := negb (is_error_status (status_code r)).

Inductive method := GET | PUT | POST | OTHER (name : string).

Definition is_GET (m : method) : bool :=
  match m with GET => true | _ => false end.

(** Header values: plain strings, and ['Bearer {}'.format(tok)], kept with
    the token it was formatted from. *)
Inductive hval :=
| HStr (s : string)
| HBearer (tok : json).

Record request := mkRequest {
  rq_method : method;
  rq_url : string;
  rq_params : option (gmap string json);   (* urlencode(params) *)
  rq_headers : gmap string hval;
  rq_data : option (gmap string json);
  rq_json : json;
  rq_timeout : Z
}.

(** Which statement of the source sent a request. *)
Inductive site :=
| AuthPost      (* the POST to the new-session endpoint in _authenticate *)
| PersistPut    (* the PUT that registers the push token *)
| QueryReq.     (* the request of the query loop *)

Definition site_eqb (a b : site) : bool :=
  match a, b with
  | AuthPost, AuthPost | PersistPut, PersistPut | QueryReq, QueryReq => true
  | _, _ => false
  end.

(** ** Events: what the run did to the outside, in order *)

Inductive event :=
| EvHttp (s : site) (rq : request) (ans : exn + response)
| EvFetchToken (cur : json) (user pw : string) (ans : exn + json)
| EvRefreshTokens (cur : json) (ans : exn + json)
| EvNow (t : Z)
| EvSleep (wait : Z)
| EvSaveCache (file : string) (d : gmap string json)
| EvAuthenticate (attempts : Z) (session : option response).
   (* a call of Ring._authenticate, with its arguments *)

(** ** The outside world *)

(** Each oracle sees the events so far, so a server may answer the same
    request differently over time. *)
Record Env := mkEnv {
  http : list event -> site -> request -> exn + response;
  oauth_fetch_token : list event -> json -> string -> string -> exn + json;
  oauth_refresh_tokens : list event -> json -> exn + json;
  clock : list event -> Z
}.

(** The constants of [ring_doorbell.const] the class reads. *)
Record Const := mkConst {
  API_VERSION : json;
  API_URI : string;
  DEVICES_ENDPOINT : string;
  NEW_SESSION_ENDPOINT : string;
  PERSIST_TOKEN_ENDPOINT : string;
  HEADERS : gmap string hval;
  POST_DATA : gmap string json;
  RETRY_TOKEN : Z;
  TIMEOUT : Z;
  CACHE_FILE : string
}.

(** ** The Ring object *)

(** [self.cache] is a reference: to the module's [CACHE_ATTRS] dictionary
    after [__init__], to the dictionary [_read_cache] returned afterwards. *)
Inductive cache_ref :=
| CacheGlobal
| CacheLocal (d : gmap string json).

Record Ring := mkRing {
  is_connected : option bool;
  token : json;
  params : option (gmap string json);
  _persist_token : bool;
  _push_token_notify_url : string;
  _timeout : Z;
  debug : bool;
  username : string;
  password : string;
  auth : json;
  last_refresh : option Z;
  cache : cache_ref;
  cache_file : string;
  _reuse_session : bool
}.

Record World := mkWorld {
  self : Ring;
  trace : list event;                          (* oldest first *)
  env : Env;
  const : Const;
  files : gmap string (gmap string json);      (* the cache files *)
  CACHE_ATTRS : gmap string json;              (* module global, mutable *)
  PERSIST_TOKEN_DATA : gmap string json        (* module global, mutable *)
}.

(** Attribute assignment. *)
Definition with_self (f : Ring -> Ring) (w : World) : World :=
  mkWorld (f (self w)) (trace w) (env w) (const w) (files w)
          (CACHE_ATTRS w) (PERSIST_TOKEN_DATA w).

Definition set_is_connected (b : option bool) (r : Ring) : Ring :=
  mkRing b (token r) (params r) (_persist_token r) (_push_token_notify_url r)
         (_timeout r) (debug r) (username r) (password r) (auth r)
         (last_refresh r) (cache r) (cache_file r) (_reuse_session r).

Definition set_token (t : json) (r : Ring) : Ring :=
  mkRing (is_connected r) t (params r) (_persist_token r)
         (_push_token_notify_url r) (_timeout r) (debug r) (username r)
         (password r) (auth r) (last_refresh r) (cache r) (cache_file r)
         (_reuse_session r).

Definition set_params (p : option (gmap string json)) (r : Ring) : Ring :=
  mkRing (is_connected r) (token r) p (_persist_token r)
         (_push_token_notify_url r) (_timeout r) (debug r) (username r)
         (password r) (auth r) (last_refresh r) (cache r) (cache_file r)
         (_reuse_session r).

Definition set_auth (a : json) (r : Ring) : Ring :=
  mkRing (is_connected r) (token r) (params r) (_persist_token r)
         (_push_token_notify_url r) (_timeout r) (debug r) (username r)
         (password r) a (last_refresh r) (cache r) (cache_file r)
         (_reuse_session r).

Definition set_last_refresh (t : option Z) (r : Ring) : Ring :=
  mkRing (is_connected r) (token r) (params r) (_persist_token r)
         (_push_token_notify_url r) (_timeout r) (debug r) (username r)
         (password r) (auth r) t (cache r) (cache_file r) (_reuse_session r).

Definition set_cache (c : cache_ref) (r : Ring) : Ring :=
  mkRing (is_connected r) (token r) (params r) (_persist_token r)
         (_push_token_notify_url r) (_timeout r) (debug r) (username r)
         (password r) (auth r) (last_refresh r) c (cache_file r)
         (_reuse_session r).

Definition log (e : event) (w : World) : World :=
  mkWorld (self w) (trace w ++ [e]) (env w) (const w) (files w)
          (CACHE_ATTRS w) (PERSIST_TOKEN_DATA w).

Definition set_files (fs : gmap string (gmap string json)) (w : World) : World :=
  mkWorld (self w) (trace w) (env w) (const w) fs
          (CACHE_ATTRS w) (PERSIST_TOKEN_DATA w).

Definition set_CACHE_ATTRS (d : gmap string json) (w : World) : World :=
  mkWorld (self w) (trace w) (env w) (const w) (files w)
          d (PERSIST_TOKEN_DATA w).

Definition set_PERSIST_TOKEN_DATA (d : gmap string json) (w : World) : World :=
  mkWorld (self w) (trace w) (env w) (const w) (files w)
          (CACHE_ATTRS w) d.

(** ** The monad of the embedding: state and exceptions

    A raised exception keeps the state reached so far, as in Python. *)
Definition M (A : Type) : Type := World -> res A * World.

Definition ret {A} (a : A) : M A := fun w => (Ok a, w).
Definition raise {A} (e : exn) : M A := fun w => (Raise e, w).
Definition bind {A B} (m : M A) (k : A -> M B) : M B :=
  fun w => match m w with
           | (Ok a, w') => k a w'
           | (Raise e, w') => (Raise e, w')
           end.

Notation "x <- m ;; k" := (bind m (fun x => k))
  (at level 100, m at next level, k at level 200, right associativity).
Notation "'run' m ;; k" := (bind m (fun _ => k))
  (at level 100, m at next level, k at level 200, right associativity).

Definition get_self : M Ring := fun w => (Ok (self w), w).
Definition modify_self (f : Ring -> Ring) : M unit :=
  fun w => (Ok tt, with_self f w).
Definition emit (e : event) : M unit := fun w => (Ok tt, log e w).
Definition get_const : M Const := fun w => (Ok (const w), w).
Definition of_answer {A} (a : exn + A) : M A :=
  match a with inl e => raise e | inr x => ret x end.
Definition when (b : bool) (m : M unit) : M unit := if b then m else ret tt.

(** ** Primitive operations *)

(** [v[k]] on a Python value. *)
Definition getitem (v : json) (k : string) : M json :=
  match v with
  | JObj kvs => match assoc k kvs with
                | Some x => ret x
                | None => raise (KeyError k)
                end
  | _ => raise TypeError
  end.

(** [v.get(k)]: only dictionaries have the method. *)
Definition dict_get (v : json) (k : string) : M json :=
  match v with
  | JObj kvs => ret (default JNull (assoc k kvs))
  | _ => raise AttributeError
  end.

(** [timedelta(seconds=v)], in seconds. *)
Definition timedelta_seconds (v : json) : M Z :=
  match v with
  | JNum z => ret z
  | JBool b => ret (Z.b2z b)
  | _ => raise TypeError
  end.

(** [dt.now()]. *)
Definition now : M Z :=
  fun w => let t := clock (env w) (trace w) in (Ok t, log (EvNow t) w).

(** [time.sleep(wait)]. *)
Definition sleep (wait : Z) : M unit := emit (EvSleep wait).

(** [oauth.fetch_token(username, password, auth_callback)] where
    [oauth = Auth(cur)]. *)
Definition fetch_token (cur : json) (user pw : string) : M json :=
  fun w => let a := oauth_fetch_token (env w) (trace w) cur user pw in
           of_answer a (log (EvFetchToken cur user pw a) w).

(** [oauth.refresh_tokens()] where [oauth = Auth(cur)]. *)
Definition refresh_tokens (cur : json) : M json :=
  fun w => let a := oauth_refresh_tokens (env w) (trace w) cur in
           of_answer a (log (EvRefreshTokens cur a) w).

(** [self.session.get/put/post(...)]: a transport failure is raised as the
    [RequestException] it is; the [except ... raise] of the source logs it
    and raises it again. *)
Definition send (s : site) (rq : request) : M response :=
  fun w => let a := http (env w) (trace w) s rq in
           of_answer a (log (EvHttp s rq a) w).

(** [req.json()]. *)
Definition resp_json (r : response) : M json :=
  match body r with
  | Some j => ret j
  | None => raise ValueError
  end.

(** [urlencode(params)]. *)
Definition urlencode (p : option (gmap string json)) : M (gmap string json) :=
  match p with
  | Some d => ret d
  | None => raise TypeError
  end.

(** Modelled from the spec: [ring_doorbell.utils] ([_exists_cache],
    [_read_cache], [_save_cache]) is not part of the sources at hand.  The
    persisted cache file is "a serialized mapping ... read/written as a
    whole object": a file holds one mapping, reading returns it, saving
    replaces it. *)
Definition _exists_cache (file : string) : M bool :=
  fun w => (Ok (bool_decide (is_Some (files w !! file))), w).

Definition _read_cache (file : string) : M (gmap string json) :=
  fun w => (Ok (default ∅ (files w !! file)), w).

Definition _save_cache (d : gmap string json) (file : string) : M unit :=
  fun w => (Ok tt, log (EvSaveCache file d) (set_files (<[file := d]> (files w)) w)).

(** [self.cache] read through the reference, and [self.cache[k] = v]. *)
Definition get_cache : M (gmap string json) :=
  fun w => (Ok (match cache (self w) with
                | CacheGlobal => CACHE_ATTRS w
                | CacheLocal d => d
                end), w).

Definition cache_setitem (k : string) (v : json) : M unit :=
  fun w => (Ok tt,
            match cache (self w) with
            | CacheGlobal => set_CACHE_ATTRS (<[k := v]> (CACHE_ATTRS w)) w
            | CacheLocal d => with_self (set_cache (CacheLocal (<[k := v]> d))) w
            end).

(** [d[k]] on a dictionary with string keys. *)
Definition map_getitem (d : gmap string json) (k : string) : M json :=
  match d !! k with
  | Some v => ret v
  | None => raise (KeyError k)
  end.

(** ** Ring._get_oauth_token *)

Definition _get_oauth_token : M json :=
  s <- get_self ;;
  let oauth := auth s in
  run (if negb (truthy (auth s)) then
     a <- fetch_token oauth (username s) (password s) ;;
     modify_self (set_auth a)
   else
     refresh_at <- match last_refresh s with
                   | Some lr =>
                       e <- getitem (auth s) "expires_in" ;;
                       expires_in <- timedelta_seconds e ;;
                       ret (Some (lr + expires_in))
                   | None => ret None
                   end ;;
     expired <- match refresh_at with
                | None => ret true
                | Some ra => t <- now ;; ret (ra <=? t)
                end ;;
     if expired : bool then
       a <- refresh_tokens oauth ;;
       run modify_self (set_auth a) ;;
       t <- now ;;
       modify_self (set_last_refresh (Some t))
     else ret tt) ;;
  s' <- get_self ;;
  getitem (auth s') "access_token".


(** ** Ring._authenticate *)

(** The counter [loop] runs through 0, 1, ..., [attempts] and the test is
    [loop <= attempts]: the body runs [attempts + 1] times, not at all for a
    negative [attempts]. *)
Definition iterations (attempts : Z) : nat := Z.to_nat (attempts + 1).

(** How the [while] loop of [_authenticate] is left: by its [return True],
    or by the loop test failing, with the last value of [req] (none when
    the body never ran). *)
Inductive auth_exit :=
| Returned (v : bool)
| Exhausted (req : option response).

(** The blocks of the branch for a 200 or 201 answer.  First, for 201 only:
    the session token of the response. *)
Definition read_session_token (r : response) : M unit :=
  when (status_code r =? 201)
       (j <- resp_json r ;;
        data <- dict_get j "profile" ;;
        t <- dict_get data "authentication_token" ;;
        modify_self (set_token t)).

(** [if self._persist_token and self._push_token_notify_url:] the PUT that
    registers the push token; it writes into the module's
    [PERSIST_TOKEN_DATA]. *)
Definition persist_push_token (modified_headers : gmap string hval) : M unit :=
  c <- get_const ;;
  s <- get_self ;;
  when (_persist_token s && negb (String.eqb (_push_token_notify_url s) ""))
       (let url := (API_URI c ++ PERSIST_TOKEN_ENDPOINT c)%string in
        run (fun w => (Ok tt,
               set_PERSIST_TOKEN_DATA
                 (<["device[push_notification_token]" :=
                      JStr (_push_token_notify_url s)]>
                    (<["auth_token" := token s]> (PERSIST_TOKEN_DATA w))) w)) ;;
        data <- (fun w => (Ok (PERSIST_TOKEN_DATA w), w)) ;;
        _ <- send PersistPut
               (mkRequest PUT url None modified_headers (Some data) JNull
                          (_timeout s)) ;;
        ret tt).

(** [if self._reuse_session:] the cache record is updated and saved. *)
Definition save_session : M unit :=
  s <- get_self ;;
  when (_reuse_session s)
       (run cache_setitem "account" (JStr (username s)) ;;
        run cache_setitem "token" (token s) ;;
        run cache_setitem "auth" (auth s) ;;
        d <- get_cache ;;
        _save_cache d (cache_file s)).

(** The body of the branch for a 200 or 201 answer. *)
Definition auth_success (r : response) (modified_headers : gmap string hval)
  : M auth_exit :=
  run read_session_token r ;;
  run modify_self (set_is_connected (Some true)) ;;
  c <- get_const ;;
  s <- get_self ;;
  run modify_self (set_params
        (Some (<["auth_token" := token s]> {["api_version" := API_VERSION c]}))) ;;
  run persist_push_token modified_headers ;;
  run save_session ;;
  ret (Returned true).

(** [n] iterations of the [while] loop remain; [req] is the variable of
    that name. *)
Fixpoint auth_loop (n : nat) (session : option response) (wait : Z)
    (url : string) (modified_headers : gmap string hval)
    (req : option response) : M auth_exit :=
  match n with
  | O => ret (Exhausted req)
  | S n' =>
      tok <- _get_oauth_token ;;
      let modified_headers := <["Authorization" := HBearer tok]> modified_headers in
      c <- get_const ;;
      s <- get_self ;;
      r <- match session with
           | None => send AuthPost
                       (mkRequest POST url None modified_headers
                                  (Some (POST_DATA c)) JNull (_timeout s))
           | Some r => ret r
           end ;;
      if negb (ok r) then
        run sleep wait ;;
        auth_loop n' session wait url modified_headers (Some r)
      else if (status_code r =? 200) || (status_code r =? 201) then
        auth_success r modified_headers
      else
        auth_loop n' session wait url modified_headers (Some r)
  end.

(** [req.raise_for_status()]. *)
Definition raise_for_status (req : option response) : M unit :=
  match req with
  | None => raise (UnboundLocalError "req")
  | Some r => if is_error_status (status_code r)
              then raise (HTTPError (status_code r))
              else ret tt
  end.

Definition _authenticate (attempts : Z) (session : option response) (wait : Z)
  : M bool :=
  run emit (EvAuthenticate attempts session) ;;
  c <- get_const ;;
  let url := (API_URI c ++ NEW_SESSION_ENDPOINT c)%string in
  x <- auth_loop (iterations attempts) session wait url (HEADERS c) None ;;
  match x with
  | Returned v => ret v
  | Exhausted req =>
      run modify_self (set_is_connected (Some false)) ;;
      run raise_for_status req ;;
      ret true
  end.

(** [self._authenticate()] with the defaults [attempts=RETRY_TOKEN],
    [session=None], [wait=1.0]. *)
Definition _authenticate_default : M bool :=
  c <- get_const ;;
  _authenticate (RETRY_TOKEN c) None 1.

(** ** Ring.query *)

(** What [query] returns: the raw response, or a decoded document, [None]
    being [QVal JNull]. *)
Inductive qval :=
| QResp (r : response)
| QVal (j : json).

Definition QNone : qval := QVal JNull.

(** [if extra_params:] for a dictionary or [None]. *)
Definition truthy_dict (d : option (gmap string json)) : bool :=
  match d with
  | Some m => negb (bool_decide (m = ∅))
  | None => false
  end.

(** [not self.is_connected]. *)
Definition not_connected (c : option bool) : bool :=
  match c with Some true => false | _ => true end.

Fixpoint query_loop (n : nat) (url : string) (m : method) (raw : bool)
    (extra_params : option (gmap string json)) (json_body : json)
    (query_timeout : Z) (auth_header : gmap string hval) : M qval :=
  match n with
  | O => ret QNone
  | S n' =>
      s <- get_self ;;
      (* params = self.params; params.update(extra_params) works on the
         dictionary self.params refers to *)
      params <- (if truthy_dict extra_params then
                   match params s with
                   | None => raise AttributeError
                   | Some p =>
                       let p' := default ∅ extra_params ∪ p in
                       run modify_self (set_params (Some p')) ;;
                       ret (Some p')
                   end
                 else ret (params s)) ;;
      req <- match m with
             | GET => q <- urlencode params ;;
                      send QueryReq (mkRequest GET url (Some q) auth_header
                                               None JNull query_timeout)
             | PUT => q <- urlencode params ;;
                      send QueryReq (mkRequest PUT url (Some q) auth_header
                                               None JNull query_timeout)
             | POST => q <- urlencode params ;;
                       send QueryReq (mkRequest POST url (Some q) auth_header
                                                None json_body query_timeout)
             | OTHER _ => raise (UnboundLocalError "req")
             end ;;
      if status_code req =? 401 then
        run modify_self (set_is_connected (Some false)) ;;
        _ <- _authenticate_default ;;
        query_loop n' url m raw extra_params json_body query_timeout auth_header
      else if (status_code req =? 200) || (status_code req =? 204) then
        if raw then ret (QResp req)
        else if is_GET m then j <- resp_json req ;; ret (QVal j)
        else ret QNone
      else
        query_loop n' url m raw extra_params json_body query_timeout auth_header
  end.

Definition query (url : string) (attempts : Z) (m : method) (raw : bool)
    (extra_params : option (gmap string json)) (json_body : json)
    (timeout : option Z) : M qval :=
  s <- get_self ;;
  let query_timeout := default (_timeout s) timeout in
  run when (debug s && not_connected (is_connected s))
        (_ <- _authenticate_default ;; ret tt) ;;
  tok <- _get_oauth_token ;;
  let auth_header : gmap string hval := {["Authorization" := HBearer tok]} in
  query_loop (iterations attempts) url m raw extra_params json_body
             query_timeout auth_header.

(** ** Ring._process_cached_session and Ring.__init__ *)

(** [req and req.status_code == 200] on what [query] returned. *)
Definition validated (v : qval) : M (option response) :=
  match v with
  | QResp r => ret (if ok r && (status_code r =? 200) then Some r else None)
  | QVal j => if truthy j then raise AttributeError else ret None
  end.

Definition _process_cached_session : M unit :=
  s <- get_self ;;
  c <- get_const ;;
  present <- _exists_cache (cache_file s) ;;
  if present : bool then
    d <- _read_cache (cache_file s) ;;
    run modify_self (set_cache (CacheLocal d)) ;;
    tok <- map_getitem d "token" ;;
    stale <- (if is_none tok then ret true
              else acc <- map_getitem d "account" ;;
                   if is_none acc then ret true
                   else acc' <- map_getitem d "account" ;;
                        ret (ne_str acc' (username s))) ;;
    if stale : bool then
      _ <- _authenticate_default ;; ret tt
    else
      run modify_self (set_token tok) ;;
      run modify_self (set_params
            (Some (<["auth_token" := tok]> {["api_version" := API_VERSION c]}))) ;;
      run match d !! "auth" with
          | Some a => modify_self (set_auth a)
          | None => ret tt
          end ;;
      let url := (API_URI c ++ DEVICES_ENDPOINT c)%string in
      req <- query url (RETRY_TOKEN c) GET true None JNull None ;;
      v <- validated req ;;
      match v with
      | Some r => _ <- _authenticate (RETRY_TOKEN c) (Some r) 1 ;; ret tt
      | None => _ <- _authenticate_default ;; ret tt
      end
  else
    _ <- _authenticate_default ;; ret tt.

(** [Ring(username, password, debug, persist_token, push_token_notify_url,
    reuse_session, cache_file, timeout)]; [auth_callback] is only handed on
    to the OAuth helper, which is an oracle here. *)
Definition Ring__init__ (username password : string) (debug persist_token : bool)
    (push_token_notify_url : string) (reuse_session : bool)
    (cache_file : string) (timeout : Z) : M unit :=
  run (fun w => (Ok tt,
         with_self (fun _ =>
           mkRing None JNull None persist_token push_token_notify_url timeout
                  debug username password JNull None CacheGlobal cache_file
                  reuse_session) w)) ;;
  run cache_setitem "account" (JStr username) ;;
  if reuse_session then _process_cached_session
  else _ <- _authenticate_default ;; ret tt.

(** ** Reading a run off the trace *)

(** The events of a run from [w] to [w']. *)
Definition since (w w' : World) : list event :=
  drop (length (trace w)) (trace w').

(** The exchanges of one call site, in order. *)
Fixpoint exchanges (s : site) (l : list event)
  : list (request * (exn + response)) :=
  match l with
  | [] => []
  | EvHttp s' rq ans :: l' =>
      if site_eqb s s' then (rq, ans) :: exchanges s l' else exchanges s l'
  | _ :: l' => exchanges s l'
  end.

Abbreviation query_exchanges := (exchanges QueryReq).
Abbreviation auth_posts := (exchanges AuthPost).

(** The calls of [_authenticate], with their arguments. *)
Fixpoint auth_calls (l : list event) : list (Z * option response) :=
  match l with
  | [] => []
  | EvAuthenticate a ses :: l' => (a, ses) :: auth_calls l'
  | _ :: l' => auth_calls l'
  end.


(** An answer that is a response with a status satisfying [P]. *)
Definition answered (P : Z -> Prop) (x : request * (exn + response)) : Prop :=
  exists r, snd x = inr r /\ P (status_code r).

(** Events of the OAuth helper and the clock. *)
Definition is_token_event (e : event) : Prop :=
  match e with
  | EvFetchToken _ _ _ _ | EvRefreshTokens _ _ | EvNow _ => True
  | _ => False
  end.

(** Events inside one [_authenticate] call, its own entry apart: neither a
    request of the query loop nor another [_authenticate] call. *)
Definition is_inner (e : event) : Prop :=
  match e with
  | EvHttp QueryReq _ _ | EvAuthenticate _ _ => False
  | _ => True
  end.

(** Events that are no [_authenticate] call. *)
Definition not_auth_call (e : event) : Prop :=
  match e with EvAuthenticate _ _ => False | _ => True end.

(** A computation talks to the same world it was given and only adds
    events, all of them in [P]. *)
Definition emits {A} (P : event -> Prop) (m : M A) : Prop :=
  forall w r w',
    m w = (r, w') ->
    env w' = env w /\ const w' = const w /\
    exists l, trace w' = trace w ++ l /\ Forall P l.

(** The request one iteration of the query loop sends. *)
Definition query_request (url : string) (m : method) (json_body : json)
    (query_timeout : Z) (auth_header : gmap string hval)
    (p : gmap string json) : request :=
  mkRequest m url (Some p) auth_header None
            (match m with POST => json_body | _ => JNull end) query_timeout.

(** [self.params] after [params.update(extra_params)], when that runs. *)
Definition merged (extra_params : option (gmap string json))
    (p : gmap string json) : gmap string json :=
  if truthy_dict extra_params then default ∅ extra_params ∪ p else p.


(** ** Ring.__devices, the device properties and Ring.update *)

(** [for obj in req]: the elements of a list, the keys of a dictionary, the
    characters of a string; nothing else can be iterated over. *)
Definition py_iter (v : json) : M (list json) :=
  match v with
  | JArr l => ret l
  | JObj kvs => ret (map (fun kv => JStr (fst kv)) kvs)
  | JStr s => ret (map (fun c => JStr (String c EmptyString))
                       (String.list_ascii_of_string s))
  | _ => raise TypeError
  end.

(** A comprehension or a loop whose body may raise: the first exception
    ends it. *)
Fixpoint for_each {A B} (f : A -> M B) (l : list A) : M (list B) :=
  match l with
  | [] => ret []
  | x :: l' => y <- f x ;; ys <- for_each f l' ;; ret (y :: ys)
  end.

(** [list((obj['description'] for obj in req))]. *)
Definition descriptions (req : json) : M (list json) :=
  objs <- py_iter req ;;
  for_each (fun obj => getitem obj "description") objs.

(** [self.query(url).get(key)]: [query] returned a document or [None];
    a response object has no [get] either. *)
Definition qval_get (v : qval) (key : string) : M json :=
  match v with
  | QVal j => dict_get j key
  | QResp _ => raise AttributeError
  end.

(** The statements of the [try] block of [__devices] work on the local
    list [lst]; when one raises, the list is as far as it got, and the
    handler returns it. *)
Definition Block (Dev : Type) : Type :=
  list Dev -> World -> (list Dev * option exn) * World.

Definition no_op {Dev} : Block Dev := fun lst w => ((lst, None), w).

Definition and_then {Dev} (a b : Block Dev) : Block Dev :=
  fun lst w =>
    match a lst w with
    | ((lst', None), w') => b lst' w'
    | out => out
    end.

(** [for member in members: lst.append(new(self, member))]. *)
Fixpoint append_devices {Dev} (new : json -> M Dev) (members : list json)
  : Block Dev :=
  match members with
  | [] => no_op
  | member :: rest =>
      fun lst w =>
        match new member w with
        | (Ok d, w') => append_devices new rest (lst ++ [d]) w'
        | (Raise e, w') => ((lst, Some e), w')
        end
  end.

(** [req = self.query(url).get(key)] and the loop over its descriptions;
    [query] is called with its defaults. *)
Definition device_group {Dev} (key : string) (new : json -> M Dev)
  : Block Dev :=
  fun lst w =>
    match (c <- get_const ;;
           v <- query (API_URI c ++ DEVICES_ENDPOINT c)%string
                  (RETRY_TOKEN c) GET false None JNull None ;;
           req <- qval_get v key ;;
           descriptions req) w with
    | (Ok members, w') => append_devices new members lst w'
    | (Raise e, w') => ((lst, Some e), w')
    end.

Section Devices.

(** The device classes [RingStickUpCam], [RingChime] and [RingDoorBell]
    are not among the sources at hand.  Their constructors are
    parameters: they take the Ring object (the world) and the
    description, [RingDoorBell] also the argument [shared] when it is
    given, and may do whatever a method can: send requests, change the
    object, raise. *)
Context {Dev : Type}.
Context (RingStickUpCam RingChime : json -> M Dev).
Context (RingDoorBell : json -> option bool -> M Dev).

(** [except AttributeError: pass] and [return lst]. *)
Definition __devices (device_type : string) : M (list Dev) :=
  fun w =>
    match and_then (if String.eqb device_type "stickup_cams"
               then device_group "stickup_cams" RingStickUpCam
               else no_op)
           (and_then (if String.eqb device_type "chimes"
                 then device_group "chimes" RingChime
                 else no_op)
                (if String.eqb device_type "doorbells"
                 then and_then (device_group "doorbots"
                             (fun member => RingDoorBell member None))
                          (device_group "authorized_doorbots"
                             (fun member => RingDoorBell member (Some true)))
                 else no_op)) [] w with
    | ((lst, None), w') => (Ok lst, w')
    | ((lst, Some AttributeError), w') => (Ok lst, w')
    | ((_, Some e), w') => (Raise e, w')
    end.

Definition chimes : M (list Dev) := __devices "chimes".
Definition stickup_cams : M (list Dev) := __devices "stickup_cams".
Definition doorbells : M (list Dev) := __devices "doorbells".

(** The property [devices]: the dictionary, in the order its keys are
    assigned. *)
Definition Ring_devices : M (list (string * list Dev)) :=
  c <- chimes ;;
  s <- stickup_cams ;;
  d <- doorbells ;;
  ret [("chimes", c); ("stickup_cams", s); ("doorbells", d)].

(** What the body of the loops of [update] does with a device is to read
    attributes ([hasattr(device, "update")], [device.name] and
    [getattr(device, "update")]); the method is looked up, not called.
    The reading belongs to the device classes and is a parameter. *)
Context (read_attributes : Dev -> M unit).

Definition update : M bool :=
  devs <- Ring_devices ;;
  _ <- for_each (fun kv => for_each read_attributes (snd kv)) devs ;;
  ret true.

End Devices.

(** The key of the device list that [__devices] reads first for a device
    type. *)
Definition listing_key (device_type : string) : option string :=
  if String.eqb device_type "stickup_cams" then Some "stickup_cams"
  else if String.eqb device_type "chimes" then Some "chimes"
  else if String.eqb device_type "doorbells" then Some "doorbots"
  else None.

(** The listing query of [__devices]. *)
Definition listing_query : M qval :=
  c <- get_const ;;
  query (API_URI c ++ DEVICES_ENDPOINT c)%string (RETRY_TOKEN c) GET false
        None JNull None.

Definition is_dict (v : qval) : bool :=
  match v with QVal (JObj _) => true | _ => false end.

Definition has_description (obj : json) : bool :=
  match obj with
  | JObj kvs => bool_decide (is_Some (assoc "description" kvs))
  | _ => false
  end.


(** ** Vocabulary of the statements *)

(** A status that does not end the loop of [_authenticate] with success. *)
Definition no_success (s : Z) : Prop := s <> 200 /\ s <> 201.


(** After a 200 or 201 the iteration sends at most the PUT of the push
    token and saves the cache. *)
Definition after_success (e : event) : Prop :=
  match e with
  | EvHttp PersistPut _ _ | EvSaveCache _ _ => True
  | _ => False
  end.

(** The world in which one iteration of the query loop sends its request:
    [self.params] holds the merged dictionary when [extra_params] is
    given. *)
Definition with_merged (extra_params : option (gmap string json))
    (p : gmap string json) (w : World) : World :=
  if truthy_dict extra_params
  then with_self (set_params (Some (merged extra_params p))) w
  else w.

(** What the query loop returns for a 200 or 204 answer. *)
Definition query_result (m : method) (raw : bool) (resp : response) : res qval :=
  if raw then Ok (QResp resp)
  else if is_GET m then
         match body resp with
         | Some j => Ok (QVal j)
         | None => Raise ValueError
         end
       else Ok QNone.

Definition known_method (m : method) : Prop :=
  match m with OTHER _ => False | _ => True end.

(** Every call of [_authenticate] in [l] comes right after a 401 answer to
    a request of the query loop. *)
Definition reauth_only_after_401 (l : list event) : Prop :=
  forall l1 a ses l2,
    l = l1 ++ EvAuthenticate a ses :: l2 ->
    exists l0 rq resp,
      l1 = l0 ++ [EvHttp QueryReq rq (inr resp)] /\ status_code resp = 401.

(** ** The runs of the query loop

    [loop_run n w l r w']: the loop with [n] iterations left, started in
    [w], adds the events [l] and ends in [w'] with [r].  One constructor
    per way through the body of the [while]. *)
Inductive loop_run (url : string) (m : method) (raw : bool)
    (extra : option (gmap string json)) (jb : json) (qt : Z)
    (hdr : gmap string hval)
  : nat -> World -> list event -> res qval -> World -> Prop :=
| run_exhausted w :
    (* the loop test fails: response is still None *)
    loop_run url m raw extra jb qt hdr 0 w [] (Ok QNone) w
| run_no_request n w e w' :
    (* an exception before any request: no params, or no such method *)
    trace w' = trace w ->
    params (self w) = None \/ ~ known_method m ->
    loop_run url m raw extra jb qt hdr (S n) w [] (Raise e) w'
| run_transport n w p e :
    params (self w) = Some p -> known_method m ->
    let rq := query_request url m jb qt hdr (merged extra p) in
    http (env w) (trace w) QueryReq rq = inl e ->
    loop_run url m raw extra jb qt hdr (S n) w
      [EvHttp QueryReq rq (inl e)] (Raise e)
      (log (EvHttp QueryReq rq (inl e)) (with_merged extra p w))
| run_break n w p resp :
    params (self w) = Some p -> known_method m ->
    let rq := query_request url m jb qt hdr (merged extra p) in
    http (env w) (trace w) QueryReq rq = inr resp ->
    status_code resp <> 401 ->
    status_code resp = 200 \/ status_code resp = 204 ->
    loop_run url m raw extra jb qt hdr (S n) w
      [EvHttp QueryReq rq (inr resp)] (query_result m raw resp)
      (log (EvHttp QueryReq rq (inr resp)) (with_merged extra p w))
| run_again n w p resp l r w' :
    params (self w) = Some p -> known_method m ->
    let rq := query_request url m jb qt hdr (merged extra p) in
    http (env w) (trace w) QueryReq rq = inr resp ->
    status_code resp <> 401 ->
    status_code resp <> 200 -> status_code resp <> 204 ->
    loop_run url m raw extra jb qt hdr n
      (log (EvHttp QueryReq rq (inr resp)) (with_merged extra p w)) l r w' ->
    loop_run url m raw extra jb qt hdr (S n) w
      (EvHttp QueryReq rq (inr resp) :: l) r w'
| run_reauth_raises n w p resp la e w2 :
    params (self w) = Some p -> known_method m ->
    let rq := query_request url m jb qt hdr (merged extra p) in
    http (env w) (trace w) QueryReq rq = inr resp ->
    status_code resp = 401 ->
    let w1 := log (EvHttp QueryReq rq (inr resp)) (with_merged extra p w) in
    _authenticate_default (with_self (set_is_connected (Some false)) w1)
      = (Raise e, w2) ->
    trace w2 = trace w1 ++ EvAuthenticate (RETRY_TOKEN (const w)) None :: la ->
    Forall is_inner la ->
    loop_run url m raw extra jb qt hdr (S n) w
      (EvHttp QueryReq rq (inr resp)
       :: EvAuthenticate (RETRY_TOKEN (const w)) None :: la) (Raise e) w2
| run_reauth n w p resp la b w2 l r w' :
    params (self w) = Some p -> known_method m ->
    let rq := query_request url m jb qt hdr (merged extra p) in
    http (env w) (trace w) QueryReq rq = inr resp ->
    status_code resp = 401 ->
    let w1 := log (EvHttp QueryReq rq (inr resp)) (with_merged extra p w) in
    _authenticate_default (with_self (set_is_connected (Some false)) w1)
      = (Ok b, w2) ->
    trace w2 = trace w1 ++ EvAuthenticate (RETRY_TOKEN (const w)) None :: la ->
    Forall is_inner la ->
    loop_run url m raw extra jb qt hdr n w2 l r w' ->
    loop_run url m raw extra jb qt hdr (S n) w
      (EvHttp QueryReq rq (inr resp)
       :: EvAuthenticate (RETRY_TOKEN (const w)) None :: la ++ l) r w'.

(** Statuses that neither end the query loop nor trigger
    re-authentication, and statuses that do not end it. *)
Definition other_status (s : Z) : Prop := s <> 200 /\ s <> 204 /\ s <> 401.
Definition not_final (s : Z) : Prop := s <> 200 /\ s <> 204.

(** The events of [query] before its loop: the call of [_authenticate] in
    debug mode when not connected. *)
Definition proactive (w : World) : list event :=
  if debug (self w) && not_connected (is_connected (self w))
  then [EvAuthenticate (RETRY_TOKEN (const w)) None] else [].



(** Events that are no request of the query loop. *)
Definition not_query (e : event) : Prop :=
  match e with EvHttp QueryReq _ _ => False | _ => True end.

(** The attributes [__init__] sets and no method assigns again. *)
Definition config (r : Ring)
  : string * string * string * bool * bool * bool * string * Z :=
  (username r, password r, cache_file r, _reuse_session r, debug r,
   _persist_token r, _push_token_notify_url r, _timeout r).

(** A computation leaves the observation [f] of the world as it was. *)
Definition preserves {A X} (f : World -> X) (m : M A) : Prop :=
  forall w r w', m w = (r, w') -> f w' = f w.

(** The object [__init__] builds before it looks at the cache, and the
    world it leaves: the account is written through [self.cache] into the
    module's [CACHE_ATTRS]. *)
Definition new_object (user pw : string) (dbg persist : bool) (url : string)
    (reuse : bool) (file : string) (timeout : Z) : Ring :=
  mkRing None JNull None persist url timeout dbg user pw JNull None
         CacheGlobal file reuse.

Definition initialised (user pw : string) (dbg persist : bool) (url : string)
    (reuse : bool) (file : string) (timeout : Z) (w : World) : World :=
  set_CACHE_ATTRS (<["account" := JStr user]> (CACHE_ATTRS w))
    (with_self (fun _ => new_object user pw dbg persist url reuse file timeout) w).

(** Full authentication, as [__init__] runs it when there is no cache. *)
Definition full_authentication : M unit :=
  _ <- _authenticate_default ;; ret tt.

(** Events of a call of [_authenticate] that was handed a response: the
    OAuth helper, the clock, pauses, the PUT of the push token and the
    cache; no post to the new-session endpoint. *)
Definition session_event (e : event) : Prop :=
  match e with
  | EvHttp PersistPut _ _ | EvFetchToken _ _ _ _ | EvRefreshTokens _ _
  | EvNow _ | EvSleep _ | EvSaveCache _ _ => True
  | _ => False
  end.

(** ** Example worlds

    Concrete constants, servers and sessions on which the functions above
    are evaluated. *)

Definition demo_const : Const :=
  mkConst (JNum 9) "https://api.ring.com" "/clients_api/ring_devices"
          "/clients_api/session" "/clients_api/device"
          {["User-Agent" := HStr "android"]}
          {["api_version" := JNum 9]} 3 10 "ring_doorbell-session.cache".

(** An OAuth token as the helper returns it. *)
Definition oauth_tok (name : string) : json :=
  JObj [("access_token", JStr name); ("expires_in", JNum 3600)].

(** A server that answers the k-th request of the query loop with the k-th
    response of [qs] (the transport fails when the script is over) and
    every other request with [post].  The OAuth helper hands out the token
    "first" for the password and "second" on refresh; the clock shows the
    number of events so far. *)
Definition scripted (qs : list response) (post : response) : Env :=
  mkEnv (fun h s rq =>
           match s with
           | QueryReq => match nth_error qs (length (query_exchanges h)) with
                         | Some r => inr r
                         | None => inl (RequestException "connection refused")
                         end
           | _ => inr post
           end)
        (fun _ _ _ _ => inr (oauth_tok "first"))
        (fun _ _ => inr (oauth_tok "second"))
        (fun h => Z.of_nat (length h)).

(** The answer of the new-session endpoint with a session token. *)
Definition created : response :=
  mkResponse 201
    (Some (JObj [("profile", JObj [("authentication_token", JStr "sess-2")])])).

Definition status_only (s : Z) : response := mkResponse s None.

(** A Ring object as [__init__] leaves its attributes before it
    authenticates. *)
Definition fresh_ring (dbg : bool) : Ring :=
  mkRing None JNull None false "" 10 dbg "user" "pw" JNull None CacheGlobal
         "ring_doorbell-session.cache" true.

(** A connected session with session token "sess-1". *)
Definition live_ring (dbg : bool) : Ring :=
  mkRing (Some true) (JStr "sess-1")
         (Some (<["auth_token" := JStr "sess-1"]> {["api_version" := JNum 9]}))
         false "" 10 dbg "user" "pw" (oauth_tok "first") (Some 0) CacheGlobal
         "ring_doorbell-session.cache" true.

Definition world_of (r : Ring) (e : Env)
    (fs : gmap string (gmap string json)) : World :=
  mkWorld r [] e demo_const fs ∅ ∅.

(** The same session after a 401 was seen: not connected any more. *)
Definition stale_ring (dbg : bool) : Ring :=
  set_is_connected (Some false) (live_ring dbg).

(** The device list, as the validation GET returns it. *)
Definition devices : response :=
  mkResponse 200 (Some (JObj [("doorbots", JArr []); ("chimes", JArr [])])).

(** The parameters and the header of a request of [live_ring]. *)
Definition live_params : gmap string json :=
  <["auth_token" := JStr "sess-1"]> {["api_version" := JNum 9]}.

Definition bearer (name : string) : gmap string hval :=
  {["Authorization" := HBearer (JStr name)]}.

Definition devices_url : string := "https://api.ring.com/clients_api/ring_devices".


Definition renewed_params : gmap string json :=
  <["auth_token" := JStr "sess-2"]> {["api_version" := JNum 9]}.



Definition keyless_record : gmap string json := {["account" := JStr "user"]}.

(** A trace at a glance: what each event was, without the payload. *)
Inductive glimpse :=
| Authenticated (handed_response : bool)
| Posted (status : option Z)
| Queried (status : option Z)
| PutToken
| Fetched
| Refreshed
| Clock (t : Z)
| Slept
| Saved.

Definition answer_status (a : exn + response) : option Z :=
  match a with inr r => Some (status_code r) | inl _ => None end.

Definition glimpse_of (e : event) : glimpse :=
  match e with
  | EvHttp AuthPost _ a => Posted (answer_status a)
  | EvHttp QueryReq _ a => Queried (answer_status a)
  | EvHttp PersistPut _ _ => PutToken
  | EvFetchToken _ _ _ _ => Fetched
  | EvRefreshTokens _ _ => Refreshed
  | EvNow t => Clock t
  | EvSleep _ => Slept
  | EvSaveCache _ _ => Saved
  | EvAuthenticate _ ses => Authenticated (bool_decide (is_Some ses))
  end.

(** The record a session of "user" with session token "sess-2" saves. *)
Definition saved_record : gmap string json :=
  <["auth" := oauth_tok "first"]>
    (<["token" := JStr "sess-2"]> {["account" := JStr "user"]}).

(** ** Vocabulary of further statements *)

(** [auth['access_token']], what [_get_oauth_token] ends with. *)
Definition access_token_of (a : json) : res json :=
  match a with
  | JObj kvs => match assoc "access_token" kvs with
                | Some t => Ok t
                | None => Raise (KeyError "access_token")
                end
  | _ => Raise TypeError
  end.


(** The pauses of a trace. *)
Fixpoint sleeps (l : list event) : nat :=
  match l with
  | [] => O
  | EvSleep _ :: l' => S (sleeps l')
  | _ :: l' => sleeps l'
  end.

(** The exchanges answered by an error status (400 to 599). *)
Fixpoint error_answers (xs : list (request * (exn + response))) : nat :=
  match xs with
  | [] => O
  | (_, inr r) :: xs' =>
      if is_error_status (status_code r) then S (error_answers xs')
      else error_answers xs'
  | _ :: xs' => error_answers xs'
  end.

(** [self.params] as [_authenticate] builds it. *)
Definition session_params (c : Const) (tok : json) : gmap string json :=
  <["auth_token" := tok]> {["api_version" := API_VERSION c]}.

(** What the loop of [_authenticate] leaves alone until a post is answered
    200 or 201: everything but the OAuth token and its refresh time. *)
Definition session_state (w : World) :=
  (config (self w), token (self w), is_connected (self w), params (self w),
   cache (self w), files w, CACHE_ATTRS w, PERSIST_TOKEN_DATA w).

(** An exchange that did not end in a 200 or 201. *)
Definition unsuccessful (x : request * (exn + response)) : Prop :=
  match snd x with
  | inr r => no_success (status_code r)
  | inl _ => True
  end.

(** [req.json().get('profile').get('authentication_token')] of a
    response. *)
Definition session_token_of (r : response) : res json :=
  match body r with
  | None => Raise ValueError
  | Some (JObj kvs) =>
      match default JNull (assoc "profile" kvs) with
      | JObj profile => Ok (default JNull (assoc "authentication_token" profile))
      | _ => Raise AttributeError
      end
  | Some _ => Raise AttributeError
  end.

(** The PUT of the push token went through, where there was one. *)
Definition put_delivered (e : event) : Prop :=
  match e with
  | EvHttp PersistPut _ (inl _) => False
  | _ => True
  end.

(** No cache file is written. *)
Definition no_save (e : event) : Prop :=
  match e with
  | EvSaveCache _ _ => False
  | _ => True
  end.

(** From [w] to [w'] no cache file was written: the files are as they
    were and no event is a save. *)
Definition keeps_files (w w' : World) : Prop :=
  config (self w') = config (self w) /\ files w' = files w /\
  exists l, trace w' = trace w ++ l /\ Forall no_save l.

(** The session as a login left it: everything of the object and the
    module but the OAuth token, its refresh time and [self.params]. *)
Definition login_state (w : World) :=
  (config (self w), token (self w), is_connected (self w), cache (self w),
   files w, CACHE_ATTRS w, PERSIST_TOKEN_DATA w).

(** A computation that changes the observation [f] only in runs that call
    [_authenticate]. *)
Definition quiet_keeps {A X} (f : World -> X) (m : M A) : Prop :=
  forall w r w',
    m w = (r, w') ->
    exists l, trace w' = trace w ++ l /\ (auth_calls l = [] -> f w' = f w).

(** The object after [_process_cached_session] took a cache record of its
    user: the record in [self.cache], its token as session token and in
    [self.params], and its OAuth token when it has one. *)
Definition adopted (d : gmap string json) (tok : json) (w : World) : World :=
  match d !! "auth" with
  | Some a =>
      with_self (set_auth a)
        (with_self (set_params (Some (session_params (const w) tok)))
           (with_self (set_token tok)
              (with_self (set_cache (CacheLocal d)) w)))
  | None =>
      with_self (set_params (Some (session_params (const w) tok)))
        (with_self (set_token tok)
           (with_self (set_cache (CacheLocal d)) w))
  end.

(** What [_process_cached_session] does with the answer of the validation
    GET. *)
Definition after_validation (c : Const) (req : qval) : M unit :=
  v <- validated req ;;
  match v with
  | Some r => _ <- _authenticate (RETRY_TOKEN c) (Some r) 1 ;; ret tt
  | None => _ <- _authenticate_default ;; ret tt
  end.

(** A status that neither validates the cached session nor starts a
    re-authentication inside the validation query. *)
Definition unvalidated (s : Z) : Prop := s <> 200 /\ s <> 401.

(** The entries of a device list, each a dictionary with a description,
    and their descriptions. *)
Definition described (items ds : list json) : Prop :=
  Forall2 (fun obj d =>
             exists kvs, obj = JObj kvs /\ assoc "description" kvs = Some d)
          items ds.

(** The constructor [new], called on the descriptions in turn, returned the
    devices [devs]. *)
Inductive built {Dev} (new : json -> M Dev)
  : list json -> World -> list Dev -> World -> Prop :=
| built_nil w : built new [] w [] w
| built_cons member rest w d w1 devs w2 :
    new member w = (Ok d, w1) ->
    built new rest w1 devs w2 ->
    built new (member :: rest) w (d :: devs) w2.

(** What [__devices] makes of an exception in its [try] block. *)
Definition swallowed {A} (dflt : A) (e : exn) : res A :=
  match e with
  | AttributeError => Ok dflt
  | _ => Raise e
  end.

(** ** Further example worlds *)

Definition cache_name : string := "ring_doorbell-session.cache".


(** An object made with [reuse_session=False]. *)
Definition private_ring : Ring :=
  mkRing None JNull None false "" 10 false "user" "pw" JNull None CacheGlobal
         cache_name false.

(** The post of [_authenticate] and the GET of the device list, with the
    access token [name] in the header. *)
Definition session_post (name : string) : request :=
  mkRequest POST "https://api.ring.com/clients_api/session" None
            (<["Authorization" := HBearer (JStr name)]>
               {["User-Agent" := HStr "android"]})
            (Some {["api_version" := JNum 9]}) JNull 10.

Definition listing_get (name : string) (p : gmap string json) : request :=
  mkRequest GET devices_url (Some p) (bearer name) None JNull 10.

(** A device list: one doorbell of the user, one shared with the user, a
    camera, and a chime whose entry has no description. *)
Definition own_doorbots : list (string * json) :=
  [("id", JNum 1); ("description", JStr "Front door")].

Definition doorbell_listing : response :=
  mkResponse 200
    (Some (JObj [("doorbots", JArr [JObj own_doorbots]);
                 ("authorized_doorbots",
                  JArr [JObj [("description", JStr "Neighbour")]]);
                 ("stickup_cams", JArr [JObj [("description", JStr "Yard")]]);
                 ("chimes", JArr [JObj [("id", JNum 7)]])])).

(** Devices as plain values: the class, the description and the argument
    [shared] of the constructor call. *)
Definition plain_device (class : string) (member : json)
    (shared : option bool) : M (string * json * option bool) :=
  ret (class, member, shared).

Definition plain_cam (member : json) := plain_device "cam" member None.
Definition plain_chime (member : json) := plain_device "chime" member None.
Definition plain_doorbell := plain_device "doorbell".

Definition no_attributes (d : string * json * option bool) : M unit := ret tt.

(** A server that refuses the first [n] requests of the query loop. *)
Definition refusing (n : nat) : Env :=
  scripted (repeat (status_only 500) n) created.

(** * Properties *)

(** ** The monad *)

Lemma bind_inv {A B} (m : M A) (k : A -> M B) w r w' :
  bind m k w = (r, w') ->
  (exists a w1, m w = (Ok a, w1) /\ k a w1 = (r, w')) \/
  (exists e, m w = (Raise e, w') /\ r = Raise e).
Proof.
  unfold bind. destruct (m w) as [[a|e] w1]; intros H.
  - left. eauto.
  - right. inversion H; subst. eauto.
Qed.

(** ** Runs only add events *)

Lemma since_app w w' l : trace w' = trace w ++ l -> since w w' = l.
Proof. unfold since. intros ->. by rewrite drop_app_length. Qed.

Lemma emits_ret {A} P (a : A) : emits P (ret a).
Proof.
  intros w r w' H. inversion H; subst. repeat split.
  exists []. by rewrite app_nil_r.
Qed.

Lemma emits_raise {A} P e : emits P (@raise A e).
Proof.
  intros w r w' H. inversion H; subst. repeat split.
  exists []. by rewrite app_nil_r.
Qed.

Lemma emits_bind {A B} P (m : M A) (k : A -> M B) :
  emits P m -> (forall a, emits P (k a)) -> emits P (bind m k).
Proof.
  intros Hm Hk w r w' H.
  destruct (bind_inv _ _ _ _ _ H) as [(a & w1 & H1 & H2)|(e & H1 & _)].
  - destruct (Hm _ _ _ H1) as (E1 & C1 & l1 & T1 & F1).
    destruct (Hk a _ _ _ H2) as (E2 & C2 & l2 & T2 & F2).
    repeat split; [congruence | congruence |].
    exists (l1 ++ l2). split.
    + rewrite T2, T1. by rewrite app_assoc.
    + by apply Forall_app.
  - exact (Hm _ _ _ H1).
Qed.

Lemma emits_weaken {A} (P Q : event -> Prop) (m : M A) :
  (forall e, P e -> Q e) -> emits P m -> emits Q m.
Proof.
  intros HPQ Hm w r w' H.
  destruct (Hm _ _ _ H) as (E & C & l & T & F).
  repeat split; [done | done |]. exists l. split; [done |].
  eapply Forall_impl; eauto.
Qed.

Lemma emits_silent {A} P (f : World -> A) (g : World -> World) :
  (forall w, env (g w) = env w) -> (forall w, const (g w) = const w) ->
  (forall w, trace (g w) = trace w) ->
  emits P (fun w => (Ok (f w), g w)).
Proof.
  intros He Hc Ht w r w' H. inversion H; subst. repeat split; [done | done |].
  exists []. by rewrite app_nil_r.
Qed.

Lemma emits_emit P e : P e -> emits P (emit e).
Proof.
  intros He w r w' H. inversion H; subst. repeat split.
  exists [e]. split; [done |]. by constructor.
Qed.

Lemma emits_of_answer {A} P (a : exn + A) e :
  P e -> emits P (fun w => of_answer a (log e w)).
Proof.
  intros He w r w' H. destruct a; inversion H; subst; repeat split;
    (exists [e]; split; [done | by constructor]).
Qed.

Lemma emits_when P b m : emits P m -> emits P (when b m).
Proof. destruct b; [done | intros _; apply emits_ret]. Qed.

Lemma emits_get_self P : emits P get_self.
Proof. by apply emits_silent. Qed.

Lemma emits_get_const P : emits P get_const.
Proof. by apply emits_silent. Qed.

Lemma emits_modify_self P f : emits P (modify_self f).
Proof. by apply emits_silent. Qed.

Lemma emits_getitem P v k : emits P (getitem v k).
Proof.
  destruct v; try apply emits_raise. simpl.
  destruct (assoc k kvs); [apply emits_ret | apply emits_raise].
Qed.

Lemma emits_dict_get P v k : emits P (dict_get v k).
Proof. destruct v; try apply emits_raise. apply emits_ret. Qed.

Lemma emits_timedelta_seconds P v : emits P (timedelta_seconds v).
Proof. destruct v; try apply emits_raise; apply emits_ret. Qed.

Lemma emits_resp_json P r : emits P (resp_json r).
Proof.
  unfold resp_json. destruct (body r); [apply emits_ret | apply emits_raise].
Qed.

Lemma emits_urlencode P p : emits P (urlencode p).
Proof. destruct p; [apply emits_ret | apply emits_raise]. Qed.

Lemma emits_map_getitem P d k : emits P (map_getitem d k).
Proof.
  unfold map_getitem. destruct (d !! k); [apply emits_ret | apply emits_raise].
Qed.

Lemma emits_now P : (forall t, P (EvNow t)) -> emits P now.
Proof.
  intros HP w r w' H. inversion H; subst. repeat split.
  eexists [_]. split; [done |]. by constructor.
Qed.

Lemma emits_fetch_token P cur u p :
  (forall a, P (EvFetchToken cur u p a)) -> emits P (fetch_token cur u p).
Proof. intros HP w. apply (emits_of_answer P _ _ (HP _) w). Qed.

Lemma emits_refresh_tokens P cur :
  (forall a, P (EvRefreshTokens cur a)) -> emits P (refresh_tokens cur).
Proof. intros HP w. apply (emits_of_answer P _ _ (HP _) w). Qed.

Lemma emits_send P s rq :
  (forall a, P (EvHttp s rq a)) -> emits P (send s rq).
Proof. intros HP w. apply (emits_of_answer P _ _ (HP _) w). Qed.

Lemma emits_cache_setitem P k v : emits P (cache_setitem k v).
Proof.
  intros w r w' H. unfold cache_setitem in H. inversion H; subst.
  destruct (cache (self w)); (repeat split; [exists []; by rewrite app_nil_r]).
Qed.

Lemma emits_get_cache P : emits P get_cache.
Proof. by apply emits_silent. Qed.

Lemma emits__save_cache P d f : P (EvSaveCache f d) -> emits P (_save_cache d f).
Proof.
  intros HP w r w' H. inversion H; subst. repeat split.
  eexists [_]. split; [done |]. by constructor.
Qed.

Lemma emits__exists_cache P f : emits P (_exists_cache f).
Proof. by apply emits_silent. Qed.

Lemma emits__read_cache P f : emits P (_read_cache f).
Proof. by apply emits_silent. Qed.

Create HintDb emits.
#[local] Hint Resolve emits_ret emits_raise emits_get_self emits_get_const
  emits_modify_self emits_getitem emits_dict_get emits_timedelta_seconds
  emits_resp_json emits_urlencode emits_map_getitem emits_cache_setitem
  emits_get_cache emits__exists_cache emits__read_cache emits_when : emits.

(** Breaks a computation into its statements. *)
Ltac emits_step :=
  match goal with
  | |- emits _ (bind _ _) => apply emits_bind; [| intros ?]
  | |- emits _ (if ?b then _ else _) => destruct b
  | |- emits _ (match ?x with _ => _ end) => destruct x
  | |- emits _ (when _ _) => apply emits_when
  | |- emits _ now => apply emits_now; intros; exact I
  | |- emits _ (sleep _) => apply emits_emit; exact I
  | |- emits _ (emit _) => apply emits_emit; exact I
  | |- emits _ (fetch_token _ _ _) => apply emits_fetch_token; intros; exact I
  | |- emits _ (refresh_tokens _) => apply emits_refresh_tokens; intros; exact I
  | |- emits _ (send _ _) => apply emits_send; intros; exact I
  | |- emits _ (_save_cache _ _) => apply emits__save_cache; exact I
  | |- emits _ (fun w => (Ok _, _)) => apply emits_silent; intros; reflexivity
  | |- emits _ _ => solve [auto with emits]
  end.

Lemma emits__get_oauth_token : emits is_token_event _get_oauth_token.
Proof. unfold _get_oauth_token. repeat emits_step. Qed.

Lemma is_token_inner e : is_token_event e -> is_inner e.
Proof. by destruct e. Qed.

Lemma is_inner_not_auth_call e : is_inner e -> not_auth_call e.
Proof. by destruct e. Qed.

Lemma emits_auth_success r h : emits is_inner (auth_success r h).
Proof.
  unfold auth_success, read_session_token, persist_push_token, save_session.
  repeat emits_step.
Qed.

Lemma emits_auth_loop n session wait url h req :
  emits is_inner (auth_loop n session wait url h req).
Proof.
  revert h req. induction n as [|n IH]; intros h req; simpl.
  - apply emits_ret.
  - apply emits_bind.
    { eapply emits_weaken; [apply is_token_inner | apply emits__get_oauth_token]. }
    intros tok. repeat first [apply IH | apply emits_auth_success | emits_step].
Qed.

(** ** What a computation leaves alone *)

Lemma preserves_ret {A X} (f : World -> X) (a : A) : preserves f (ret a).
Proof. intros w r w' H. by inversion H. Qed.

Lemma preserves_raise {A X} (f : World -> X) e : preserves f (@raise A e).
Proof. intros w r w' H. by inversion H. Qed.

Lemma preserves_bind {A B X} (f : World -> X) (m : M A) (k : A -> M B) :
  preserves f m -> (forall a, preserves f (k a)) -> preserves f (bind m k).
Proof.
  intros Hm Hk w r w' H.
  destruct (bind_inv _ _ _ _ _ H) as [(a & w1 & H1 & H2)|(e & H1 & _)].
  - rewrite (Hk _ _ _ _ H2). exact (Hm _ _ _ H1).
  - exact (Hm _ _ _ H1).
Qed.

Lemma preserves_update {A X} (f : World -> X) (a : World -> A)
    (g : World -> World) :
  (forall w, f (g w) = f w) -> preserves f (fun w => (Ok (a w), g w)).
Proof. intros Hg w r w' H. inversion H; subst. apply Hg. Qed.

Lemma preserves_of_answer {A X} (f : World -> X) (a : World -> exn + A)
    (g : World -> World) :
  (forall w, f (g w) = f w) -> preserves f (fun w => of_answer (a w) (g w)).
Proof.
  intros Hg w r w' H. destruct (a w); inversion H; subst; apply Hg.
Qed.

Lemma preserves_when {X} (f : World -> X) b m :
  preserves f m -> preserves f (when b m).
Proof. destruct b; [done | intros _; apply preserves_ret]. Qed.

Lemma preserves_getitem {X} (f : World -> X) v k : preserves f (getitem v k).
Proof.
  destruct v; try apply preserves_raise. simpl.
  destruct (assoc k kvs); [apply preserves_ret | apply preserves_raise].
Qed.

Lemma preserves_dict_get {X} (f : World -> X) v k : preserves f (dict_get v k).
Proof. destruct v; try apply preserves_raise. apply preserves_ret. Qed.

Lemma preserves_timedelta_seconds {X} (f : World -> X) v :
  preserves f (timedelta_seconds v).
Proof. destruct v; try apply preserves_raise; apply preserves_ret. Qed.

Lemma preserves_resp_json {X} (f : World -> X) r : preserves f (resp_json r).
Proof.
  unfold resp_json. destruct (body r); [apply preserves_ret | apply preserves_raise].
Qed.

Lemma preserves_urlencode {X} (f : World -> X) p : preserves f (urlencode p).
Proof. destruct p; [apply preserves_ret | apply preserves_raise]. Qed.

Lemma preserves_map_getitem {X} (f : World -> X) d k :
  preserves f (map_getitem d k).
Proof.
  unfold map_getitem. destruct (d !! k); [apply preserves_ret | apply preserves_raise].
Qed.

(** Breaks a computation into its statements; what remains are the
    assignments, to be checked against the observation. *)
Ltac preserves_step :=
  match goal with
  | |- preserves _ (bind _ _) => apply preserves_bind; [| intros ?]
  | |- preserves _ (ret _) => apply preserves_ret
  | |- preserves _ (raise _) => apply preserves_raise
  | |- preserves _ (when _ _) => apply preserves_when
  | |- preserves _ (getitem _ _) => apply preserves_getitem
  | |- preserves _ (dict_get _ _) => apply preserves_dict_get
  | |- preserves _ (timedelta_seconds _) => apply preserves_timedelta_seconds
  | |- preserves _ (resp_json _) => apply preserves_resp_json
  | |- preserves _ (urlencode _) => apply preserves_urlencode
  | |- preserves _ (map_getitem _ _) => apply preserves_map_getitem
  | |- preserves _ get_self => apply preserves_update; intros; reflexivity
  | |- preserves _ get_const => apply preserves_update; intros; reflexivity
  | |- preserves _ get_cache => apply preserves_update; intros; reflexivity
  | |- preserves _ (modify_self _) => apply preserves_update; intros; reflexivity
  | |- preserves _ (emit _) => apply preserves_update; intros; reflexivity
  | |- preserves _ (sleep _) => apply preserves_update; intros; reflexivity
  | |- preserves _ now => apply preserves_update; intros; reflexivity
  | |- preserves _ (fetch_token _ _ _) =>
      apply (preserves_of_answer _ _ (fun w => log _ w)); intros; reflexivity
  | |- preserves _ (refresh_tokens _) =>
      apply (preserves_of_answer _ _ (fun w => log _ w)); intros; reflexivity
  | |- preserves _ (send _ _) =>
      apply (preserves_of_answer _ _ (fun w => log _ w)); intros; reflexivity
  | |- preserves _ (fun w => (Ok _, _)) =>
      apply preserves_update; intros; reflexivity
  | |- preserves _ (if ?b then _ else _) => destruct b
  | |- preserves _ (match ?x with _ => _ end) => destruct x
  end.

Lemma _get_oauth_token_params :
  preserves (fun w => params (self w)) _get_oauth_token.
Proof. unfold _get_oauth_token. repeat preserves_step. Qed.

Lemma _get_oauth_token_config :
  preserves (fun w => config (self w)) _get_oauth_token.
Proof. unfold _get_oauth_token. repeat preserves_step. Qed.


(** ** _get_oauth_token *)






(** ** Reading exchanges off a trace *)

Lemma exchanges_app s l1 l2 :
  exchanges s (l1 ++ l2) = exchanges s l1 ++ exchanges s l2.
Proof.
  induction l1 as [|e l1 IH]; [done |].
  destruct e; simpl; try done. destruct (site_eqb s s0); simpl; by rewrite IH.
Qed.

Lemma auth_calls_app l1 l2 :
  auth_calls (l1 ++ l2) = auth_calls l1 ++ auth_calls l2.
Proof.
  induction l1 as [|e l1 IH]; [done |]. destruct e; simpl; by rewrite ?IH.
Qed.

Lemma exchanges_token s l : Forall is_token_event l -> exchanges s l = [].
Proof. induction 1 as [|e l He _ IH]; [done |]. by destruct e. Qed.

Lemma query_exchanges_inner l : Forall is_inner l -> query_exchanges l = [].
Proof.
  induction 1 as [|e l He _ IH]; [done |].
  destruct e as [[] | | | | | |]; done.
Qed.

Lemma auth_calls_inner l : Forall not_auth_call l -> auth_calls l = [].
Proof. induction 1 as [|e l He _ IH]; [done |]. by destruct e. Qed.

Lemma Forall_token_inner l : Forall is_token_event l -> Forall is_inner l.
Proof. intros H. eapply Forall_impl; [exact H | apply is_token_inner]. Qed.

Lemma Forall_inner_not_auth_call l : Forall is_inner l -> Forall not_auth_call l.
Proof.
  intros H. eapply Forall_impl; [exact H | apply is_inner_not_auth_call].
Qed.

(** Normalises nested appends. *)
Ltac list_assoc := repeat (rewrite <- ?app_assoc; simpl); rewrite ?app_nil_r.
Ltac list_assoc_in H := repeat (rewrite <- ?app_assoc in H; simpl in H).

(** ** Rewriting the statements of a computation *)

Lemma bind_get_self {B} (k : Ring -> M B) w : bind get_self k w = k (self w) w.
Proof. reflexivity. Qed.

Lemma bind_get_const {B} (k : Const -> M B) w :
  bind get_const k w = k (const w) w.
Proof. reflexivity. Qed.

Lemma bind_modify_self {B} f (k : unit -> M B) w :
  bind (modify_self f) k w = k tt (with_self f w).
Proof. reflexivity. Qed.

Lemma bind_emit {B} e (k : unit -> M B) w : bind (emit e) k w = k tt (log e w).
Proof. reflexivity. Qed.

Lemma bind_ret {A B} (a : A) (k : A -> M B) w : bind (ret a) k w = k a w.
Proof. reflexivity. Qed.

Lemma bind_send {B} s rq (k : response -> M B) w :
  bind (send s rq) k w =
  match http (env w) (trace w) s rq with
  | inr r => k r (log (EvHttp s rq (inr r)) w)
  | inl e => (Raise e, log (EvHttp s rq (inl e)) w)
  end.
Proof. unfold bind, send. by destruct (http (env w) (trace w) s rq). Qed.

(** ** _authenticate *)





Lemma emits_auth_success_after r h : emits after_success (auth_success r h).
Proof.
  unfold auth_success, read_session_token, persist_push_token, save_session.
  repeat emits_step.
Qed.

Lemma exchanges_after_success l :
  Forall after_success l -> exchanges AuthPost l = [].
Proof.
  induction 1 as [|e l He _ IH]; [done |].
  destruct e as [[] | | | | | |]; done.
Qed.


(** A call of [_authenticate] logs its entry and then only events of its
    own: no request of the query loop, no nested call. *)
Lemma _authenticate_trace attempts session wait w r w' :
  _authenticate attempts session wait w = (r, w') ->
  env w' = env w /\ const w' = const w /\
  exists l, trace w' = trace w ++ EvAuthenticate attempts session :: l /\
            Forall is_inner l.
Proof.
  unfold _authenticate. rewrite bind_emit, bind_get_const. intros H.
  assert (E : emits is_inner
            (x <- auth_loop (iterations attempts) session wait
                    (API_URI (const (log (EvAuthenticate attempts session) w)) ++
                     NEW_SESSION_ENDPOINT
                       (const (log (EvAuthenticate attempts session) w)))%string
                    (HEADERS (const (log (EvAuthenticate attempts session) w)))
                    None ;;
             match x with
             | Returned v => ret v
             | Exhausted req =>
                 run modify_self (set_is_connected (Some false)) ;;
                 run raise_for_status req ;;
                 ret true
             end)).
  { apply emits_bind; [apply emits_auth_loop |]. intros [v|req].
    - apply emits_ret.
    - repeat emits_step. unfold raise_for_status.
      destruct req as [r0|]; [destruct (is_error_status _) |]; auto with emits. }
  destruct (E _ _ _ H) as (He & Hc & l & T & F).
  repeat split; [done | done |]. exists l. split; [| done].
  rewrite T. simpl. by list_assoc.
Qed.

Lemma _authenticate_default_trace w r w' :
  _authenticate_default w = (r, w') ->
  env w' = env w /\ const w' = const w /\
  exists l, trace w' = trace w ++ EvAuthenticate (RETRY_TOKEN (const w)) None :: l /\
            Forall is_inner l.
Proof.
  unfold _authenticate_default. rewrite bind_get_const.
  apply _authenticate_trace.
Qed.




(** ** Traces of the query loop: list lemmas *)

Lemma emits__authenticate_default : emits (fun _ => True) _authenticate_default.
Proof.
  intros w r w' H.
  destruct (_authenticate_default_trace _ _ _ H) as (E & C & l & T & F).
  repeat split; [done | done |]. eexists. split; [exact T |].
  apply Forall_forall. done.
Qed.

(** ** Splitting a trace at an event *)

Lemma split_in_suffix (P : event -> Prop) x k1 k2 l1 l2 :
  Forall P k1 -> ~ P x ->
  l1 ++ x :: l2 = k1 ++ k2 ->
  exists l3, l1 = k1 ++ l3 /\ l3 ++ x :: l2 = k2.
Proof.
  intros HF Hx. revert l1. induction HF as [|y k1 Hy _ IH]; intros l1 E.
  - exists l1. done.
  - destruct l1 as [|z l1]; simpl in E.
    + inversion E; subst. done.
    + inversion E; subst. destruct (IH _ H1) as (l3 & -> & <-).
      exists l3. done.
Qed.

(** Merging [extra_params] touches [self.params] only. *)
Lemma with_merged_trace extra p w : trace (with_merged extra p w) = trace w.
Proof. unfold with_merged. by destruct (truthy_dict extra). Qed.

Lemma with_merged_const extra p w : const (with_merged extra p w) = const w.
Proof. unfold with_merged. by destruct (truthy_dict extra). Qed.

Lemma with_merged_params extra p w :
  params (self w) = Some p ->
  params (self (with_merged extra p w)) = Some (merged extra p).
Proof.
  unfold with_merged, merged. by destruct (truthy_dict extra).
Qed.

(** ** extra_params *)



(** ** Calls of [_authenticate] and the 401 before them *)

Lemma reauth_only_after_401_nil : reauth_only_after_401 [].
Proof. intros l1 a ses l2 E. by destruct l1. Qed.

Lemma reauth_only_after_401_quiet l :
  Forall not_auth_call l -> reauth_only_after_401 l.
Proof.
  intros HF l1 a ses l2 E. subst.
  apply Forall_app in HF as [_ HF]. by inversion HF.
Qed.

Lemma reauth_only_after_401_app_quiet k l :
  Forall not_auth_call k -> reauth_only_after_401 l ->
  reauth_only_after_401 (k ++ l).
Proof.
  intros HF Hl l1 a ses l2 E.
  destruct (split_in_suffix not_auth_call (EvAuthenticate a ses) _ _ _ _ HF
              (fun x => x) (eq_sym E))
    as (l3 & -> & E3).
  destruct (Hl _ _ _ _ (eq_sym E3)) as (l0 & rq & resp & -> & Hs).
  exists (k ++ l0), rq, resp. split; [by list_assoc | done].
Qed.

Lemma reauth_only_after_401_reauth rq resp a ses inner l :
  status_code resp = 401 ->
  Forall is_inner inner -> reauth_only_after_401 l ->
  reauth_only_after_401
    (EvHttp QueryReq rq (inr resp) :: EvAuthenticate a ses :: inner ++ l).
Proof.
  intros Hs HF Hl l1 a' ses' l2 E.
  destruct l1 as [|x l1]; [done |]. simpl in E. inversion E; subst. clear E.
  destruct l1 as [|y l1].
  - exists [], rq, resp. done.
  - simpl in H1. inversion H1; subst. clear H1.
    destruct (split_in_suffix not_auth_call (EvAuthenticate a' ses') _ _ _ _
                (Forall_inner_not_auth_call _ HF) (fun x => x) (eq_sym H2))
      as (l3 & -> & E3).
    destruct (Hl _ _ _ _ (eq_sym E3)) as (l0 & rq' & resp' & -> & Hs').
    exists (EvHttp QueryReq rq (inr resp) :: EvAuthenticate a ses :: inner ++ l0),
      rq', resp'.
    split; [by list_assoc | done].
Qed.

(** ** The exchanges of a trace *)

Lemma query_exchanges_proactive w pre l :
  Forall is_inner pre ->
  query_exchanges (proactive w ++ pre ++ l) = query_exchanges l.
Proof.
  intros F. rewrite !exchanges_app. rewrite (query_exchanges_inner _ F).
  unfold proactive. by destruct (_ && _).
Qed.

Lemma query_exchanges_not_query l :
  Forall not_query l -> query_exchanges l = [].
Proof.
  induction 1 as [|e l He _ IH]; [done |].
  by destruct e as [[] | | | | | |].
Qed.

Lemma Forall_inner_not_query l : Forall is_inner l -> Forall not_query l.
Proof.
  intros H. eapply Forall_impl; [exact H |]. by intros [[] | | | | | |].
Qed.


(** Computes the exchanges of a trace whose re-authentication parts are
    known to be inner events. *)
Ltac qx :=
  simpl; rewrite ?exchanges_app;
  repeat match goal with
         | F : Forall is_inner ?la |- _ =>
             rewrite (query_exchanges_inner la F)
         end; simpl.

Ltac qx_in H :=
  simpl in H; rewrite ?exchanges_app in H;
  repeat match goal with
         | F : Forall is_inner ?la |- _ =>
             rewrite (query_exchanges_inner la F) in H
         end; simpl in H.

(** ** The query loop

    One call of [query] fixes the URL, the method, [raw], the extra
    parameters, the JSON body, the timeout and the [Authorization] header
    of its loop. *)
Section QueryLoop.

Context (url : string) (m : method) (raw : bool)
        (extra : option (gmap string json)) (jb : json) (qt : Z)
        (hdr : gmap string hval).

Lemma query_loop_step n w r w' :
  query_loop (S n) url m raw extra jb qt hdr w = (r, w') ->
  (trace w' = trace w /\ (exists e, r = Raise e) /\
   (params (self w) = None \/ ~ known_method m)) \/
  exists p, params (self w) = Some p /\ known_method m /\
    let rq := query_request url m jb qt hdr (merged extra p) in
    let wp := with_merged extra p w in
    match http (env w) (trace w) QueryReq rq with
    | inl e => r = Raise e /\ w' = log (EvHttp QueryReq rq (inl e)) wp
    | inr resp =>
        let w1 := log (EvHttp QueryReq rq (inr resp)) wp in
        if status_code resp =? 401 then
          exists ra w2,
            _authenticate_default
              (with_self (set_is_connected (Some false)) w1) = (ra, w2) /\
            match ra with
            | Raise e => r = Raise e /\ w' = w2
            | Ok _ => query_loop n url m raw extra jb qt hdr w2 = (r, w')
            end
        else if (status_code resp =? 200) || (status_code resp =? 204) then
          r = query_result m raw resp /\ w' = w1
        else query_loop n url m raw extra jb qt hdr w1 = (r, w')
    end.
Proof.
  simpl. rewrite bind_get_self. intros H.
  destruct (params (self w)) as [p|] eqn:Hp.
  2:{ left. destruct (truthy_dict extra); simpl in H.
      - inversion H; subst. eauto.
      - rewrite bind_ret in H. destruct m; inversion H; subst; eauto. }
  assert (Hsend : forall (k : response -> M qval),
     known_method m ->
     bind (send QueryReq (query_request url m jb qt hdr (merged extra p))) k
          (with_merged extra p w) = (r, w') ->
     (forall resp w1, k resp w1 =
        (if status_code resp =? 401
         then run modify_self (set_is_connected (Some false)) ;;
              _ <- _authenticate_default ;;
              query_loop n url m raw extra jb qt hdr
         else if (status_code resp =? 200) || (status_code resp =? 204)
              then if raw then ret (QResp resp)
                   else if is_GET m then j <- resp_json resp ;; ret (QVal j)
                        else ret QNone
              else query_loop n url m raw extra jb qt hdr) w1) ->
     exists p0, Some p = Some p0 /\ known_method m /\
       let rq := query_request url m jb qt hdr (merged extra p0) in
       let wp := with_merged extra p0 w in
       match http (env w) (trace w) QueryReq rq with
       | inl e => r = Raise e /\ w' = log (EvHttp QueryReq rq (inl e)) wp
       | inr resp =>
           let w1 := log (EvHttp QueryReq rq (inr resp)) wp in
           if status_code resp =? 401 then
             exists ra w2,
               _authenticate_default
                 (with_self (set_is_connected (Some false)) w1) = (ra, w2) /\
               match ra with
               | Raise e => r = Raise e /\ w' = w2
               | Ok _ => query_loop n url m raw extra jb qt hdr w2 = (r, w')
               end
           else if (status_code resp =? 200) || (status_code resp =? 204) then
             r = query_result m raw resp /\ w' = w1
           else query_loop n url m raw extra jb qt hdr w1 = (r, w')
       end).
  { intros k Hm Hk Hcont. exists p. split; [done |]. split; [done |].
    rewrite bind_send in Hk.
    assert (Et : trace (with_merged extra p w) = trace w)
      by (unfold with_merged; by destruct (truthy_dict extra)).
    assert (Ee : env (with_merged extra p w) = env w)
      by (unfold with_merged; by destruct (truthy_dict extra)).
    rewrite Et, Ee in Hk. cbv zeta.
    destruct (http (env w) (trace w) QueryReq _) as [e|resp].
    - by inversion Hk.
    - rewrite Hcont in Hk. destruct (status_code resp =? 401).
      + rewrite bind_modify_self in Hk.
        apply bind_inv in Hk as [(b & w2 & Ha & Hk)|(e & Ha & ->)].
        * exists (Ok b), w2. done.
        * exists (Raise e), w'. done.
      + destruct ((status_code resp =? 200) || (status_code resp =? 204)); [| done].
        unfold query_result. destruct raw; [by inversion Hk |].
        destruct (is_GET m); [| by inversion Hk].
        unfold resp_json in Hk. destruct (body resp); by inversion Hk. }
  assert (Hmerge : forall (k : option (gmap string json) -> M qval),
     bind (if truthy_dict extra
           then run modify_self (set_params (Some (default ∅ extra ∪ p))) ;;
                ret (Some (default ∅ extra ∪ p))
           else ret (Some p)) k w
     = k (Some (merged extra p)) (with_merged extra p w)).
  { intros k. unfold with_merged, merged. by destruct (truthy_dict extra). }
  rewrite Hmerge in H. clear Hmerge.
  destruct m as [| | |name].
  - right. eapply Hsend; [done | exact H | reflexivity].
  - right. eapply Hsend; [done | exact H | reflexivity].
  - right. eapply Hsend; [done | exact H | reflexivity].
  - left. inversion H; subst. split; [| split; [eauto | right; tauto]].
    unfold with_merged. by destruct (truthy_dict extra).
Qed.

Lemma emits_query_loop n :
  emits (fun _ => True) (query_loop n url m raw extra jb qt hdr).
Proof.
  induction n as [|n IH]; simpl; [apply emits_ret |].
  repeat first [apply IH | apply emits__authenticate_default | emits_step].
Qed.

Lemma query_loop_run n w r w' :
  query_loop n url m raw extra jb qt hdr w = (r, w') ->
  exists l, trace w' = trace w ++ l /\
            loop_run url m raw extra jb qt hdr n w l r w'.
Proof.
  revert w. induction n as [|n IH]; intros w H.
  - inversion H; subst. exists []. rewrite app_nil_r. split; [done | constructor].
  - apply query_loop_step in H as [(T & [e ->] & Hwhy)|(p & Hp & Hm & H)].
    { exists []. rewrite app_nil_r. split; [done | by constructor]. }
    cbv zeta in H.
    destruct (http (env w) (trace w) QueryReq _) as [e|resp] eqn:Hh.
    { destruct H as [-> ->]. eexists [_]. simpl. rewrite with_merged_trace.
      split; [done |]. by apply run_transport. }
    destruct (status_code resp =? 401) eqn:H401.
    + destruct H as (ra & w2 & Ha & H).
      destruct (_authenticate_default_trace _ _ _ Ha) as (_ & _ & la & Ta & Fa).
      simpl in Ta. rewrite with_merged_const in Ta.
      destruct ra as [b|e].
      * destruct (IH _ H) as (l & T & Hl).
        pose proof Ta as Ta'. rewrite with_merged_trace in Ta'.
        rewrite Ta' in T. list_assoc_in T.
        eexists. split; [exact T |].
        eapply run_reauth; eauto. lia.
      * destruct H as [-> ->].
        pose proof Ta as Ta'. rewrite with_merged_trace in Ta'.
        list_assoc_in Ta'.
        eexists. split; [exact Ta' |].
        eapply run_reauth_raises; eauto. lia.
    + destruct ((status_code resp =? 200) || (status_code resp =? 204)) eqn:H2.
      * destruct H as [-> ->]. eexists [_]. simpl. rewrite with_merged_trace.
        split; [done |]. apply run_break; [done | done | done | lia | lia].
      * destruct (IH _ H) as (l & T & Hl). simpl in T.
        rewrite with_merged_trace in T. list_assoc_in T.
        eexists. split; [exact T |].
        eapply run_again; eauto; lia.
Qed.

Lemma query_loop_reauth n w r w' :
  query_loop n url m raw extra jb qt hdr w = (r, w') ->
  exists l, trace w' = trace w ++ l /\ reauth_only_after_401 l.
Proof.
  revert w. induction n as [|n IH]; intros w H.
  - inversion H; subst. exists []. rewrite app_nil_r.
    split; [done | apply reauth_only_after_401_nil].
  - apply query_loop_step in H as [[T _]|(p & Hp & Hm & H)].
    { exists []. rewrite app_nil_r. split; [done | apply reauth_only_after_401_nil]. }
    cbv zeta in H.
    destruct (http (env w) (trace w) QueryReq _) as [e|resp].
    { destruct H as [-> ->]. eexists [_]. simpl. rewrite with_merged_trace.
      split; [done |]. apply reauth_only_after_401_quiet. by repeat constructor. }
    destruct (status_code resp =? 401) eqn:H401.
    + destruct H as (ra & w2 & Ha & H).
      destruct (_authenticate_default_trace _ _ _ Ha) as (_ & _ & la & Ta & Fa).
      simpl in Ta. rewrite with_merged_trace in Ta.
      destruct ra as [b|e].
      * destruct (IH _ H) as (l & T & Hl).
        rewrite Ta in T. list_assoc_in T.
        eexists. split; [exact T |].
        apply reauth_only_after_401_reauth; [lia | done | done].
      * destruct H as [-> ->]. list_assoc_in Ta.
        eexists. split; [exact Ta |].
        rewrite <- (app_nil_r la).
        apply reauth_only_after_401_reauth;
          [lia | done | apply reauth_only_after_401_nil].
    + destruct ((status_code resp =? 200) || (status_code resp =? 204)).
      * destruct H as [-> ->]. eexists [_]. simpl. rewrite with_merged_trace.
        split; [done |]. apply reauth_only_after_401_quiet. by repeat constructor.
      * destruct (IH _ H) as (l & T & Hl). simpl in T.
        rewrite with_merged_trace in T.
        exists (EvHttp QueryReq
                  (query_request url m jb qt hdr (merged extra p)) (inr resp) :: l).
        split; [rewrite T; by list_assoc |].
        apply (reauth_only_after_401_app_quiet [_]); [by repeat constructor | done].
Qed.


Lemma loop_run_nil_inv n w r w' :
  loop_run url m raw extra jb qt hdr n w [] r w' ->
  (n = O /\ w' = w /\ r = Ok QNone) \/
  (params (self w) = None \/ ~ known_method m).
Proof. inversion 1; subst; eauto. Qed.

Lemma loop_run_quiet_nil n w l r w' :
  loop_run url m raw extra jb qt hdr n w l r w' ->
  query_exchanges l = [] -> l = [].
Proof. by inversion 1. Qed.

Lemma loop_run_cons n w ev l r w' :
  loop_run url m raw extra jb qt hdr n w (ev :: l) r w' ->
  exists p ans,
    params (self w) = Some p /\
    ev = EvHttp QueryReq (query_request url m jb qt hdr (merged extra p)) ans.
Proof. inversion 1; subst; eauto. Qed.


(** A 200 or 204 answer ends the loop and decides the result. *)
Lemma loop_run_final n w l r w' :
  loop_run url m raw extra jb qt hdr n w l r w' ->
  forall rq resp,
    In (rq, inr resp) (query_exchanges l) ->
    status_code resp = 200 \/ status_code resp = 204 ->
    r = query_result m raw resp.
Proof.
  induction 1; intros rq0 resp0 Hin Hs; qx_in Hin.
  - done.
  - done.
  - destruct Hin as [Hin|[]]. by inversion Hin.
  - destruct Hin as [Hin|[]]. by inversion Hin.
  - destruct Hin as [Hin|Hin]; [inversion Hin; subst; lia | eauto].
  - destruct Hin as [Hin|[]]. inversion Hin; subst; lia.
  - destruct Hin as [Hin|Hin]; [inversion Hin; subst; lia | eauto].
Qed.

(** The first request of the loop answered 200: the loop is over. *)
Lemma loop_run_first_200 n w l r w' rq resp rest :
  loop_run url m raw extra jb qt hdr n w l r w' ->
  query_exchanges l = (rq, inr resp) :: rest ->
  status_code resp = 200 ->
  l = [EvHttp QueryReq rq (inr resp)] /\ rest = [] /\
  r = query_result m raw resp /\ (0 < n)%nat /\
  trace w' = trace w ++ l.
Proof.
  inversion 1; subst; simpl; intros E Hs; try done;
    injection E as <- <- <-; try lia.
  repeat split; [lia | by rewrite with_merged_trace].
Qed.

(** With every iteration answered by a status that is not 200, 204 or 401
    the loop runs until its test fails, and the result is [None]. *)
Lemma loop_run_other n w l r w' :
  loop_run url m raw extra jb qt hdr n w l r w' ->
  query_exchanges l <> [] ->
  Forall (answered other_status) (query_exchanges l) ->
  r = Ok QNone /\ length (query_exchanges l) = n.
Proof.
  induction 1 as
    [ w | n w e w' T Hwhy | n w p e Hp Hm rq Hh
    | n w p resp Hp Hm rq Hh Hne Hs
    | n w p resp l r w' Hp Hm rq Hh Hne H200 H204 Hrun IH
    | n w p resp la e w2 Hp Hm rq Hh H401 w1 Ha Ta Fa
    | n w p resp la b w2 l r w' Hp Hm rq Hh H401 w1 Ha Ta Fa Hrun IH ];
    intros Hsent HF; qx_in Hsent; qx_in HF; try done.
  - inversion HF as [|? ? (r0 & Hr0 & _) _]. done.
  - inversion HF as [|? ? (r0 & Hr0 & Hs') _]. simpl in Hr0.
    inversion Hr0; subst. unfold other_status in Hs'. lia.
  - inversion HF; subst. qx.
    destruct (query_exchanges l) as [|x xs] eqn:Hx.
    + pose proof (loop_run_quiet_nil _ _ _ _ _ Hrun Hx) as ->.
      apply loop_run_nil_inv in Hrun as [(-> & _ & ->)|[Hnone|Hno]];
        [done | | done].
      simpl in Hnone. by rewrite (with_merged_params _ _ _ Hp) in Hnone.
    + destruct IH as [-> <-]; done.
  - inversion HF as [|? ? (r0 & Hr0 & Hs') _]. simpl in Hr0.
    inversion Hr0; subst. unfold other_status in Hs'. lia.
  - inversion HF as [|? ? (r0 & Hr0 & Hs') _]. simpl in Hr0.
    inversion Hr0; subst. unfold other_status in Hs'. lia.
Qed.

(** When the loop runs out without a 200 or 204, the result is [None],
    unless the last answer was a 401 and the re-authentication it started
    raised: then that exception is the result. *)
Lemma loop_run_exhausted n w l r w' :
  loop_run url m raw extra jb qt hdr n w l r w' ->
  length (query_exchanges l) = n ->
  Forall (answered not_final) (query_exchanges l) ->
  r = Ok QNone \/
  exists rq resp w1 e,
    last (query_exchanges l) = Some (rq, inr resp) /\
    status_code resp = 401 /\
    _authenticate_default w1 = (Raise e, w') /\
    is_connected (self w1) = Some false /\
    r = Raise e.
Proof.
  induction 1; intros Hlen HF; qx_in Hlen; qx_in HF.
  - by left.
  - done.
  - inversion HF as [|? ? (r0 & Hr0 & _) _]. done.
  - inversion HF as [|? ? (r0 & Hr0 & Hs) _]. simpl in Hr0.
    inversion Hr0; subst. unfold not_final in Hs. lia.
  - inversion HF; subst.
    destruct IHloop_run as [->|(rq' & resp' & w1 & e & Hl & Hs & Ha & Hc & ->)];
      [lia | done | by left |].
    right. exists rq', resp', w1, e. split; [| done].
    qx. rewrite last_cons. by rewrite Hl.
  - right. eexists rq, resp, _, e. split; [| split; [done | split; [exact H3 |done]]].
    qx. done.
  - inversion HF; subst.
    destruct IHloop_run as [->|(rq' & resp' & w1' & e & Hl & Hs & Ha & Hc & ->)];
      [lia | done | by left |].
    right. exists rq', resp', w1', e. split; [| done].
    qx. rewrite last_cons. by rewrite Hl.
Qed.




End QueryLoop.

(** ** A query call: what precedes the loop, then a run of the loop *)

Lemma emits_query url attempts m raw extra jb timeout :
  emits (fun _ => True) (query url attempts m raw extra jb timeout).
Proof.
  unfold query.
  repeat first [apply emits_query_loop | apply emits__authenticate_default
               | (eapply emits_weaken; [| apply emits__get_oauth_token]; done)
               | emits_step].
Qed.

Lemma query_run url attempts m raw extra jb timeout w r w' :
  query url attempts m raw extra jb timeout w = (r, w') ->
  exists pre l,
    since w w' = proactive w ++ pre ++ l /\ Forall is_inner pre /\
    (proactive w = [] -> Forall is_token_event pre) /\
    ((l = [] /\ exists e, r = Raise e) \/
     exists w0 tok,
       trace w0 = trace w ++ proactive w ++ pre /\ const w0 = const w /\
       (proactive w = [] -> params (self w0) = params (self w)) /\
       loop_run url m raw extra jb (default (_timeout (self w)) timeout)
         {["Authorization" := HBearer tok]} (iterations attempts) w0 l r w').
Proof.
  unfold query, proactive. rewrite bind_get_self. intros H.
  assert (Hloop : forall w0 pre0,
            trace w0 = trace w ++ pre0 -> const w0 = const w ->
            (tok <- _get_oauth_token ;;
             query_loop (iterations attempts) url m raw extra jb
               (default (_timeout (self w)) timeout)
               {["Authorization" := HBearer tok]}) w0 = (r, w') ->
            exists lt l,
              trace w' = trace w ++ pre0 ++ lt ++ l /\ Forall is_token_event lt /\
              ((l = [] /\ exists e, r = Raise e) \/
               exists w1 tok,
                 trace w1 = trace w ++ pre0 ++ lt /\ const w1 = const w /\
                 params (self w1) = params (self w0) /\
                 loop_run url m raw extra jb (default (_timeout (self w)) timeout)
                   {["Authorization" := HBearer tok]} (iterations attempts)
                   w1 l r w')).
  { intros w0 pre0 T0 C0 Hk.
    apply bind_inv in Hk as [(tok & w1 & Ht & Hk)|(e & Ht & ->)].
    - destruct (emits__get_oauth_token _ _ _ Ht) as (_ & C1 & lt & T1 & F1).
      destruct (query_loop_run _ _ _ _ _ _ _ _ _ _ _ Hk) as (l & T & Hr).
      exists lt, l. split; [rewrite T, T1, T0; by list_assoc |].
      split; [done |]. right. exists w1, tok.
      split; [rewrite T1, T0; by list_assoc |]. split; [congruence |].
      split; [exact (_get_oauth_token_params _ _ _ Ht) | done].
    - destruct (emits__get_oauth_token _ _ _ Ht) as (_ & C1 & lt & T1 & F1).
      exists lt, []. split; [rewrite T1, T0; by list_assoc |].
      split; [done |]. left. eauto. }
  destruct (debug (self w) && not_connected (is_connected (self w))); simpl in H.
  - apply bind_inv in H as [(u & w1 & Ha & H)|(e & Ha & ->)].
    + apply bind_inv in Ha as [(b & w0 & Ha & Hr)|(e & Ha & ?)]; [| done].
      inversion Hr; subst. clear Hr.
      destruct (_authenticate_default_trace _ _ _ Ha) as (_ & Ca & la & Ta & Fa).
      destruct (Hloop w1 (EvAuthenticate (RETRY_TOKEN (const w)) None :: la))
        as (lt & l & T & Ft & Hcase); [done | done | done |].
      exists (la ++ lt), l. split.
      { apply since_app. rewrite T. by list_assoc. }
      split; [apply Forall_app; split; [done | by apply Forall_token_inner] |].
      split; [done |].
      destruct Hcase as [?|(w2 & tok & T2 & C2 & _ & Hr)]; [by left | right].
      exists w2, tok. split; [rewrite T2; by list_assoc |].
      split; [done |]. split; [done | done].
    + apply bind_inv in Ha as [(b & w0 & Ha & Hr)|(e' & Ha & ?)]; [done |].
      destruct (_authenticate_default_trace _ _ _ Ha) as (_ & Ca & la & Ta & Fa).
      exists la, []. split.
      { apply since_app. rewrite Ta. by list_assoc. }
      split; [done |]. split; [done |]. left. eauto.
  - rewrite bind_ret in H.
    destruct (Hloop w []) as (lt & l & T & Ft & Hcase);
      [by rewrite app_nil_r | done | done |].
    exists lt, l. split; [apply since_app; rewrite T; by list_assoc |].
    split; [by apply Forall_token_inner |]. split; [done |].
    destruct Hcase as [?|(w2 & tok & T2 & C2 & P2 & Hr)]; [by left | right].
    exists w2, tok. split; [rewrite T2; by list_assoc |].
    split; [done |]. split; [done | done].
Qed.

(** C10: for a query call made while the session is not connected, the
    call of [_authenticate] before the first request happens in debug mode
    and only then; without debug mode every call of [_authenticate] during
    the query comes right after a 401 answer to a request of the loop. *)
Theorem query_proactive_reauth_needs_debug
    url attempts m raw extra jb timeout w r w' :
  query url attempts m raw extra jb timeout w = (r, w') ->
  not_connected (is_connected (self w)) = true ->
  (debug (self w) = false -> reauth_only_after_401 (since w w')) /\
  (debug (self w) = true ->
   exists l, since w w' = EvAuthenticate (RETRY_TOKEN (const w)) None :: l).
Proof.
  unfold query. rewrite bind_get_self. intros H Hnc. rewrite Hnc in H.
  split; intros Hd; rewrite Hd in H; simpl in H.
  - rewrite bind_ret in H.
    apply bind_inv in H as [(tok & w1 & Ht & H)|(e & Ht & ->)].
    + destruct (emits__get_oauth_token _ _ _ Ht) as (_ & _ & l0 & T0 & F0).
      destruct (query_loop_reauth _ _ _ _ _ _ _ _ _ _ _ H) as (l & T & Hl).
      rewrite (since_app w w' (l0 ++ l)) by (rewrite T, T0; by list_assoc).
      apply reauth_only_after_401_app_quiet; [| done].
      apply Forall_inner_not_auth_call, Forall_token_inner, F0.
    + destruct (emits__get_oauth_token _ _ _ Ht) as (_ & _ & l0 & T0 & F0).
      rewrite (since_app w w' l0) by done.
      apply reauth_only_after_401_quiet.
      apply Forall_inner_not_auth_call, Forall_token_inner, F0.
  - apply bind_inv in H as [(u & w1 & Ha & H)|(e & Ha & ->)].
    + apply bind_inv in Ha as [(b & w0 & Ha & Hr)|(e & Ha & ?)]; [| done].
      inversion Hr; subst. clear Hr.
      destruct (_authenticate_default_trace _ _ _ Ha) as (_ & _ & la & Ta & _).
      assert (E : emits (fun _ => True)
                (tok <- _get_oauth_token ;;
                 query_loop (iterations attempts) url m raw extra jb
                   (default (_timeout (self w)) timeout)
                   {["Authorization" := HBearer tok]})).
      { apply emits_bind; [| intros; apply emits_query_loop].
        eapply emits_weaken; [| apply emits__get_oauth_token]. done. }
      destruct (E _ _ _ H) as (_ & _ & l & T & _).
      rewrite Ta in T. list_assoc_in T.
      eexists. apply since_app. exact T.
    + apply bind_inv in Ha as [(b & w0 & Ha & Hr)|(e' & Ha & ?)]; [done |].
      destruct (_authenticate_default_trace _ _ _ Ha) as (_ & _ & la & Ta & _).
      eexists. apply since_app. exact Ta.
Qed.

(** C5: in a query call without [raw], a response with status 200 makes a
    GET return the decoded body of that response, and makes a POST or a
    PUT return [None] whatever the body is, not even a JSON document. *)
Theorem query_decodes_json_for_get_only
    url attempts m extra jb timeout w r w' rq resp :
  query url attempts m false extra jb timeout w = (r, w') ->
  In (rq, inr resp) (query_exchanges (since w w')) ->
  status_code resp = 200 ->
  (m = GET -> forall j, body resp = Some j -> r = Ok (QVal j)) /\
  (m = POST \/ m = PUT -> r = Ok QNone).
Proof.
  intros H Hin Hs.
  destruct (query_run _ _ _ _ _ _ _ _ _ _ H) as (pre & l & E & Fp & _ & Hcase).
  rewrite E, query_exchanges_proactive in Hin by done.
  destruct Hcase as [[-> _]|(w0 & tok & _ & _ & _ & Hr)]; [done |].
  pose proof (loop_run_final _ _ _ _ _ _ _ _ _ _ _ _ Hr _ _ Hin (or_introl Hs))
    as ->.
  unfold query_result. split.
  - intros -> j ->. done.
  - by intros [-> | ->].
Qed.

(** C4: a query call that sent a request and whose requests were all
    answered, by statuses other than 200, 204 and 401, returns [None]
    (after [attempts + 1] requests); one that used up its budget without a
    200 or 204 returns [None] too, the one exception being a failure of the
    re-authentication started by a 401 in the last iteration, which is
    raised to the caller as authentication failures are. *)
Theorem query_soft_failure url attempts m raw extra jb timeout w r w' :
  query url attempts m raw extra jb timeout w = (r, w') ->
  (query_exchanges (since w w') <> [] ->
   Forall (answered other_status) (query_exchanges (since w w')) ->
   r = Ok QNone /\
   length (query_exchanges (since w w')) = iterations attempts) /\
  (0 <= attempts ->
   length (query_exchanges (since w w')) = iterations attempts ->
   Forall (answered not_final) (query_exchanges (since w w')) ->
   r = Ok QNone \/
   exists rq resp w1 e,
     last (query_exchanges (since w w')) = Some (rq, inr resp) /\
     status_code resp = 401 /\
     _authenticate_default w1 = (Raise e, w') /\
     is_connected (self w1) = Some false /\
     r = Raise e).
Proof.
  intros H.
  destruct (query_run _ _ _ _ _ _ _ _ _ _ H) as (pre & l & E & Fp & _ & Hcase).
  rewrite E, query_exchanges_proactive in * by done.
  destruct Hcase as [[-> _]|(w0 & tok & _ & _ & _ & Hr)].
  { split; [done |]. intros Hatt Hlen. simpl in Hlen.
    unfold iterations in Hlen. lia. }
  split.
  - intros Hsent HF.
    exact (loop_run_other _ _ _ _ _ _ _ _ _ _ _ _ Hr Hsent HF).
  - intros _ Hlen HF.
    exact (loop_run_exhausted _ _ _ _ _ _ _ _ _ _ _ _ Hr Hlen HF).
Qed.


(** ** The query loop on example servers *)



(** Two answers 500 with [attempts = 1]: the result is [None]. *)
Lemma query_soft_failure_witness :
  fst (query devices_url 1 GET false None JNull None
         (world_of (live_ring false)
            (scripted [status_only 500; status_only 500] created) ∅))
  = Ok QNone.
Proof.
  pose (w := world_of (live_ring false)
               (scripted [status_only 500; status_only 500] created) ∅).
  destruct (query_soft_failure devices_url 1 GET false None JNull None
              w (fst (query devices_url 1 GET false None JNull None w))
              (snd (query devices_url 1 GET false None JNull None w)))
    as [Hother _].
  - apply surjective_pairing.
  - apply Hother.
    + vm_compute. discriminate.
    + vm_compute.
      repeat constructor; eexists; (split; [reflexivity |]);
        repeat split; discriminate.
Defined.

(** A GET answered 200 returns the device list. *)
Lemma query_decodes_json_witness :
  fst (query devices_url 1 GET false None JNull None
         (world_of (live_ring false) (scripted [devices] created) ∅))
  = Ok (QVal (JObj [("doorbots", JArr []); ("chimes", JArr [])])).
Proof.
  pose (w := world_of (live_ring false) (scripted [devices] created) ∅).
  destruct (query_decodes_json_for_get_only devices_url 1 GET None JNull None
              w (fst (query devices_url 1 GET false None JNull None w))
              (snd (query devices_url 1 GET false None JNull None w))
              (query_request devices_url GET JNull 10 (bearer "first") live_params)
              devices)
    as [Hget _].
  - by destruct (query devices_url 1 GET false None JNull None w).
  - vm_compute. left. reflexivity.
  - reflexivity.
  - by apply Hget.
Defined.

(** The same exchange with POST returns [None]. *)
Example query_post_returns_none :
  fst (query devices_url 1 POST false None JNull None
         (world_of (live_ring false) (scripted [devices] created) ∅))
  = Ok QNone.
Proof. vm_compute. reflexivity. Qed.

(** Not connected and no debug mode: the only call of [_authenticate]
    follows the 401. *)
Lemma query_proactive_reauth_witness :
  reauth_only_after_401
    (since (world_of (stale_ring false)
              (scripted [status_only 401; devices] created) ∅)
       (snd (query devices_url 1 GET false None JNull None
               (world_of (stale_ring false)
                  (scripted [status_only 401; devices] created) ∅)))).
Proof.
  pose (w := world_of (stale_ring false)
               (scripted [status_only 401; devices] created) ∅).
  destruct (query_proactive_reauth_needs_debug devices_url 1 GET false None
              JNull None w
              (fst (query devices_url 1 GET false None JNull None w))
              (snd (query devices_url 1 GET false None JNull None w)))
    as [Hquiet _].
  - by destruct (query devices_url 1 GET false None JNull None w).
  - reflexivity.
  - apply Hquiet. reflexivity.
Defined.




(** ** Construction and the cached session *)

Lemma Ring__init___initialised user pw dbg persist url reuse file timeout w :
  Ring__init__ user pw dbg persist url reuse file timeout w =
  (if reuse then _process_cached_session else full_authentication)
    (initialised user pw dbg persist url reuse file timeout w).
Proof. unfold Ring__init__. by destruct reuse. Qed.





(** ** Saving the session and finding it again *)

Lemma read_session_token_frame r :
  preserves (fun w => config (self w)) (read_session_token r).
Proof. unfold read_session_token. repeat preserves_step. Qed.

Lemma persist_push_token_self h :
  preserves (fun w => self w) (persist_push_token h).
Proof. unfold persist_push_token. repeat preserves_step. Qed.

Lemma config_fields r1 r2 :
  config r1 = config r2 ->
  username r1 = username r2 /\ cache_file r1 = cache_file r2 /\
  _reuse_session r1 = _reuse_session r2 /\ debug r1 = debug r2.
Proof. unfold config. intros H. by inversion H. Qed.

Lemma read_session_token_other r w u w' :
  read_session_token r w = (u, w') -> status_code r <> 201 -> w' = w.
Proof.
  unfold read_session_token. intros H Hs.
  destruct (Z.eqb_spec (status_code r) 201); [done |]. by inversion H.
Qed.

Lemma save_session_saves w r w' :
  save_session w = (r, w') ->
  r = Ok tt /\
  is_connected (self w') = is_connected (self w) /\
  token (self w') = token (self w) /\
  config (self w') = config (self w) /\
  (_reuse_session (self w) = true ->
   exists d, files w' !! cache_file (self w) = Some d /\
             d !! "account" = Some (JStr (username (self w))) /\
             d !! "token" = Some (token (self w))).
Proof.
  unfold save_session. rewrite bind_get_self.
  destruct (_reuse_session (self w)) eqn:Hr; simpl; intros H.
  - destruct w as [s tr en co fs ca pd]. destruct s as [? ? ? ? ? ? ? ? ? ? ? c ? ?].
    unfold bind, cache_setitem, get_cache, _save_cache in H.
    destruct c as [|d0]; simpl in H; inversion H; subst; simpl;
      (split; [done |]); (split; [done |]); (split; [done |]);
      (split; [done |]); intros _; eexists;
      (split; [apply lookup_insert_eq |]);
      (split; [by rewrite !lookup_insert_ne, lookup_insert_eq by done
              | by rewrite lookup_insert_ne, lookup_insert_eq by done]).
  - inversion H; subst. repeat split; done.
Qed.

(** What a completed success branch leaves. *)
Lemma auth_success_ok r h w x w' :
  auth_success r h w = (Ok x, w') ->
  x = Returned true /\
  is_connected (self w') = Some true /\
  (status_code r <> 201 -> token (self w') = token (self w)) /\
  (_reuse_session (self w) = true ->
   exists d, files w' !! cache_file (self w) = Some d /\
             d !! "account" = Some (JStr (username (self w))) /\
             d !! "token" = Some (token (self w'))).
Proof.
  unfold auth_success. intros H.
  apply bind_inv in H as [(u1 & w1 & H1 & H)|(e & _ & ?)]; [| done].
  rewrite bind_modify_self, bind_get_const, bind_get_self, bind_modify_self in H.
  apply bind_inv in H as [(u2 & w2 & H2 & H)|(e & _ & ?)]; [| done].
  apply bind_inv in H as [(u3 & w3 & H3 & H)|(e & _ & ?)]; [| done].
  inversion H; subst. clear H.
  pose proof (read_session_token_frame _ _ _ _ H1) as Fk. simpl in Fk.
  pose proof (persist_push_token_self _ _ _ _ H2) as Fs. simpl in Fs.
  destruct (save_session_saves _ _ _ H3) as (_ & Sc & St & Sk & Ss).
  split; [done |]. split; [by rewrite Sc, Fs |]. split.
  - intros Hs. rewrite St, Fs. simpl.
    by rewrite (read_session_token_other _ _ _ _ H1 Hs).
  - intros Hr.
    assert (Hk2 : config (self w2) = config (self w)) by (by rewrite Fs).
    destruct (config_fields _ _ Hk2) as (Hu & Hf & Hre & _).
    rewrite Hre in Ss. destruct (Ss Hr) as (d & Hd & Ha & Ht).
    exists d. rewrite <- Hf, <- Hu, St. done.
Qed.

Lemma auth_loop_returned n ses wt url h req w v w' :
  auth_loop n ses wt url h req w = (Ok (Returned v), w') ->
  exists w1 r h',
    config (self w1) = config (self w) /\
    auth_success r h' w1 = (Ok (Returned v), w').
Proof.
  revert h req w. induction n as [|n IH]; intros h req w H; [by inversion H |].
  simpl in H.
  apply bind_inv in H as [(tok & w1 & Ht & H)|(e & _ & ?)]; [| done].
  pose proof (_get_oauth_token_config _ _ _ Ht) as C1. simpl in C1.
  rewrite bind_get_const, bind_get_self in H.
  assert (Hstep : forall r w2,
            config (self w2) = config (self w) ->
            (if negb (ok r)
             then run sleep wt ;;
                  auth_loop n ses wt url (<["Authorization" := HBearer tok]> h)
                            (Some r)
             else if (status_code r =? 200) || (status_code r =? 201)
                  then auth_success r (<["Authorization" := HBearer tok]> h)
                  else auth_loop n ses wt url
                         (<["Authorization" := HBearer tok]> h) (Some r)) w2
            = (Ok (Returned v), w') ->
            exists w1 r h',
              config (self w1) = config (self w) /\
              auth_success r h' w1 = (Ok (Returned v), w')).
  { intros r w2 C2 Hk. destruct (negb (ok r)).
    - unfold sleep in Hk. rewrite bind_emit in Hk.
      destruct (IH _ _ _ Hk) as (w3 & r3 & h3 & C3 & H3).
      exists w3, r3, h3. split; [by rewrite C3 | done].
    - destruct ((status_code r =? 200) || (status_code r =? 201)).
      + exists w2, r, (<["Authorization" := HBearer tok]> h). done.
      + destruct (IH _ _ _ Hk) as (w3 & r3 & h3 & C3 & H3).
        exists w3, r3, h3. split; [by rewrite C3 | done]. }
  destruct ses as [s|].
  - rewrite bind_ret in H. eapply Hstep; [| exact H]. exact C1.
  - rewrite bind_send in H.
    destruct (http (env w1) (trace w1) AuthPost _) as [e|r]; [done |].
    eapply Hstep; [| exact H]. exact C1.
Qed.

(** A call of [_authenticate] that returns with the session connected has
    saved the cache record of the session. *)
Lemma _authenticate_saves a ses wt w0 b w1 :
  _authenticate a ses wt w0 = (Ok b, w1) ->
  is_connected (self w1) = Some true ->
  _reuse_session (self w0) = true ->
  exists d, files w1 !! cache_file (self w0) = Some d /\
            d !! "account" = Some (JStr (username (self w0))) /\
            d !! "token" = Some (token (self w1)).
Proof.
  unfold _authenticate. rewrite bind_emit, bind_get_const. intros H Hc Hr.
  apply bind_inv in H as [(x & w' & Hl & H)|(e & _ & ?)]; [| done].
  destruct x as [v|req].
  - inversion H; subst.
    destruct (auth_loop_returned _ _ _ _ _ _ _ _ _ Hl) as (w2 & r & h' & C2 & Hs).
    destruct (auth_success_ok _ _ _ _ _ Hs) as (_ & _ & _ & Hsave).
    simpl in C2. destruct (config_fields _ _ C2) as (Hu & Hf & Hre & _).
    rewrite Hre, Hf, Hu in Hsave. by apply Hsave.
  - rewrite bind_modify_self in H. unfold raise_for_status in H.
    destruct req as [r|]; [| done].
    destruct (is_error_status (status_code r)); [done |].
    inversion H; subst. done.
Qed.

Lemma session_event_inner e : session_event e -> is_inner e.
Proof. by destruct e as [[] | | | | | |]. Qed.

Lemma emits_auth_loop_session n s wt url h req :
  emits session_event (auth_loop n (Some s) wt url h req).
Proof.
  revert h req. induction n as [|n IH]; intros h req; simpl.
  - apply emits_ret.
  - apply emits_bind.
    { eapply emits_weaken; [| apply emits__get_oauth_token]. by intros []. }
    intros tok.
    repeat first
      [ apply IH
      | (eapply emits_weaken; [| apply emits_auth_success_after];
         by intros [[] | | | | | |])
      | emits_step ].
Qed.

(** With a response handed in, [_authenticate] never posts. *)
Lemma _authenticate_session_trace a s wt w r w' :
  _authenticate a (Some s) wt w = (r, w') ->
  const w' = const w /\
  exists l, trace w' = trace w ++ EvAuthenticate a (Some s) :: l /\
            Forall session_event l.
Proof.
  unfold _authenticate. rewrite bind_emit, bind_get_const. intros H.
  assert (E : emits session_event
            (x <- auth_loop (iterations a) (Some s) wt
                    (API_URI (const (log (EvAuthenticate a (Some s)) w)) ++
                     NEW_SESSION_ENDPOINT
                       (const (log (EvAuthenticate a (Some s)) w)))%string
                    (HEADERS (const (log (EvAuthenticate a (Some s)) w)))
                    None ;;
             match x with
             | Returned v => ret v
             | Exhausted req =>
                 run modify_self (set_is_connected (Some false)) ;;
                 run raise_for_status req ;;
                 ret true
             end)).
  { apply emits_bind; [apply emits_auth_loop_session |]. intros [v|req].
    - apply emits_ret.
    - repeat emits_step. unfold raise_for_status.
      destruct req as [r0|]; [destruct (is_error_status _) |]; auto with emits. }
  destruct (E _ _ _ H) as (_ & Hc & l & T & F).
  split; [done |]. exists l. split; [| done].
  rewrite T. simpl. by list_assoc.
Qed.

(** Handed a 200 response, a call that returns has connected the session. *)
Lemma _authenticate_session_connected a s wt w b w' :
  _authenticate a (Some s) wt w = (Ok b, w') ->
  status_code s = 200 -> 0 <= a ->
  is_connected (self w') = Some true.
Proof.
  unfold _authenticate, iterations. rewrite bind_emit, bind_get_const.
  intros H Hs Ha.
  destruct (Z.to_nat (a + 1)) as [|n] eqn:Hn; [lia |].
  apply bind_inv in H as [(x & w1 & Hl & H)|(e & _ & ?)]; [| done].
  simpl in Hl.
  apply bind_inv in Hl as [(tok & w2 & Ht & Hl)|(e & _ & ?)]; [| done].
  rewrite bind_get_const, bind_get_self, bind_ret in Hl.
  unfold ok, is_error_status in Hl. rewrite Hs in Hl. simpl in Hl.
  destruct (auth_success_ok _ _ _ _ _ Hl) as (-> & Hc & _).
  by inversion H; subst.
Qed.

(** The constructor on a cache record of this user, without debug mode:
    when the validation GET is answered 200, no post to the new-session
    endpoint is made; [_authenticate] is called once, with that response. *)
Lemma cached_session_validated w d tok r w' rq resp rest :
  files w !! cache_file (self w) = Some d ->
  d !! "token" = Some tok -> is_none tok = false ->
  d !! "account" = Some (JStr (username (self w))) ->
  debug (self w) = false ->
  _process_cached_session w = (r, w') ->
  query_exchanges (since w w') = (rq, inr resp) :: rest ->
  status_code resp = 200 ->
  auth_posts (since w w') = [] /\
  auth_calls (since w w') = [(RETRY_TOKEN (const w), Some resp)] /\
  rest = [] /\
  (r = Ok tt -> is_connected (self w') = Some true).
Proof.
  intros Hf Htok Hn Hacc Hd H Hq Hs. unfold _process_cached_session in H.
  rewrite bind_get_self, bind_get_const in H.
  unfold bind at 1, _exists_cache in H.
  rewrite Hf in H. rewrite bool_decide_eq_true_2 in H by eauto.
  unfold bind at 1, _read_cache in H. rewrite Hf in H. simpl in H.
  rewrite bind_modify_self in H.
  unfold bind at 1, map_getitem at 1 in H. rewrite Htok in H. simpl in H.
  rewrite Hn in H. unfold map_getitem in H. rewrite Hacc in H.
  unfold bind at 1 in H. simpl in H. rewrite String.eqb_refl in H. simpl in H.
  rewrite !bind_modify_self in H.
  set (w3 := with_self (set_params _) _) in H.
  assert (Hauth : forall (k : unit -> M unit),
            bind (match d !! "auth" with
                  | Some a => modify_self (set_auth a)
                  | None => ret tt
                  end) k w3
            = k tt (match d !! "auth" with
                    | Some a => with_self (set_auth a) w3
                    | None => w3
                    end)) by (intros k; by destruct (d !! "auth")).
  rewrite Hauth in H. clear Hauth.
  set (w4 := match d !! "auth" with Some a => _ | None => _ end) in H.
  assert (T4 : trace w4 = trace w) by (subst w4 w3; by destruct (d !! "auth")).
  assert (C4 : const w4 = const w) by (subst w4 w3; by destruct (d !! "auth")).
  assert (D4 : debug (self w4) = false)
    by (subst w4 w3; by destruct (d !! "auth")).
  assert (Hsince : forall x, since w x = since w4 x)
    by (intros x; unfold since; by rewrite T4).
  rewrite Hsince in *.
  apply bind_inv in H as [(v & wq & Hquery & H)|(e & Hquery & ->)].
  - destruct (query_run _ _ _ _ _ _ _ _ _ _ Hquery)
      as (pre & l & E & Fp & Ftok & Hcase).
    assert (Hpro : proactive w4 = []) by (unfold proactive; by rewrite D4).
    rewrite Hpro in E. simpl in E. specialize (Ftok Hpro).
    destruct (emits_query _ _ _ _ _ _ _ _ _ _ Hquery) as (_ & Cq & lq & Tq & _).
    assert (Hlq : lq = pre ++ l) by (by rewrite <- E, (since_app _ _ _ Tq)).
    subst lq.
    assert (Hrest : exists u la,
               trace w' = trace wq ++ la /\ Forall not_query la /\
               (v = QResp resp ->
                l = [EvHttp QueryReq rq (inr resp)] ->
                iterations (RETRY_TOKEN (const w)) <> O ->
                la = EvAuthenticate (RETRY_TOKEN (const w)) (Some resp) :: u /\
                Forall session_event u /\
                (r = Ok tt -> is_connected (self w') = Some true))).
    { destruct v as [rv|j].
      - unfold validated in H. rewrite bind_ret in H.
        destruct (ok rv && (status_code rv =? 200)) eqn:Hv.
        + apply bind_inv in H as [(b & wa & Ha & H)|(e & Ha & ->)].
          * inversion H; subst.
            destruct (_authenticate_session_trace _ _ _ _ _ _ Ha)
              as (_ & u & Tu & Fu).
            exists u, (EvAuthenticate (RETRY_TOKEN (const w)) (Some rv) :: u).
            split; [done |]. split.
            { constructor; [done |]. apply Forall_inner_not_query.
              eapply Forall_impl; [exact Fu | apply session_event_inner]. }
            intros Hv' _ Hit. injection Hv' as ->.
            split; [done |]. split; [done |]. intros _.
            eapply _authenticate_session_connected; [exact Ha | done |].
            unfold iterations in Hit. lia.
          * destruct (_authenticate_session_trace _ _ _ _ _ _ Ha)
              as (_ & u & Tu & Fu).
            exists u, (EvAuthenticate (RETRY_TOKEN (const w)) (Some rv) :: u).
            split; [done |]. split.
            { constructor; [done |]. apply Forall_inner_not_query.
              eapply Forall_impl; [exact Fu | apply session_event_inner]. }
            intros Hv' _ _. injection Hv' as ->. done.
        + apply bind_inv in H as [(b & wa & Ha & H)|(e & Ha & ->)].
          * inversion H; subst.
            destruct (_authenticate_default_trace _ _ _ Ha)
              as (_ & _ & u & Tu & Fu).
            eexists u, _. split; [exact Tu |]. split.
            { constructor; [done |]. by apply Forall_inner_not_query. }
            intros Hv' _ _. injection Hv' as ->.
            unfold ok, is_error_status in Hv. rewrite Hs in Hv. done.
          * destruct (_authenticate_default_trace _ _ _ Ha)
              as (_ & _ & u & Tu & Fu).
            eexists u, _. split; [exact Tu |]. split.
            { constructor; [done |]. by apply Forall_inner_not_query. }
            intros Hv' _ _. injection Hv' as ->.
            unfold ok, is_error_status in Hv. rewrite Hs in Hv. done.
      - exists [].
        unfold validated in H. destruct (truthy j).
        + inversion H; subst. exists []. rewrite app_nil_r.
          split; [done |]. split; [constructor | done].
        + rewrite bind_ret in H.
          apply bind_inv in H as [(b & wa & Ha & H)|(e & Ha & ->)].
          * inversion H; subst.
            destruct (_authenticate_default_trace _ _ _ Ha)
              as (_ & _ & u & Tu & Fu).
            eexists. split; [exact Tu |]. split; [| done].
            constructor; [done |]. by apply Forall_inner_not_query.
          * destruct (_authenticate_default_trace _ _ _ Ha)
              as (_ & _ & u & Tu & Fu).
            eexists. split; [exact Tu |]. split; [| done].
            constructor; [done |]. by apply Forall_inner_not_query. }
    destruct Hrest as (u & la & Ta & Fa & Hvalid).
    assert (Hall : since w4 w' = pre ++ l ++ la).
    { apply since_app. rewrite Ta, Tq. by list_assoc. }
    rewrite Hall in Hq |- *.
    rewrite !exchanges_app in Hq.
    rewrite (query_exchanges_inner _ Fp), (query_exchanges_not_query _ Fa) in Hq.
    simpl in Hq. rewrite app_nil_r in Hq.
    destruct Hcase as [[-> _]|(w0 & tk & _ & _ & _ & Hr)]; [done |].
    destruct (loop_run_first_200 _ _ _ _ _ _ _ _ _ _ _ _ _ _ _ Hr Hq Hs)
      as (-> & -> & Hres & Hpos & _).
    unfold query_result in Hres. simpl in Hres. injection Hres as ->.
    destruct Hvalid as (-> & Fu & Hconn); [done | done | |].
    { lia. }
    rewrite !exchanges_app, !auth_calls_app.
    rewrite (exchanges_token _ _ Ftok).
    rewrite (auth_calls_inner pre)
      by (by apply Forall_inner_not_auth_call).
    simpl.
    assert (exchanges AuthPost u = []) as ->.
    { clear -Fu. induction Fu as [|e u He _ IH]; [done |].
      by destruct e as [[] | | | | | |]. }
    assert (auth_calls u = []) as ->.
    { apply auth_calls_inner, Forall_inner_not_auth_call.
      eapply Forall_impl; [exact Fu | apply session_event_inner]. }
    done.
  - destruct (query_run _ _ _ _ _ _ _ _ _ _ Hquery)
      as (pre & l & E & Fp & Ftok & Hcase).
    assert (Hpro : proactive w4 = []) by (unfold proactive; by rewrite D4).
    rewrite Hpro in E. simpl in E.
    rewrite E in Hq. rewrite exchanges_app, (query_exchanges_inner _ Fp) in Hq.
    simpl in Hq.
    destruct Hcase as [[-> _]|(w0 & tk & _ & _ & _ & Hr)]; [done |].
    destruct (loop_run_first_200 _ _ _ _ _ _ _ _ _ _ _ _ _ _ _ Hr Hq Hs)
      as (_ & _ & Hres & _).
    done.
Qed.

(** C6 as amended: a session that authenticated and saved its cache record
    (with a session token) is found again by a constructor for the same
    user and cache file; without debug mode, when the validation GET is
    answered 200, that is the only request of the query loop, no post goes
    to the new-session endpoint, [_authenticate] is called exactly once,
    with the validated response, and when the constructor returns the
    session is connected. *)
Theorem cached_session_skips_password_post
    a ses wt w0 b w1 pw persist url timeout r w2 rq resp rest :
  _authenticate a ses wt w0 = (Ok b, w1) ->
  is_connected (self w1) = Some true ->
  _reuse_session (self w0) = true ->
  is_none (token (self w1)) = false ->
  Ring__init__ (username (self w0)) pw false persist url true
    (cache_file (self w0)) timeout w1 = (r, w2) ->
  query_exchanges (since w1 w2) = (rq, inr resp) :: rest ->
  status_code resp = 200 ->
  auth_posts (since w1 w2) = [] /\
  auth_calls (since w1 w2) = [(RETRY_TOKEN (const w1), Some resp)] /\
  rest = [] /\
  (r = Ok tt -> is_connected (self w2) = Some true).
Proof.
  intros Hauth Hconn Hreuse Htok Hinit Hq Hs.
  destruct (_authenticate_saves _ _ _ _ _ _ Hauth Hconn Hreuse)
    as (d & Hd & Hacc & Ht).
  rewrite Ring__init___initialised in Hinit.
  exact (cached_session_validated
           (initialised (username (self w0)) pw false persist url true
              (cache_file (self w0)) timeout w1)
           d (token (self w1)) _ _ _ _ _
           Hd Ht Htok Hacc eq_refl Hinit Hq Hs).
Qed.

(** ** Constructors on example caches *)

(** A first session authenticates (201, session token "sess-2") and saves
    its record; the next constructor validates it with one GET. *)
Lemma cached_session_witness :
  auth_posts
    (since
       (snd (_authenticate 3 None 1
               (world_of (fresh_ring false) (scripted [devices] created) ∅)))
       (snd (Ring__init__ "user" "pw" false false "" true
               "ring_doorbell-session.cache" 10
               (snd (_authenticate 3 None 1
                       (world_of (fresh_ring false)
                          (scripted [devices] created) ∅))))))
  = [].
Proof.
  pose (w0 := world_of (fresh_ring false) (scripted [devices] created) ∅).
  pose (first := _authenticate 3 None 1 w0).
  pose (second := Ring__init__ "user" "pw" false false "" true
                    "ring_doorbell-session.cache" 10 (snd first)).
  destruct (cached_session_skips_password_post 3 None 1 w0 true (snd first)
              "pw" false "" 10 (fst second) (snd second)
              (query_request devices_url GET JNull 10 (bearer "second")
                 renewed_params)
              devices [])
    as [Hposts _].
  - vm_compute. reflexivity.
  - vm_compute. reflexivity.
  - reflexivity.
  - vm_compute. reflexivity.
  - apply surjective_pairing.
  - vm_compute. reflexivity.
  - reflexivity.
  - exact Hposts.
Defined.

(** C6 fails as stated: in debug mode the validation query finds the new
    object not connected and calls [_authenticate()] before its request,
    which posts to the new-session endpoint. *)
Lemma cached_session_debug_counterexample :
  ~ (forall dbg a ses wt w0 b w1 pw persist url timeout r w2 rq resp rest,
        _authenticate a ses wt w0 = (Ok b, w1) ->
        is_connected (self w1) = Some true ->
        _reuse_session (self w0) = true ->
        is_none (token (self w1)) = false ->
        Ring__init__ (username (self w0)) pw dbg persist url true
          (cache_file (self w0)) timeout w1 = (r, w2) ->
        query_exchanges (since w1 w2) = (rq, inr resp) :: rest ->
        status_code resp = 200 ->
        auth_posts (since w1 w2) = []).
Proof.
  intros H.
  pose (w0 := world_of (fresh_ring false) (scripted [devices] created) ∅).
  pose (first := _authenticate 3 None 1 w0).
  pose (second := Ring__init__ "user" "pw" true false "" true
                    "ring_doorbell-session.cache" 10 (snd first)).
  assert (Hposts := H true 3 None 1 w0 true (snd first)
              "pw" false "" 10 (fst second) (snd second)
              (query_request devices_url GET JNull 10 (bearer "second")
                 renewed_params)
              devices []).
  assert (Hlen : length (auth_posts (since (snd first) (snd second))) = 1%nat)
    by (vm_compute; reflexivity).
  rewrite Hposts in Hlen; [done | | | | | | |].
  - vm_compute. reflexivity.
  - vm_compute. reflexivity.
  - reflexivity.
  - vm_compute. reflexivity.
  - apply surjective_pairing.
  - vm_compute. reflexivity.
  - reflexivity.
Qed.




(** What the constructor does on that record. *)
Example missing_token_key_raises :
  fst (Ring__init__ "user" "pw" false false "" true
         "ring_doorbell-session.cache" 10
         (world_of (fresh_ring false) (scripted [] created)
            {["ring_doorbell-session.cache" := keyless_record]}))
  = Raise (KeyError "token").
Proof. vm_compute. reflexivity. Qed.

(** ** The embedding at work *)

(** A first construction, no cache file: the password fetch of the OAuth
    token, one post answered 201, the record saved. *)
Example first_construction :
  let out := Ring__init__ "user" "pw" false false "" true
               "ring_doorbell-session.cache" 10
               (world_of (fresh_ring false) (scripted [] created) ∅) in
  fst out = Ok tt /\
  map glimpse_of (trace (snd out))
  = [Authenticated false; Fetched; Posted (Some 201); Saved] /\
  is_connected (self (snd out)) = Some true /\
  token (self (snd out)) = JStr "sess-2" /\
  files (snd out) !! "ring_doorbell-session.cache"
  = Some saved_record.
Proof. vm_compute. repeat split; reflexivity. Qed.

(** A construction on that record: the OAuth token of the record is
    refreshed (no refresh time is known), the validation GET is answered
    200 and handed to [_authenticate]. *)
Example cached_construction :
  let out := Ring__init__ "user" "pw" false false "" true
               "ring_doorbell-session.cache" 10
               (world_of (fresh_ring false) (scripted [devices] created)
                  {["ring_doorbell-session.cache" := saved_record]}) in
  fst out = Ok tt /\
  map glimpse_of (trace (snd out))
  = [Refreshed; Clock 1; Queried (Some 200); Authenticated true; Clock 4;
     Saved] /\
  is_connected (self (snd out)) = Some true /\
  token (self (snd out)) = JStr "sess-2".
Proof. vm_compute. repeat split; reflexivity. Qed.

(** The same construction in debug mode posts before it validates. *)
Example cached_construction_debug :
  map glimpse_of
    (trace (snd (Ring__init__ "user" "pw" true false "" true
                   "ring_doorbell-session.cache" 10
                   (world_of (fresh_ring false) (scripted [devices] created)
                      {["ring_doorbell-session.cache" := saved_record]}))))
  = [Authenticated false; Refreshed; Clock 2; Posted (Some 201); Saved;
     Clock 5; Queried (Some 200); Authenticated true; Clock 8; Saved].
Proof. vm_compute. reflexivity. Qed.

(** A query answered 401, then 200, with [attempts = 1]: the session is
    authenticated again in between, and the device list is returned. *)
Example query_after_401 :
  let out := query devices_url 1 GET false None JNull None
               (world_of (live_ring false)
                  (scripted [status_only 401; devices] created) ∅) in
  fst out = Ok (QVal (JObj [("doorbots", JArr []); ("chimes", JArr [])])) /\
  map glimpse_of (trace (snd out))
  = [Clock 0; Queried (Some 401); Authenticated false; Clock 3;
     Posted (Some 201); Saved; Queried (Some 200)] /\
  token (self (snd out)) = JStr "sess-2".
Proof. vm_compute. repeat split; reflexivity. Qed.

(** Two 401 answers with [attempts = 1]: two requests, two
    re-authentications, and [None]. *)
Example query_two_401 :
  let out := query devices_url 1 GET false None JNull None
               (world_of (live_ring false)
                  (scripted [status_only 401; status_only 401] created) ∅) in
  fst out = Ok QNone /\
  map glimpse_of (trace (snd out))
  = [Clock 0; Queried (Some 401); Authenticated false; Clock 3;
     Posted (Some 201); Saved; Queried (Some 401); Authenticated false;
     Clock 8; Posted (Some 201); Saved].
Proof. vm_compute. repeat split; reflexivity. Qed.

(** Posts answered 500: every attempt is used, with a pause after each,
    and the HTTP error is raised. *)
Example authenticate_on_500 :
  let out := _authenticate 1 None 1
               (world_of (fresh_ring false) (scripted [] (status_only 500)) ∅) in
  fst out = Raise (HTTPError 500) /\
  map glimpse_of (trace (snd out))
  = [Authenticated false; Fetched; Posted (Some 500); Slept; Refreshed;
     Clock 5; Posted (Some 500); Slept] /\
  is_connected (self (snd out)) = Some false.
Proof. vm_compute. repeat split; reflexivity. Qed.

(** Posts answered 204: every attempt is used, without a pause, and the
    call returns [True] with the session not connected. *)
Example authenticate_on_204 :
  let out := _authenticate 1 None 1
               (world_of (fresh_ring false) (scripted [] (status_only 204)) ∅) in
  fst out = Ok true /\
  map glimpse_of (trace (snd out))
  = [Authenticated false; Fetched; Posted (Some 204); Refreshed; Clock 4;
     Posted (Some 204)] /\
  is_connected (self (snd out)) = Some false.
Proof. vm_compute. repeat split; reflexivity. Qed.

(** * Further properties *)

(** ** _get_oauth_token: where the token comes from *)

Lemma getitem_access_token a w :
  getitem a "access_token" w = (access_token_of a, w).
Proof.
  destruct a as [| | | | |kvs]; try reflexivity. simpl.
  by destruct (assoc "access_token" kvs).
Qed.

(** X1: without an OAuth token (a new session) [_get_oauth_token] asks the
    helper once for a token by user name and password and does nothing
    else: no refresh, no clock, [last_refresh] as it was.  When the helper
    fails its exception is raised and the object is unchanged; otherwise
    the token is stored and its [access_token] entry is the result,
    [KeyError] when the token has none. *)
Theorem get_oauth_token_first_use w r w' :
  truthy (auth (self w)) = false ->
  _get_oauth_token w = (r, w') ->
  exists ans,
    since w w' = [EvFetchToken (auth (self w)) (username (self w))
                    (password (self w)) ans] /\
    ans = oauth_fetch_token (env w) (trace w) (auth (self w))
            (username (self w)) (password (self w)) /\
    last_refresh (self w') = last_refresh (self w) /\
    match ans with
    | inl e => r = Raise e /\ self w' = self w
    | inr a => auth (self w') = a /\ r = access_token_of a
    end.
Proof.
  intros Hfalsy. unfold _get_oauth_token. rewrite bind_get_self, Hfalsy. simpl.
  unfold bind at 1 2, fetch_token.
  destruct (oauth_fetch_token (env w) (trace w) (auth (self w))
              (username (self w)) (password (self w))) as [e|a] eqn:Hans;
    simpl; intros H.
  - inversion H; subst. exists (inl e).
    split; [by apply since_app |]. done.
  - rewrite bind_get_self, getitem_access_token in H. inversion H; subst.
    exists (inr a).
    split; [by apply since_app |]. done.
Qed.


(** X3: [_get_oauth_token] is about the OAuth token only: whatever the
    helper answers, the session token, [is_connected], [self.params], the
    cache and the cache files are as they were. *)
Theorem get_oauth_token_keeps_session w :
  session_state (snd (_get_oauth_token w)) = session_state w.
Proof.
  destruct (_get_oauth_token w) as [r w'] eqn:H. simpl.
  assert (P : preserves session_state _get_oauth_token)
    by (unfold _get_oauth_token; repeat preserves_step).
  exact (P _ _ _ H).
Qed.

(** ** _authenticate: the loop, its success branch and its bounds *)

Lemma sleeps_app l1 l2 : sleeps (l1 ++ l2) = (sleeps l1 + sleeps l2)%nat.
Proof.
  induction l1 as [|e l1 IH]; [done |].
  destruct e; simpl; rewrite ?IH; done.
Qed.

Lemma sleeps_token l : Forall is_token_event l -> sleeps l = O.
Proof.
  induction 1 as [|e l He _ IH]; [done |]. by destruct e.
Qed.

Lemma sleeps_after_success l : Forall after_success l -> sleeps l = O.
Proof.
  induction 1 as [|e l He _ IH]; [done |]. by destruct e.
Qed.

Lemma _get_oauth_token_session : preserves session_state _get_oauth_token.
Proof. unfold _get_oauth_token. repeat preserves_step. Qed.

(** The loop of [_authenticate], posting for itself: either no post was
    answered 200 or 201 and the session is as it was, or the last post was
    and the success branch ran on the session as it was. *)
Lemma auth_loop_outcome n wait url h req w x w' :
  auth_loop n None wait url h req w = (x, w') ->
  exists l, trace w' = trace w ++ l /\
    (length (auth_posts l) <= n)%nat /\
    sleeps l = error_answers (auth_posts l) /\
    ((Forall unsuccessful (auth_posts l) /\
      session_state w' = session_state w /\
      forall v, x <> Ok (Returned v))
     \/
     (exists l1 rq resp w1 l2,
        l = l1 ++ EvHttp AuthPost rq (inr resp) :: l2 /\
        Forall after_success l2 /\
        (status_code resp = 200 \/ status_code resp = 201) /\
        session_state w1 = session_state w /\
        const w1 = const w /\
        auth_success resp (rq_headers rq) w1 = (x, w'))).
Proof.
  revert h req w. induction n as [|n IH]; intros h req w H.
  - inversion H; subst. exists []. rewrite app_nil_r.
    split; [done |]. split; [simpl; lia |]. split; [done |].
    left. split; [constructor |]. split; [done |]. done.
  - simpl in H.
    apply bind_inv in H as [(tok & w1 & Ht & H)|(e & Ht & ->)].
    2:{ destruct (emits__get_oauth_token _ _ _ Ht) as (_ & _ & l0 & T0 & F0).
        exists l0. rewrite (exchanges_token _ _ F0), (sleeps_token _ F0).
        split; [done |]. split; [simpl; lia |]. split; [done |].
        left. split; [constructor |].
        split; [exact (_get_oauth_token_session _ _ _ Ht) | done]. }
    destruct (emits__get_oauth_token _ _ _ Ht) as (_ & C0 & l0 & T0 & F0).
    pose proof (_get_oauth_token_session _ _ _ Ht) as S0.
    rewrite bind_get_const, bind_get_self, bind_send in H.
    set (rq := mkRequest POST url None _ _ JNull _) in H.
    destruct (http (env w1) (trace w1) AuthPost rq) as [e|resp].
    { inversion H; subst. exists (l0 ++ [EvHttp AuthPost rq (inl e)]).
      rewrite exchanges_app, (exchanges_token _ _ F0), sleeps_app,
        (sleeps_token _ F0). simpl.
      split; [by rewrite T0, app_assoc |]. split; [lia |]. split; [done |].
      left. split; [by repeat constructor |]. split; [exact S0 | done]. }
    assert (Hrec : forall w2 l2,
               trace w2 = trace w1 ++ EvHttp AuthPost rq (inr resp) :: l2 ->
               auth_posts l2 = [] ->
               sleeps l2 = (if is_error_status (status_code resp)
                            then 1 else 0)%nat ->
               session_state w2 = session_state w1 ->
               const w2 = const w1 ->
               no_success (status_code resp) ->
               auth_loop n None wait url
                 (<["Authorization" := HBearer tok]> h) (Some resp) w2 = (x, w') ->
               exists l, trace w' = trace w ++ l /\
                 (length (auth_posts l) <= S n)%nat /\
                 sleeps l = error_answers (auth_posts l) /\
                 ((Forall unsuccessful (auth_posts l) /\
                   session_state w' = session_state w /\
                   forall v, x <> Ok (Returned v))
                  \/
                  (exists l1 rq resp w1 l2,
                     l = l1 ++ EvHttp AuthPost rq (inr resp) :: l2 /\
                     Forall after_success l2 /\
                     (status_code resp = 200 \/ status_code resp = 201) /\
                     session_state w1 = session_state w /\
                     const w1 = const w /\
                     auth_success resp (rq_headers rq) w1 = (x, w')))).
    { intros w2 l2 T2 F2 Sl2 S2 C2 Hns Hl.
      destruct (IH _ _ _ Hl) as (l & T & Hle & Hsl & Hcase).
      exists (l0 ++ EvHttp AuthPost rq (inr resp) :: l2 ++ l).
      assert (auth_posts (l0 ++ EvHttp AuthPost rq (inr resp) :: l2 ++ l)
              = (rq, inr resp) :: auth_posts l) as ->.
      { rewrite exchanges_app, (exchanges_token _ _ F0).
        simpl. rewrite exchanges_app. by rewrite F2. }
      split.
      { rewrite T, T2, T0. by list_assoc. }
      split; [simpl; lia |].
      split.
      { rewrite sleeps_app, (sleeps_token _ F0). simpl.
        rewrite sleeps_app, Sl2, Hsl.
        by destruct (is_error_status (status_code resp)). }
      destruct Hcase as [(HF & HS & Hx)|(l1 & rq' & resp' & w3 & l3 & -> & F3 & Hst & S3 & C3 & Hsucc)].
      - left. split; [constructor; [exact Hns | exact HF] |].
        split; [by rewrite HS, S2, S0 | exact Hx].
      - right.
        exists (l0 ++ EvHttp AuthPost rq (inr resp) :: l2 ++ l1), rq', resp', w3, l3.
        split; [by list_assoc |]. split; [done |]. split; [done |].
        split; [by rewrite S3, S2, S0 |].
        split; [by rewrite C3, C2, C0 | done]. }
    destruct (ok resp) eqn:Hok; simpl in H.
    + destruct ((status_code resp =? 200) || (status_code resp =? 201)) eqn:Hs.
      * destruct (emits_auth_success_after _ _ _ _ _ H) as (_ & _ & l2 & T2 & F2).
        exists (l0 ++ EvHttp AuthPost rq (inr resp) :: l2).
        split.
        { rewrite T2. simpl. rewrite T0. by list_assoc. }
        rewrite exchanges_app, (exchanges_token _ _ F0). simpl.
        rewrite (exchanges_after_success _ F2).
        split; [simpl; lia |].
        split.
        { rewrite sleeps_app, (sleeps_token _ F0). simpl.
          rewrite (sleeps_after_success _ F2).
          unfold ok in Hok. apply negb_true_iff in Hok. by rewrite Hok. }
        right. exists l0, rq, resp, (log (EvHttp AuthPost rq (inr resp)) w1), l2.
        split; [done |]. split; [done |]. split; [lia |].
        split; [exact S0 |]. split; [exact C0 | exact H].
      * unfold ok in Hok. apply negb_true_iff in Hok.
        apply (Hrec (log (EvHttp AuthPost rq (inr resp)) w1) []);
          [done | done | by rewrite Hok | done | done
          | unfold no_success; lia | exact H].
    + unfold sleep in H. rewrite bind_emit in H.
      unfold ok in Hok. apply negb_false_iff in Hok.
      apply (Hrec (log (EvSleep wait) (log (EvHttp AuthPost rq (inr resp)) w1))
                  [EvSleep wait]).
      * simpl. by list_assoc.
      * done.
      * by rewrite Hok.
      * done.
      * done.
      * unfold is_error_status in Hok. unfold no_success. lia.
      * exact H.
Qed.

(** [_authenticate] around its loop: the events after the entry are those
    of the loop. *)
Lemma _authenticate_unfold attempts ses wait w r w' :
  _authenticate attempts ses wait w = (r, w') ->
  exists x w1,
    auth_loop (iterations attempts) ses wait
      (API_URI (const w) ++ NEW_SESSION_ENDPOINT (const w))%string
      (HEADERS (const w)) None (log (EvAuthenticate attempts ses) w) = (x, w1) /\
    trace w' = trace w1 /\
    match x with
    | Ok (Returned v) => r = Ok v /\ w' = w1
    | Ok (Exhausted req) =>
        w' = with_self (set_is_connected (Some false)) w1 /\
        r = match req with
            | None => Raise (UnboundLocalError "req")
            | Some resp => if is_error_status (status_code resp)
                           then Raise (HTTPError (status_code resp))
                           else Ok true
            end
    | Raise e => r = Raise e /\ w' = w1
    end.
Proof.
  unfold _authenticate. rewrite bind_emit, bind_get_const. intros H.
  apply bind_inv in H as [(x & w1 & Hloop & H)|(e & Hloop & ->)].
  - exists (Ok x), w1. split; [exact Hloop |].
    destruct x as [v|req].
    + inversion H; subst. done.
    + rewrite bind_modify_self in H. unfold raise_for_status in H.
      destruct req as [resp|].
      * destruct (is_error_status (status_code resp)); inversion H; subst; done.
      * inversion H; subst. done.
  - exists (Raise e), w'. done.
Qed.

Lemma read_session_token_run resp w :
  read_session_token resp w =
  if status_code resp =? 201 then
    match session_token_of resp with
    | Ok t => (Ok tt, with_self (set_token t) w)
    | Raise e => (Raise e, w)
    end
  else (Ok tt, w).
Proof.
  unfold read_session_token, session_token_of, when, resp_json.
  destruct (status_code resp =? 201); [| done].
  destruct (body resp) as [j|]; [| done].
  destruct j as [| | | | |kvs]; try done.
  unfold bind at 1. simpl.
  destruct (default JNull (assoc "profile" kvs)) as [| | | | |p]; done.
Qed.

Lemma persist_push_token_run h w u w' :
  persist_push_token h w = (u, w') ->
  self w' = self w /\ files w' = files w /\ const w' = const w /\
  ((u = Ok tt /\
    exists l, trace w' = trace w ++ l /\
              Forall put_delivered l /\ Forall no_save l)
   \/ exists rq e, u = Raise e /\
                   trace w' = trace w ++ [EvHttp PersistPut rq (inl e)]).
Proof.
  unfold persist_push_token. rewrite bind_get_const, bind_get_self.
  destruct (_persist_token (self w) &&
            negb (String.eqb (_push_token_notify_url (self w)) "")); simpl.
  - unfold bind at 1 2. rewrite bind_send. simpl.
    match goal with
    | |- context [http ?a ?b ?c ?d] => destruct (http a b c d) as [e|resp]
    end; intros H; inversion H; subst; simpl.
    + repeat split; try done. right. eauto.
    + repeat split; try done. left. split; [done |].
      eexists. split; [done |]. split; by repeat constructor.
  - intros H. inversion H; subst. repeat split; try done.
    left. split; [done |]. exists []. rewrite app_nil_r. by repeat split.
Qed.

Lemma save_session_run w u w' :
  save_session w = (u, w') ->
  u = Ok tt /\
  is_connected (self w') = is_connected (self w) /\
  token (self w') = token (self w) /\
  params (self w') = params (self w) /\
  config (self w') = config (self w) /\
  (exists l, trace w' = trace w ++ l /\ Forall put_delivered l) /\
  (_reuse_session (self w) = false -> w' = w).
Proof.
  unfold save_session. rewrite bind_get_self.
  destruct (_reuse_session (self w)) eqn:Hr; simpl; intros H.
  - destruct w as [s tr en co fs ca pd].
    destruct s as [? ? ? ? ? ? ? ? ? ? ? c ? ?].
    unfold bind, cache_setitem, get_cache, _save_cache in H.
    destruct c as [|d0]; simpl in H; inversion H; subst; simpl;
      repeat (split; [done |]);
      (split; [| done]); eexists; (split; [done |]); by repeat constructor.
  - inversion H; subst. repeat (split; [done |]).
    split; [| done]. exists []. by rewrite app_nil_r.
Qed.

(** The success branch: the session token is read (201) or kept (200);
    when reading fails nothing has been assigned, otherwise the session is
    connected with that token and only the PUT of the push token can still
    fail. *)
Lemma auth_success_run resp h w x w' :
  auth_success resp h w = (x, w') ->
  match (if status_code resp =? 201 then session_token_of resp
         else Ok (token (self w))) with
  | Raise e => x = Raise e /\ w' = w
  | Ok t =>
      is_connected (self w') = Some true /\ token (self w') = t /\
      params (self w') = Some (session_params (const w) t) /\
      (x = Ok (Returned true) \/
       exists l rq e, x = Raise e /\
                      trace w' = trace w ++ l ++ [EvHttp PersistPut rq (inl e)])
  end.
Proof.
  assert (Htail : forall w0,
            (run modify_self (set_is_connected (Some true)) ;;
             c <- get_const ;;
             s <- get_self ;;
             run modify_self (set_params
               (Some (<["auth_token" := token s]>
                        {["api_version" := API_VERSION c]}))) ;;
             run persist_push_token h ;;
             run save_session ;;
             ret (Returned true)) w0 = (x, w') ->
            is_connected (self w') = Some true /\
            token (self w') = token (self w0) /\
            params (self w')
            = Some (session_params (const w0) (token (self w0))) /\
            (x = Ok (Returned true) \/
             exists l rq e, x = Raise e /\
               trace w' = trace w0 ++ l ++ [EvHttp PersistPut rq (inl e)])).
  { intros w0.
    rewrite bind_modify_self, bind_get_const, bind_get_self, bind_modify_self.
    intros H.
    apply bind_inv in H as [(u2 & w2 & H2 & H)|(e & H2 & ->)].
    - destruct (persist_push_token_run _ _ _ _ H2) as (S2 & _ & _ & _).
      apply bind_inv in H as [(u3 & w3 & H3 & H)|(e & H3 & _)].
      + destruct (save_session_run _ _ _ H3) as (_ & Sc & St & Sp & _).
        inversion H; subst.
        rewrite Sc, St, Sp, S2. simpl. repeat (split; [done |]). by left.
      + destruct (save_session_run _ _ _ H3) as (? & _). done.
    - destruct (persist_push_token_run _ _ _ _ H2)
        as (S2 & _ & _ & [(? & _)|(rq & e' & He & T)]); [done |].
      injection He as <-. rewrite S2. simpl. repeat (split; [done |]).
      right. exists [], rq, e. split; [done |]. exact T. }
  unfold auth_success. unfold bind at 1. rewrite read_session_token_run.
  destruct (status_code resp =? 201).
  - destruct (session_token_of resp) as [t|e].
    + intros H. destruct (Htail _ H) as (Hc & Ht & Hp & Hx).
      repeat (split; [done |]). exact Hx.
    + intros H. by inversion H.
  - intros H. exact (Htail _ H).
Qed.

Lemma last_of_suffix {A} (a b c : list A) x :
  a ++ b = c ++ [x] -> b <> [] -> last b = Some x.
Proof.
  intros E Hb.
  assert (Hl : last (a ++ b) = Some x) by (rewrite E; apply last_snoc).
  rewrite last_app in Hl. destruct (last b) eqn:Hlb; [done |].
  apply last_None in Hlb. done.
Qed.

Lemma session_state_fields w1 w2 :
  session_state w1 = session_state w2 ->
  config (self w1) = config (self w2) /\ token (self w1) = token (self w2) /\
  is_connected (self w1) = is_connected (self w2) /\ files w1 = files w2.
Proof.
  unfold session_state. intros H.
  split; [exact (f_equal (fun x => x.1.1.1.1.1.1.1) H) |].
  split; [exact (f_equal (fun x => x.1.1.1.1.1.1.2) H) |].
  split; [exact (f_equal (fun x => x.1.1.1.1.1.2) H) |].
  exact (f_equal (fun x => x.1.1.2) H).
Qed.

(** [_authenticate], posting for itself, whose last post was answered 200
    or 201. *)
Lemma _authenticate_success attempts wait w r w' rq resp :
  _authenticate attempts None wait w = (r, w') ->
  last (auth_posts (since w w')) = Some (rq, inr resp) ->
  status_code resp = 200 \/ status_code resp = 201 ->
  match (if status_code resp =? 201 then session_token_of resp
         else Ok (token (self w))) with
  | Raise e => r = Raise e /\ session_state w' = session_state w
  | Ok t =>
      is_connected (self w') = Some true /\ token (self w') = t /\
      params (self w') = Some (session_params (const w) t) /\
      (Forall put_delivered (since w w') -> r = Ok true)
  end.
Proof.
  intros H Hlast Hst.
  destruct (_authenticate_unfold _ _ _ _ _ _ H) as (x & wl & Hloop & Htr & Hx).
  destruct (auth_loop_outcome _ _ _ _ _ _ _ _ Hloop) as (l & T & _ & _ & Hcase).
  assert (Hs : since w w' = EvAuthenticate attempts None :: l).
  { apply since_app. rewrite Htr, T. simpl. by list_assoc. }
  rewrite Hs in *. simpl in Hlast.
  destruct Hcase as [(HF & _ & _)
                    |(l1 & rq' & resp' & w1 & l2 & -> & F2 & _ & S1 & C1 & Hsucc)].
  { apply last_Some_elem_of in Hlast.
    rewrite Forall_forall in HF. apply HF in Hlast.
    unfold unsuccessful, no_success in Hlast. simpl in Hlast. lia. }
  rewrite exchanges_app in Hlast. simpl in Hlast.
  rewrite (exchanges_after_success _ F2), last_snoc in Hlast.
  injection Hlast as -> ->.
  destruct (session_state_fields _ _ S1) as (_ & Htok & _).
  simpl in Htok, C1.
  pose proof (auth_success_run _ _ _ _ _ Hsucc) as Hrun.
  rewrite Htok, C1 in Hrun.
  destruct (if status_code resp =? 201 then session_token_of resp
            else Ok (token (self w))) as [t|e].
  - destruct Hrun as (Hc & Ht & Hp & Hxx).
    destruct Hxx as [->|(l3 & rq3 & e & -> & T3)].
    + destruct Hx as [-> ->]. done.
    + destruct Hx as [-> ->]. repeat (split; [done |]).
      intros HF. exfalso.
      assert (Hl : last (EvAuthenticate attempts None ::
                          l1 ++ EvHttp AuthPost rq (inr resp) :: l2)
                   = Some (EvHttp PersistPut rq3 (inl e))).
      { apply (last_of_suffix (trace w) _ (trace w1 ++ l3)); [| done].
        rewrite <- app_assoc, <- T3, T. simpl. by list_assoc. }
      apply last_Some_elem_of in Hl. rewrite Forall_forall in HF.
      exact (HF _ Hl).
  - destruct Hrun as [-> ->]. destruct Hx as [-> ->].
    split; [done |]. by rewrite S1.
Qed.

(** X4: [_authenticate] posts at most [attempts + 1] times to the
    new-session endpoint, and pauses ([time.sleep]) exactly once for each
    post that was answered with an error status (400 to 599): never after
    another answer, never after a transport failure. *)
Theorem authenticate_posts_and_pauses attempts wait w :
  (length (auth_posts (since w (snd (_authenticate attempts None wait w))))
   <= iterations attempts)%nat /\
  sleeps (since w (snd (_authenticate attempts None wait w)))
  = error_answers
      (auth_posts (since w (snd (_authenticate attempts None wait w)))).
Proof.
  destruct (_authenticate attempts None wait w) as [r w'] eqn:H. simpl.
  destruct (_authenticate_unfold _ _ _ _ _ _ H) as (x & wl & Hloop & Htr & _).
  destruct (auth_loop_outcome _ _ _ _ _ _ _ _ Hloop) as (l & T & Hle & Hsl & _).
  assert (Hs : since w w' = EvAuthenticate attempts None :: l).
  { apply since_app. rewrite Htr, T. simpl. by list_assoc. }
  rewrite Hs. simpl. done.
Qed.

(** X5: when the last post of [_authenticate] is answered 201 and the
    body holds a profile, the session token is the profile's
    [authentication_token] ([None] when the profile has none), the session
    is connected, and [self.params] holds the API version and that token;
    the call returns [True] unless the PUT of the push token fails. *)
Theorem authenticate_adopts_session_token attempts wait w r w' rq resp t :
  _authenticate attempts None wait w = (r, w') ->
  last (auth_posts (since w w')) = Some (rq, inr resp) ->
  status_code resp = 201 ->
  session_token_of resp = Ok t ->
  token (self w') = t /\
  is_connected (self w') = Some true /\
  params (self w') = Some (session_params (const w) t) /\
  (Forall put_delivered (since w w') -> r = Ok true).
Proof.
  intros H Hlast Hst Htok.
  pose proof (_authenticate_success _ _ _ _ _ _ _ H Hlast (or_intror Hst)) as Hrun.
  rewrite Hst, Htok in Hrun. simpl in Hrun.
  destruct Hrun as (Hc & Ht & Hp & Hr). done.
Qed.

(** X6: when the last post of [_authenticate] is answered 200 the body is
    not looked at: the session token stays the one the object had, the
    session is connected with it, and [self.params] is rebuilt from it. *)
Theorem authenticate_200_keeps_session_token attempts wait w r w' rq resp :
  _authenticate attempts None wait w = (r, w') ->
  last (auth_posts (since w w')) = Some (rq, inr resp) ->
  status_code resp = 200 ->
  token (self w') = token (self w) /\
  is_connected (self w') = Some true /\
  params (self w') = Some (session_params (const w) (token (self w))) /\
  (Forall put_delivered (since w w') -> r = Ok true).
Proof.
  intros H Hlast Hst.
  pose proof (_authenticate_success _ _ _ _ _ _ _ H Hlast (or_introl Hst)) as Hrun.
  rewrite Hst in Hrun. simpl in Hrun.
  destruct Hrun as (Hc & Ht & Hp & Hr). done.
Qed.

(** X7: a 201 whose body cannot be read ends the call with the exception
    of the reading ([ValueError] for a body that is no JSON document,
    [AttributeError] for a document that is no dictionary or has no
    profile dictionary), before anything is assigned: the session is not
    marked connected, the session token, [self.params] and the cache are
    as they were. *)
Theorem authenticate_unreadable_201_raises attempts wait w r w' rq resp e :
  _authenticate attempts None wait w = (r, w') ->
  last (auth_posts (since w w')) = Some (rq, inr resp) ->
  status_code resp = 201 ->
  session_token_of resp = Raise e ->
  r = Raise e /\ session_state w' = session_state w.
Proof.
  intros H Hlast Hst Htok.
  pose proof (_authenticate_success _ _ _ _ _ _ _ H Hlast (or_intror Hst)) as Hrun.
  rewrite Hst, Htok in Hrun. simpl in Hrun. exact Hrun.
Qed.

(** X8: with a negative [attempts] the loop body never runs: nothing is
    sent, not even to the OAuth helper, the session is marked not
    connected, and the call ends in [UnboundLocalError], [req] never
    having been assigned; this also when a response was handed in. *)
Theorem authenticate_negative_attempts attempts ses wait w :
  attempts < 0 ->
  _authenticate attempts ses wait w
  = (Raise (UnboundLocalError "req"),
     with_self (set_is_connected (Some false))
       (log (EvAuthenticate attempts ses) w)).
Proof.
  intros Hneg. unfold _authenticate, iterations.
  rewrite bind_emit, bind_get_const.
  assert (Z.to_nat (attempts + 1) = O) as -> by lia.
  reflexivity.
Qed.

(** ** Without [reuse_session] no cache file is written *)

Lemma keeps_files_refl w : keeps_files w w.
Proof.
  split; [done |]. split; [done |]. exists []. by rewrite app_nil_r.
Qed.

Lemma keeps_files_trans w1 w2 w3 :
  keeps_files w1 w2 -> keeps_files w2 w3 -> keeps_files w1 w3.
Proof.
  intros (C1 & F1 & l1 & T1 & N1) (C2 & F2 & l2 & T2 & N2).
  split; [congruence |]. split; [congruence |].
  exists (l1 ++ l2). split; [rewrite T2, T1; by list_assoc |].
  by apply Forall_app.
Qed.

(** What leaves the files alone and saves nothing. *)
Lemma keeps_files_intro {A} (m : M A) w r w' :
  preserves (fun w => (config (self w), files w)) m ->
  emits no_save m ->
  m w = (r, w') -> keeps_files w w'.
Proof.
  intros P E H. pose proof (P _ _ _ H) as Hp. simpl in Hp.
  destruct (E _ _ _ H) as (_ & _ & l & T & F).
  split; [exact (f_equal fst Hp) |]. split; [exact (f_equal snd Hp) |].
  eauto.
Qed.

Lemma _get_oauth_token_keeps_files w r w' :
  _get_oauth_token w = (r, w') -> keeps_files w w'.
Proof.
  apply keeps_files_intro.
  - unfold _get_oauth_token. repeat preserves_step.
  - eapply emits_weaken; [| apply emits__get_oauth_token]. by intros [].
Qed.

Lemma auth_success_keeps_files resp h w x w' :
  _reuse_session (self w) = false ->
  auth_success resp h w = (x, w') -> keeps_files w w'.
Proof.
  intros Hr H. unfold auth_success in H.
  assert (K1 : forall u w1, read_session_token resp w = (u, w1) ->
                            keeps_files w w1).
  { intros u w1. apply keeps_files_intro.
    - unfold read_session_token. repeat preserves_step.
    - unfold read_session_token. repeat emits_step. }
  apply bind_inv in H as [(u1 & w1 & H1 & H)|(e & H1 & _)]; [| by eapply K1].
  specialize (K1 _ _ H1).
  rewrite bind_modify_self, bind_get_const, bind_get_self, bind_modify_self in H.
  set (w2 := with_self (set_params _) _) in H.
  assert (K2 : keeps_files w w2).
  { destruct K1 as (C1 & F1 & l1 & T1 & N1).
    split; [exact C1 |]. split; [exact F1 |]. by exists l1. }
  assert (K3 : forall u w3, persist_push_token h w2 = (u, w3) ->
                            keeps_files w w3).
  { intros u w3 H3. eapply keeps_files_trans; [exact K2 |].
    destruct (persist_push_token_run _ _ _ _ H3)
      as (S3 & F3 & _ & [(_ & l & T & _ & N)|(rq & e & _ & T)]).
    - split; [by rewrite S3 |]. split; [done |]. eauto.
    - split; [by rewrite S3 |]. split; [done |].
      eexists. split; [exact T |]. by repeat constructor. }
  apply bind_inv in H as [(u3 & w3 & H3 & H)|(e & H3 & _)]; [| by eapply K3].
  specialize (K3 _ _ H3).
  assert (Hr3 : _reuse_session (self w3) = false).
  { destruct K3 as (C3 & _). destruct (config_fields _ _ C3) as (_ & _ & -> & _).
    exact Hr. }
  apply bind_inv in H as [(u4 & w4 & H4 & H)|(e & H4 & ->)].
  - destruct (save_session_run _ _ _ H4) as (_ & _ & _ & _ & _ & _ & Hsame).
    rewrite (Hsame Hr3) in H. inversion H; subst. exact K3.
  - destruct (save_session_run _ _ _ H4) as (_ & _ & _ & _ & _ & _ & Hsame).
    rewrite (Hsame Hr3). exact K3.
Qed.

Lemma auth_loop_keeps_files n ses wait url h req w x w' :
  _reuse_session (self w) = false ->
  auth_loop n ses wait url h req w = (x, w') -> keeps_files w w'.
Proof.
  revert h req w. induction n as [|n IH]; intros h req w Hr H.
  - inversion H; subst. apply keeps_files_refl.
  - simpl in H.
    apply bind_inv in H as [(tok & w1 & Ht & H)|(e & Ht & _)];
      [| by eapply _get_oauth_token_keeps_files].
    pose proof (_get_oauth_token_keeps_files _ _ _ Ht) as K1.
    rewrite bind_get_const, bind_get_self in H.
    assert (Hstep : forall r w2,
              keeps_files w w2 ->
              (if negb (ok r)
               then run sleep wait ;;
                    auth_loop n ses wait url
                      (<["Authorization" := HBearer tok]> h) (Some r)
               else if (status_code r =? 200) || (status_code r =? 201)
                    then auth_success r (<["Authorization" := HBearer tok]> h)
                    else auth_loop n ses wait url
                           (<["Authorization" := HBearer tok]> h) (Some r)) w2
              = (x, w') ->
              keeps_files w w').
    { intros r w2 K2 Hk.
      assert (Hr2 : _reuse_session (self w2) = false).
      { destruct K2 as (C2 & _).
        destruct (config_fields _ _ C2) as (_ & _ & -> & _). exact Hr. }
      destruct (negb (ok r)).
      - unfold sleep in Hk. rewrite bind_emit in Hk.
        eapply keeps_files_trans; [exact K2 |].
        eapply keeps_files_trans;
          [| exact (IH _ _ (log (EvSleep wait) w2) Hr2 Hk)].
        split; [done |]. split; [done |].
        eexists. split; [done |]. by repeat constructor.
      - destruct ((status_code r =? 200) || (status_code r =? 201)).
        + eapply keeps_files_trans; [exact K2 |].
          exact (auth_success_keeps_files _ _ _ _ _ Hr2 Hk).
        + eapply keeps_files_trans; [exact K2 |]. exact (IH _ _ _ Hr2 Hk). }
    destruct ses as [s|].
    + rewrite bind_ret in H. eapply Hstep; [exact K1 | exact H].
    + rewrite bind_send in H.
      match type of H with
      | context [http ?a ?b ?c ?d] => destruct (http a b c d) as [e|resp]
      end.
      * inversion H; subst. eapply keeps_files_trans; [exact K1 |].
        split; [done |]. split; [done |].
        eexists. split; [done |]. by repeat constructor.
      * eapply Hstep; [| exact H].
        eapply keeps_files_trans; [exact K1 |].
        split; [done |]. split; [done |].
        eexists. split; [done |]. by repeat constructor.
Qed.

Lemma _authenticate_keeps_files attempts ses wait w r w' :
  _reuse_session (self w) = false ->
  _authenticate attempts ses wait w = (r, w') -> keeps_files w w'.
Proof.
  intros Hr H.
  destruct (_authenticate_unfold _ _ _ _ _ _ H) as (x & wl & Hloop & Htr & Hx).
  assert (K0 : keeps_files w (log (EvAuthenticate attempts ses) w)).
  { split; [done |]. split; [done |].
    eexists. split; [done |]. by repeat constructor. }
  pose proof (auth_loop_keeps_files _ _ _ _ _ _
                (log (EvAuthenticate attempts ses) w) _ _ Hr Hloop) as K1.
  eapply keeps_files_trans; [exact K0 |].
  destruct x as [[v|req]|e].
  - destruct Hx as [_ ->]. exact K1.
  - destruct Hx as [-> _].
    destruct K1 as (C1 & F1 & l1 & T1 & N1).
    split; [exact C1 |]. split; [exact F1 |]. by exists l1.
  - destruct Hx as [_ ->]. exact K1.
Qed.

(** X9: when the object was made without [reuse_session], a call of
    [_authenticate] writes no cache file, whatever the server answers and
    whether a response was handed in or not: the files are as they were
    and nothing is saved. *)
Theorem authenticate_without_reuse_saves_nothing attempts ses wait w r w' :
  _reuse_session (self w) = false ->
  _authenticate attempts ses wait w = (r, w') ->
  files w' = files w /\ Forall no_save (since w w').
Proof.
  intros Hr H.
  destruct (_authenticate_keeps_files _ _ _ _ _ _ Hr H) as (_ & F & l & T & N).
  split; [exact F |]. by rewrite (since_app _ _ _ T).
Qed.

(** X11: a constructor called with [reuse_session=False] writes no cache
    file: it calls [_authenticate()] once, with the default arguments, the
    files are as they were and nothing is saved. *)
Theorem init_without_reuse_saves_nothing user pw dbg persist url file timeout w :
  files (snd (Ring__init__ user pw dbg persist url false file timeout w))
  = files w /\
  Forall no_save
    (since w (snd (Ring__init__ user pw dbg persist url false file timeout w))) /\
  auth_calls
    (since w (snd (Ring__init__ user pw dbg persist url false file timeout w)))
  = [(RETRY_TOKEN (const w), None)].
Proof.
  rewrite Ring__init___initialised. unfold full_authentication.
  set (w0 := initialised user pw dbg persist url false file timeout w).
  assert (Hrun : exists r w', _authenticate_default w0 = (r, w') /\
                   snd ((_ <- _authenticate_default ;; ret tt) w0) = w').
  { unfold bind. destruct (_authenticate_default w0) as [[b|e] w']; eauto. }
  destruct Hrun as (r & w' & Ha & ->).
  destruct (_authenticate_default_trace _ _ _ Ha) as (_ & _ & l & T & F).
  unfold _authenticate_default in Ha. rewrite bind_get_const in Ha.
  assert (Hreuse : _reuse_session (self w0) = false) by reflexivity.
  destruct (_authenticate_keeps_files _ _ _ _ _ _ Hreuse Ha)
    as (_ & Hf & l' & T' & N).
  assert (Hs : since w w' = EvAuthenticate (RETRY_TOKEN (const w)) None :: l).
  { apply since_app. exact T. }
  split; [exact Hf |]. split.
  - rewrite (since_app w w' l') by exact T'. exact N.
  - rewrite Hs. simpl.
    by rewrite (auth_calls_inner l) by (by apply Forall_inner_not_auth_call).
Qed.

(** ** With [reuse_session] a successful login is saved *)

Lemma save_session_record w u w' :
  save_session w = (u, w') ->
  _reuse_session (self w) = true ->
  auth (self w') = auth (self w) /\
  exists d,
    files w' !! cache_file (self w) = Some d /\
    d !! "account" = Some (JStr (username (self w))) /\
    d !! "token" = Some (token (self w)) /\
    d !! "auth" = Some (auth (self w)) /\
    last (trace w') = Some (EvSaveCache (cache_file (self w)) d).
Proof.
  unfold save_session. rewrite bind_get_self. intros H Hr.
  rewrite Hr in H. simpl in H.
  destruct w as [s tr en co fs ca pd].
  destruct s as [? ? ? ? ? ? ? ? ? ? ? c ? ?].
  unfold bind, cache_setitem, get_cache, _save_cache in H.
  destruct c as [|d0]; simpl in H; inversion H; subst; simpl;
    (split; [done |]); eexists;
    (split; [apply lookup_insert_eq |]);
    (split; [by rewrite !lookup_insert_ne, lookup_insert_eq by done |]);
    (split; [by rewrite lookup_insert_ne, lookup_insert_eq by done |]);
    (split; [by rewrite lookup_insert_eq | apply last_snoc]).
Qed.

Lemma auth_success_saved resp h w x w' :
  auth_success resp h w = (Ok x, w') ->
  _reuse_session (self w) = true ->
  exists d,
    files w' !! cache_file (self w) = Some d /\
    d !! "account" = Some (JStr (username (self w))) /\
    d !! "token" = Some (token (self w')) /\
    d !! "auth" = Some (auth (self w')) /\
    last (trace w') = Some (EvSaveCache (cache_file (self w)) d).
Proof.
  unfold auth_success. intros H Hr.
  apply bind_inv in H as [(u1 & w1 & H1 & H)|(e & _ & ?)]; [| done].
  rewrite bind_modify_self, bind_get_const, bind_get_self, bind_modify_self in H.
  apply bind_inv in H as [(u2 & w2 & H2 & H)|(e & _ & ?)]; [| done].
  apply bind_inv in H as [(u3 & w3 & H3 & H)|(e & _ & ?)]; [| done].
  inversion H; subst. clear H.
  pose proof (read_session_token_frame _ _ _ _ H1) as Fk. simpl in Fk.
  pose proof (persist_push_token_self _ _ _ _ H2) as Fs. simpl in Fs.
  assert (Hk2 : config (self w2) = config (self w)) by (by rewrite Fs).
  destruct (config_fields _ _ Hk2) as (Hu & Hf & Hre & _).
  rewrite <- Hre in Hr.
  destruct (save_session_run _ _ _ H3) as (_ & _ & St & _).
  destruct (save_session_record _ _ _ H3 Hr)
    as (Sa & d & Hd & Hacc & Htok & Hauth & Hlast).
  exists d. rewrite <- Hf, <- Hu, St, Sa. done.
Qed.

(** X10: with [reuse_session], a call of [_authenticate] that returns
    after its last post was answered 200 or 201 has written the cache
    file: the record holds the user name as account, the session token
    and the OAuth token of the object, and saving it was the last thing
    the call did. *)
Theorem authenticate_saves_session attempts wait w b w' rq resp :
  _authenticate attempts None wait w = (Ok b, w') ->
  last (auth_posts (since w w')) = Some (rq, inr resp) ->
  status_code resp = 200 \/ status_code resp = 201 ->
  _reuse_session (self w) = true ->
  exists d,
    files w' !! cache_file (self w) = Some d /\
    d !! "account" = Some (JStr (username (self w))) /\
    d !! "token" = Some (token (self w')) /\
    d !! "auth" = Some (auth (self w')) /\
    last (since w w') = Some (EvSaveCache (cache_file (self w)) d).
Proof.
  intros H Hlast Hst Hr.
  destruct (_authenticate_unfold _ _ _ _ _ _ H) as (x & wl & Hloop & Htr & Hx).
  destruct (auth_loop_outcome _ _ _ _ _ _ _ _ Hloop) as (l & T & _ & _ & Hcase).
  assert (Hs : since w w' = EvAuthenticate attempts None :: l).
  { apply since_app. rewrite Htr, T. simpl. by list_assoc. }
  rewrite Hs in *. simpl in Hlast.
  destruct Hcase as [(HF & _ & _)
                    |(l1 & rq' & resp' & w1 & l2 & -> & F2 & _ & S1 & C1 & Hsucc)].
  { apply last_Some_elem_of in Hlast.
    rewrite Forall_forall in HF. apply HF in Hlast.
    unfold unsuccessful, no_success in Hlast. simpl in Hlast. lia. }
  rewrite exchanges_app in Hlast. simpl in Hlast.
  rewrite (exchanges_after_success _ F2), last_snoc in Hlast.
  injection Hlast as -> ->.
  destruct (session_state_fields _ _ S1) as (Hcfg & _).
  simpl in Hcfg. destruct (config_fields _ _ Hcfg) as (Hu & Hf & Hre & _).
  destruct x as [x|e]; [| by destruct Hx].
  pose proof (auth_success_ok _ _ _ _ _ Hsucc) as (-> & _).
  destruct Hx as [_ ->].
  rewrite <- Hre in Hr.
  destruct (auth_success_saved _ _ _ _ _ Hsucc Hr)
    as (d & Hd & Hacc & Htok & Hauth & Hl).
  exists d. rewrite <- Hf, <- Hu. repeat (split; [done |]).
  apply last_Some in Hl as [c Hc].
  apply (last_of_suffix (trace w) _ c); [| done].
  rewrite <- Hc, T. simpl. by list_assoc.
Qed.

(** ** query: what ends the loop *)

(** A 200 or 204 answer is the last event of the loop. *)
Lemma loop_run_final_last url m raw extra jb qt hdr n w l r w' :
  loop_run url m raw extra jb qt hdr n w l r w' ->
  forall rq resp,
    In (rq, inr resp) (query_exchanges l) ->
    status_code resp = 200 \/ status_code resp = 204 ->
    last l = Some (EvHttp QueryReq rq (inr resp)).
Proof.
  induction 1; intros rq0 resp0 Hin Hs; qx_in Hin.
  - done.
  - done.
  - destruct Hin as [Hin|[]]. by inversion Hin.
  - destruct Hin as [Hin|[]]. by inversion Hin.
  - destruct Hin as [Hin|Hin]; [inversion Hin; subst; lia |].
    rewrite last_cons. by rewrite (IHloop_run _ _ Hin Hs).
  - destruct Hin as [Hin|[]]. inversion Hin; subst. lia.
  - destruct Hin as [Hin|Hin]; [inversion Hin; subst; lia |].
    rewrite !last_cons, last_app. by rewrite (IHloop_run _ _ Hin Hs).
Qed.

(** A transport failure ends the loop with its exception. *)
Lemma loop_run_transport url m raw extra jb qt hdr n w l r w' :
  loop_run url m raw extra jb qt hdr n w l r w' ->
  forall rq e,
    In (rq, inl e) (query_exchanges l) ->
    r = Raise e /\ last l = Some (EvHttp QueryReq rq (inl e)).
Proof.
  induction 1; intros rq0 e0 Hin; qx_in Hin.
  - done.
  - done.
  - destruct Hin as [Hin|[]]. by inversion Hin.
  - destruct Hin as [Hin|[]]. by inversion Hin.
  - destruct Hin as [Hin|Hin]; [by inversion Hin |].
    destruct (IHloop_run _ _ Hin) as [-> Hl].
    split; [done |]. rewrite last_cons. by rewrite Hl.
  - destruct Hin as [Hin|[]]. by inversion Hin.
  - destruct Hin as [Hin|Hin]; [by inversion Hin |].
    destruct (IHloop_run _ _ Hin) as [-> Hl].
    split; [done |]. rewrite !last_cons, last_app. by rewrite Hl.
Qed.

(** Every request of the loop is the one request of the call, its
    parameters apart. *)
Lemma loop_run_requests url m raw extra jb qt hdr n w l r w' :
  loop_run url m raw extra jb qt hdr n w l r w' ->
  Forall (fun x => exists p, fst x = query_request url m jb qt hdr p)
         (query_exchanges l).
Proof.
  induction 1; qx; repeat constructor; eauto.
Qed.

Lemma last_since_loop (pro pre l : list event) x :
  last l = Some x -> last (pro ++ pre ++ l) = Some x.
Proof. intros H. by rewrite !last_app, H. Qed.

(** X12: with [raw] set, a 200 or 204 answer makes [query] return that
    response object itself, whatever the method and whatever the body,
    and the answer is the last thing of the call: nothing is sent after
    it. *)
Theorem query_raw_returns_response
    url attempts m extra jb timeout w r w' rq resp :
  query url attempts m true extra jb timeout w = (r, w') ->
  In (rq, inr resp) (query_exchanges (since w w')) ->
  status_code resp = 200 \/ status_code resp = 204 ->
  r = Ok (QResp resp) /\
  last (since w w') = Some (EvHttp QueryReq rq (inr resp)).
Proof.
  intros H Hin Hs.
  destruct (query_run _ _ _ _ _ _ _ _ _ _ H) as (pre & l & E & Fp & _ & Hcase).
  rewrite E, query_exchanges_proactive in Hin by done.
  destruct Hcase as [[-> _]|(w0 & tok & _ & _ & _ & Hr)]; [done |].
  split.
  - exact (loop_run_final _ _ _ _ _ _ _ _ _ _ _ _ Hr _ _ Hin Hs).
  - rewrite E. apply last_since_loop.
    exact (loop_run_final_last _ _ _ _ _ _ _ _ _ _ _ _ Hr _ _ Hin Hs).
Qed.

(** X13: without [raw], a GET that is answered 200 or 204 with a body
    that is no JSON document (the empty body of a 204, for one) does not
    return: the [ValueError] of [req.json()] is raised to the caller. *)
Theorem query_get_undecodable_body_raises
    url attempts extra jb timeout w r w' rq resp :
  query url attempts GET false extra jb timeout w = (r, w') ->
  In (rq, inr resp) (query_exchanges (since w w')) ->
  status_code resp = 200 \/ status_code resp = 204 ->
  body resp = None ->
  r = Raise ValueError.
Proof.
  intros H Hin Hs Hb.
  destruct (query_run _ _ _ _ _ _ _ _ _ _ H) as (pre & l & E & Fp & _ & Hcase).
  rewrite E, query_exchanges_proactive in Hin by done.
  destruct Hcase as [[-> _]|(w0 & tok & _ & _ & _ & Hr)]; [done |].
  rewrite (loop_run_final _ _ _ _ _ _ _ _ _ _ _ _ Hr _ _ Hin Hs).
  unfold query_result. simpl. by rewrite Hb.
Qed.

(** X14: a transport failure of a request of the query loop is not
    retried, whatever is left of [attempts]: the exception is raised to
    the caller and the failed request is the last thing of the call. *)
Theorem query_transport_failure_not_retried
    url attempts m raw extra jb timeout w r w' rq e :
  query url attempts m raw extra jb timeout w = (r, w') ->
  In (rq, inl e) (query_exchanges (since w w')) ->
  r = Raise e /\
  last (since w w') = Some (EvHttp QueryReq rq (inl e)).
Proof.
  intros H Hin.
  destruct (query_run _ _ _ _ _ _ _ _ _ _ H) as (pre & l & E & Fp & _ & Hcase).
  rewrite E, query_exchanges_proactive in Hin by done.
  destruct Hcase as [[-> _]|(w0 & tok & _ & _ & _ & Hr)]; [done |].
  destruct (loop_run_transport _ _ _ _ _ _ _ _ _ _ _ _ Hr _ _ Hin) as [-> Hl].
  split; [done |]. rewrite E. by apply last_since_loop.
Qed.

(** X15: all requests of one [query] call are the same request, their
    parameters apart: the method and the URL of the call, no form data,
    the JSON body for a POST only, the timeout of the call or else the
    object's, and the one [Authorization] header made before the loop,
    also after a re-authentication. *)
Theorem query_requests_alike url attempts m raw extra jb timeout w :
  exists tok,
    Forall (fun x =>
              exists p,
                fst x = mkRequest m url (Some p)
                          {["Authorization" := HBearer tok]} None
                          (match m with POST => jb | _ => JNull end)
                          (default (_timeout (self w)) timeout))
      (query_exchanges
         (since w (snd (query url attempts m raw extra jb timeout w)))).
Proof.
  destruct (query url attempts m raw extra jb timeout w) as [r w'] eqn:H.
  simpl.
  destruct (query_run _ _ _ _ _ _ _ _ _ _ H) as (pre & l & E & Fp & _ & Hcase).
  rewrite E, query_exchanges_proactive by done.
  destruct Hcase as [[-> _]|(w0 & tok & _ & _ & _ & Hr)].
  - exists JNull. constructor.
  - exists tok.
    exact (loop_run_requests _ _ _ _ _ _ _ _ _ _ _ _ Hr).
Qed.

(** ** query: errors before any request *)

Lemma query_loop_no_params n url m raw extra jb qt hdr w :
  params (self w) = None -> known_method m ->
  query_loop (S n) url m raw extra jb qt hdr w
  = (Raise (if truthy_dict extra then AttributeError else TypeError), w).
Proof.
  intros Hp Hm. simpl. rewrite bind_get_self, Hp.
  destruct (truthy_dict extra); [reflexivity |].
  rewrite bind_ret. by destruct m.
Qed.

Lemma query_loop_unknown_method n url name raw extra jb qt hdr w p :
  params (self w) = Some p ->
  query_loop (S n) url (OTHER name) raw extra jb qt hdr w
  = (Raise (UnboundLocalError "req"), with_merged extra p w).
Proof.
  intros Hp. simpl. rewrite bind_get_self, Hp. unfold with_merged, merged.
  by destruct (truthy_dict extra).
Qed.

(** What [query] does before its loop when debug mode is off. *)
Lemma query_without_debug url attempts m raw extra jb timeout w :
  debug (self w) = false ->
  query url attempts m raw extra jb timeout w
  = (tok <- _get_oauth_token ;;
     query_loop (iterations attempts) url m raw extra jb
       (default (_timeout (self w)) timeout)
       {["Authorization" := HBearer tok]}) w.
Proof.
  intros Hd. unfold query. rewrite bind_get_self, Hd. reflexivity.
Qed.

(** X17: a [query] on an object that never logged in ([self.params] is
    still [None]) sends nothing and raises: [TypeError] from
    [urlencode(None)], or [AttributeError] from [None.update] when
    [extra_params] are given; unless the OAuth helper failed first, whose
    exception is then the one raised. *)
Theorem query_before_login_raises url attempts m raw extra jb timeout w r w' :
  query url attempts m raw extra jb timeout w = (r, w') ->
  params (self w) = None ->
  debug (self w) = false ->
  0 <= attempts ->
  known_method m ->
  query_exchanges (since w w') = [] /\
  (r = Raise (if truthy_dict extra then AttributeError else TypeError) \/
   exists e, _get_oauth_token w = (Raise e, w') /\ r = Raise e).
Proof.
  intros H Hp Hd Ha Hm. rewrite query_without_debug in H by done.
  destruct (iterations attempts) as [|n] eqn:Hn;
    [unfold iterations in Hn; lia |].
  apply bind_inv in H as [(tok & w1 & Ht & H)|(e & Ht & ->)].
  - destruct (emits__get_oauth_token _ _ _ Ht) as (_ & _ & l0 & T0 & F0).
    pose proof (_get_oauth_token_params _ _ _ Ht) as P1. simpl in P1.
    rewrite query_loop_no_params in H by (by rewrite ?P1).
    inversion H; subst.
    rewrite (since_app _ _ _ T0), (exchanges_token _ _ F0).
    split; [done | by left].
  - destruct (emits__get_oauth_token _ _ _ Ht) as (_ & _ & l0 & T0 & F0).
    rewrite (since_app _ _ _ T0), (exchanges_token _ _ F0).
    split; [done |]. right. eauto.
Qed.

(** X18: a method other than GET, PUT and POST sends nothing: the first
    iteration ends in [UnboundLocalError], [req] never having been
    assigned (unless the OAuth helper failed first). *)
Theorem query_unknown_method_raises
    url attempts name raw extra jb timeout w r w' p :
  query url attempts (OTHER name) raw extra jb timeout w = (r, w') ->
  params (self w) = Some p ->
  debug (self w) = false ->
  0 <= attempts ->
  query_exchanges (since w w') = [] /\
  (r = Raise (UnboundLocalError "req") \/
   exists e, _get_oauth_token w = (Raise e, w') /\ r = Raise e).
Proof.
  intros H Hp Hd Ha. rewrite query_without_debug in H by done.
  destruct (iterations attempts) as [|n] eqn:Hn;
    [unfold iterations in Hn; lia |].
  apply bind_inv in H as [(tok & w1 & Ht & H)|(e & Ht & ->)].
  - destruct (emits__get_oauth_token _ _ _ Ht) as (_ & _ & l0 & T0 & F0).
    pose proof (_get_oauth_token_params _ _ _ Ht) as P1. simpl in P1.
    rewrite (query_loop_unknown_method _ _ _ _ _ _ _ _ _ p) in H
      by (by rewrite P1).
    inversion H; subst.
    rewrite (since_app w _ l0) by (by rewrite with_merged_trace).
    rewrite (exchanges_token _ _ F0).
    split; [done | by left].
  - destruct (emits__get_oauth_token _ _ _ Ht) as (_ & _ & l0 & T0 & F0).
    rewrite (since_app _ _ _ T0), (exchanges_token _ _ F0).
    split; [done |]. right. eauto.
Qed.

(** ** query: the session is touched only by re-authentication *)

Lemma quiet_keeps_bind {A B X} (f : World -> X) (m : M A) (k : A -> M B) :
  quiet_keeps f m -> (forall a, quiet_keeps f (k a)) ->
  quiet_keeps f (bind m k).
Proof.
  intros Hm Hk w r w' H.
  destruct (bind_inv _ _ _ _ _ H) as [(a & w1 & H1 & H2)|(e & H1 & _)].
  - destruct (Hm _ _ _ H1) as (l1 & T1 & K1).
    destruct (Hk _ _ _ _ H2) as (l2 & T2 & K2).
    exists (l1 ++ l2). split; [rewrite T2, T1; by list_assoc |].
    rewrite auth_calls_app. intros Hq.
    apply app_eq_nil in Hq as [Q1 Q2]. by rewrite (K2 Q2), (K1 Q1).
  - exact (Hm _ _ _ H1).
Qed.

Lemma quiet_keeps_of {A X} (f : World -> X) (m : M A) :
  preserves f m -> emits (fun _ => True) m -> quiet_keeps f m.
Proof.
  intros P E w r w' H.
  destruct (E _ _ _ H) as (_ & _ & l & T & _).
  exists l. split; [exact T |]. intros _. exact (P _ _ _ H).
Qed.

(** A run that calls [_authenticate] shows it in its trace. *)
Lemma authenticate_then_noisy {B} (k : bool -> M B) w r w' :
  (forall b, emits (fun _ => True) (k b)) ->
  bind _authenticate_default k w = (r, w') ->
  exists l, trace w' = trace w ++ l /\ auth_calls l <> [].
Proof.
  intros Ek H.
  destruct (bind_inv _ _ _ _ _ H) as [(b & w1 & H1 & H2)|(e & H1 & _)].
  - destruct (_authenticate_default_trace _ _ _ H1) as (_ & _ & l & T & _).
    destruct (Ek _ _ _ _ H2) as (_ & _ & l2 & T2 & _).
    exists (EvAuthenticate (RETRY_TOKEN (const w)) None :: l ++ l2).
    split; [rewrite T2, T; by list_assoc | done].
  - destruct (_authenticate_default_trace _ _ _ H1) as (_ & _ & l & T & _).
    eexists. split; [exact T | done].
Qed.

Lemma query_loop_quiet_keeps n url m raw extra jb qt hdr :
  quiet_keeps login_state (query_loop n url m raw extra jb qt hdr).
Proof.
  induction n as [|n IH]; simpl.
  - apply quiet_keeps_of; [apply preserves_ret | apply emits_ret].
  - apply quiet_keeps_bind.
    { apply quiet_keeps_of; [repeat preserves_step | repeat emits_step]. }
    intros s. apply quiet_keeps_bind.
    { apply quiet_keeps_of; [repeat preserves_step | repeat emits_step]. }
    intros p. apply quiet_keeps_bind.
    { apply quiet_keeps_of; [repeat preserves_step | repeat emits_step]. }
    intros req. destruct (status_code req =? 401).
    + intros w r w' H. rewrite bind_modify_self in H.
      destruct (authenticate_then_noisy
                  (fun _ => query_loop n url m raw extra jb qt hdr) _ _ _
                  (fun _ => emits_query_loop _ _ _ _ _ _ _ n) H)
        as (l & T & K).
      exists l. split; [exact T | done].
    + destruct ((status_code req =? 200) || (status_code req =? 204));
        [| exact IH].
      apply quiet_keeps_of; [repeat preserves_step | repeat emits_step].
Qed.

(** X16: a [query] call that does not call [_authenticate] leaves the
    session as it was: whether it is connected, the session token, the
    cache and the cache files; what it may change is the OAuth token, its
    refresh time and, with [extra_params], [self.params]. *)
Theorem query_keeps_session url attempts m raw extra jb timeout w r w' :
  query url attempts m raw extra jb timeout w = (r, w') ->
  auth_calls (since w w') = [] ->
  login_state w' = login_state w.
Proof.
  intros H Hq.
  assert (K : quiet_keeps login_state
                (query url attempts m raw extra jb timeout)).
  { unfold query. apply quiet_keeps_bind.
    { apply quiet_keeps_of; [repeat preserves_step | repeat emits_step]. }
    intros s. apply quiet_keeps_bind.
    { unfold when. destruct (debug s && not_connected (is_connected s)).
      - intros w0 r0 w0' H0.
        destruct (authenticate_then_noisy (fun _ => ret tt) _ _ _
                    (fun _ => emits_ret _ tt) H0) as (l & T & K).
        exists l. split; [exact T | done].
      - apply quiet_keeps_of; [apply preserves_ret | apply emits_ret]. }
    intros _. apply quiet_keeps_bind.
    { apply quiet_keeps_of.
      - unfold _get_oauth_token. repeat preserves_step.
      - eapply emits_weaken; [| apply emits__get_oauth_token]. done. }
    intros tok. apply query_loop_quiet_keeps. }
  destruct (K _ _ _ H) as (l & T & Hk).
  rewrite (since_app _ _ _ T) in Hq. exact (Hk Hq).
Qed.

(** ** The cached session: what is validated, and what follows a refusal *)

Lemma cached_session_unfold w d tok :
  files w !! cache_file (self w) = Some d ->
  d !! "token" = Some tok -> is_none tok = false ->
  d !! "account" = Some (JStr (username (self w))) ->
  _process_cached_session w
  = (req <- query (API_URI (const w) ++ DEVICES_ENDPOINT (const w))%string
              (RETRY_TOKEN (const w)) GET true None JNull None ;;
     after_validation (const w) req) (adopted d tok w).
Proof.
  intros Hf Htok Hn Hacc. unfold _process_cached_session.
  rewrite bind_get_self, bind_get_const.
  unfold bind at 1, _exists_cache.
  rewrite Hf. rewrite bool_decide_eq_true_2 by eauto.
  unfold bind at 1, _read_cache. rewrite Hf. simpl.
  rewrite bind_modify_self.
  unfold bind at 1, map_getitem at 1. rewrite Htok. simpl.
  rewrite Hn. unfold map_getitem. rewrite Hacc.
  unfold bind at 1. simpl. rewrite String.eqb_refl. simpl.
  rewrite !bind_modify_self.
  unfold adopted, after_validation, session_params.
  by destruct (d !! "auth").
Qed.

Lemma after_validation_trace c req w r w' :
  after_validation c req w = (r, w') ->
  exists la, trace w' = trace w ++ la /\ Forall not_query la /\
    (validated req w = (Ok None, w) ->
     exists u, la = EvAuthenticate (RETRY_TOKEN (const w)) None :: u /\
               Forall is_inner u).
Proof.
  unfold after_validation. intros H.
  assert (Hdefault : forall w0 r0 w0',
            (_ <- _authenticate_default ;; ret tt) w0 = (r0, w0') ->
            exists u, trace w0' = trace w0 ++
                        EvAuthenticate (RETRY_TOKEN (const w0)) None :: u /\
                      Forall is_inner u).
  { intros w0 r0 w0' H0.
    apply bind_inv in H0 as [(b & wa & Ha & H0)|(e & Ha & _)].
    - inversion H0; subst.
      destruct (_authenticate_default_trace _ _ _ Ha) as (_ & _ & u & Tu & Fu).
      eauto.
    - destruct (_authenticate_default_trace _ _ _ Ha) as (_ & _ & u & Tu & Fu).
      eauto. }
  destruct req as [rv|j]; unfold validated in *.
  - rewrite bind_ret in H.
    destruct (ok rv && (status_code rv =? 200)) eqn:Hv.
    + assert (Hu : exists u, trace w' = trace w ++
                     EvAuthenticate (RETRY_TOKEN c) (Some rv) :: u /\
                     Forall is_inner u).
      { apply bind_inv in H as [(b & wa & Ha & H)|(e & Ha & _)].
        - inversion H; subst.
          destruct (_authenticate_trace _ _ _ _ _ _ Ha) as (_ & _ & u & Tu & Fu).
          eauto.
        - destruct (_authenticate_trace _ _ _ _ _ _ Ha) as (_ & _ & u & Tu & Fu).
          eauto. }
      destruct Hu as (u & Tu & Fu). eexists. split; [exact Tu |]. split.
      * constructor; [done |]. by apply Forall_inner_not_query.
      * intros Hv'. inversion Hv'.
    + destruct (Hdefault _ _ _ H) as (u & Tu & Fu).
      eexists. split; [exact Tu |]. split.
      * constructor; [done |]. by apply Forall_inner_not_query.
      * intros _. eauto.
  - destruct (truthy j) eqn:Hj.
    + inversion H; subst. exists []. rewrite app_nil_r.
      split; [done |]. split; [constructor |]. intros Hv'. inversion Hv'.
    + rewrite bind_ret in H. destruct (Hdefault _ _ _ H) as (u & Tu & Fu).
      eexists. split; [exact Tu |]. split.
      * constructor; [done |]. by apply Forall_inner_not_query.
      * intros _. eauto.
Qed.

(** The constructor on a cache record of its user, without debug mode:
    the events are those of the validation query and then those of the
    authentication that follows. *)
Lemma cached_session_run w d tok r w' :
  files w !! cache_file (self w) = Some d ->
  d !! "token" = Some tok -> is_none tok = false ->
  d !! "account" = Some (JStr (username (self w))) ->
  debug (self w) = false ->
  _process_cached_session w = (r, w') ->
  exists pre l la,
    since w w' = pre ++ l ++ la /\
    Forall is_token_event pre /\ Forall not_query la /\
    ((l = [] /\ la = []) \/
     exists w0 tk v wq,
       params (self w0) = Some (session_params (const w) tok) /\
       loop_run (API_URI (const w) ++ DEVICES_ENDPOINT (const w))%string
         GET true None JNull (_timeout (self w))
         {["Authorization" := HBearer tk]}
         (iterations (RETRY_TOKEN (const w))) w0 l v wq /\
       const wq = const w /\
       match v with
       | Raise e => la = []
       | Ok req =>
           validated req wq = (Ok None, wq) ->
           exists u, la = EvAuthenticate (RETRY_TOKEN (const w)) None :: u /\
                     Forall is_inner u
       end).
Proof.
  intros Hf Htok Hn Hacc Hd H.
  rewrite (cached_session_unfold w d tok Hf Htok Hn Hacc) in H.
  set (w4 := adopted d tok w) in H.
  assert (T4 : trace w4 = trace w)
    by (subst w4; unfold adopted; by destruct (d !! "auth")).
  assert (C4 : const w4 = const w)
    by (subst w4; unfold adopted; by destruct (d !! "auth")).
  assert (D4 : debug (self w4) = false)
    by (subst w4; unfold adopted; by destruct (d !! "auth")).
  assert (P4 : params (self w4) = Some (session_params (const w) tok))
    by (subst w4; unfold adopted; by destruct (d !! "auth")).
  assert (O4 : _timeout (self w4) = _timeout (self w))
    by (subst w4; unfold adopted; by destruct (d !! "auth")).
  assert (Hsince : forall x, since w x = since w4 x)
    by (intros x; unfold since; by rewrite T4).
  rewrite Hsince.
  assert (Hpro : proactive w4 = []) by (unfold proactive; by rewrite D4).
  apply bind_inv in H as [(v & wq & Hquery & H)|(e & Hquery & ->)].
  - destruct (query_run _ _ _ _ _ _ _ _ _ _ Hquery)
      as (pre & l & E & Fp & Ftok & Hcase).
    rewrite Hpro in E. simpl in E. specialize (Ftok Hpro).
    destruct (emits_query _ _ _ _ _ _ _ _ _ _ Hquery) as (_ & Cq & lq & Tq & _).
    assert (Hlq : lq = pre ++ l) by (by rewrite <- E, (since_app _ _ _ Tq)).
    subst lq.
    destruct (after_validation_trace _ _ _ _ _ H) as (la & Ta & Fa & Hnone).
    exists pre, l, la. split.
    { apply since_app. rewrite Ta, Tq. by list_assoc. }
    split; [done |]. split; [done |].
    destruct Hcase as [[-> [e ?]]|(w0 & tk & _ & _ & Hp0 & Hr)]; [done |].
    right. exists w0, tk, (Ok v), wq.
    split; [rewrite (Hp0 Hpro); exact P4 |].
    split; [simpl in Hr; rewrite O4 in Hr; exact Hr |].
    split; [congruence |].
    intros Hv. rewrite Cq, C4 in Hnone. exact (Hnone Hv).
  - destruct (query_run _ _ _ _ _ _ _ _ _ _ Hquery)
      as (pre & l & E & Fp & Ftok & Hcase).
    rewrite Hpro in E. simpl in E. specialize (Ftok Hpro).
    destruct (emits_query _ _ _ _ _ _ _ _ _ _ Hquery) as (_ & Cq & lq & Tq & _).
    exists pre, l, []. split; [by rewrite app_nil_r |].
    split; [done |]. split; [constructor |].
    destruct Hcase as [[-> _]|(w0 & tk & _ & _ & Hp0 & Hr)]; [by left |].
    right. exists w0, tk, (Raise e), w'.
    split; [rewrite (Hp0 Hpro); exact P4 |].
    split; [simpl in Hr; rewrite O4 in Hr; exact Hr |].
    split; [congruence | done].
Qed.

(** With [raw] set and every request answered by a status other than 200
    and 401, the loop calls no [_authenticate] and returns [None] or a 204
    response. *)
Lemma loop_run_unvalidated url m extra jb qt hdr n w l r w' :
  loop_run url m true extra jb qt hdr n w l r w' ->
  query_exchanges l <> [] ->
  Forall (answered unvalidated) (query_exchanges l) ->
  auth_calls l = [] /\
  (r = Ok QNone \/
   exists resp, r = Ok (QResp resp) /\ status_code resp = 204).
Proof.
  induction 1 as
    [ w | n w e w' T Hwhy | n w p e Hp Hm rq Hh
    | n w p resp Hp Hm rq Hh Hne Hs
    | n w p resp l r w' Hp Hm rq Hh Hne H200 H204 Hrun IH
    | n w p resp la e w2 Hp Hm rq Hh H401 w1 Ha Ta Fa
    | n w p resp la b w2 l r w' Hp Hm rq Hh H401 w1 Ha Ta Fa Hrun IH ];
    intros Hsent HF; qx_in Hsent; qx_in HF; try done.
  - inversion HF as [|? ? (r0 & Hr0 & _) _]. done.
  - inversion HF as [|? ? (r0 & Hr0 & Hs') _]. simpl in Hr0.
    inversion Hr0; subst. unfold unvalidated in Hs'.
    split; [done |]. right. exists r0. split; [done | lia].
  - inversion HF; subst. simpl.
    destruct (query_exchanges l) as [|x xs] eqn:Hx.
    + pose proof (loop_run_quiet_nil _ _ _ _ _ _ _ _ _ _ _ _ Hrun Hx) as ->.
      apply loop_run_nil_inv in Hrun as [(-> & _ & ->)|[Hnone|Hno]];
        [by split; [| left] | | done].
      simpl in Hnone. by rewrite (with_merged_params _ _ _ Hp) in Hnone.
    + destruct IH as [Hq Hres]; done.
  - inversion HF as [|? ? (r0 & Hr0 & Hs') _]. simpl in Hr0.
    inversion Hr0; subst. unfold unvalidated in Hs'. lia.
  - inversion HF as [|? ? (r0 & Hr0 & Hs') _]. simpl in Hr0.
    inversion Hr0; subst. unfold unvalidated in Hs'. lia.
Qed.

(** X19: the validation GET of a cached session carries the cached
    session token: when the constructor finds a cache record of its user
    with a token, the first request of the query loop is a GET to the
    devices endpoint whose parameters are the API version and the token
    of the record, with the timeout of the object. *)
Theorem init_validates_cached_token
    user pw persist url file timeout w d tok r w' rq ans rest :
  files w !! file = Some d ->
  d !! "token" = Some tok -> is_none tok = false ->
  d !! "account" = Some (JStr user) ->
  Ring__init__ user pw false persist url true file timeout w = (r, w') ->
  query_exchanges (since w w') = (rq, ans) :: rest ->
  rq_method rq = GET /\
  rq_url rq = (API_URI (const w) ++ DEVICES_ENDPOINT (const w))%string /\
  rq_params rq = Some (session_params (const w) tok) /\
  rq_timeout rq = timeout.
Proof.
  intros Hf Htok Hn Hacc H Hq.
  rewrite Ring__init___initialised in H.
  destruct (cached_session_run
              (initialised user pw false persist url true file timeout w)
              d tok _ _ Hf Htok Hn Hacc eq_refl H)
    as (pre & l & la & E & Fp & Fa & Hcase).
  assert (Hs : since w w'
               = since (initialised user pw false persist url true file
                          timeout w) w') by reflexivity.
  rewrite Hs, E in Hq.
  rewrite !exchanges_app, (exchanges_token _ _ Fp),
    (query_exchanges_not_query _ Fa), app_nil_r in Hq. simpl in Hq.
  destruct Hcase as [[-> _]|(w0 & tk & v & wq & Hp & Hr & _)]; [done |].
  destruct l as [|ev l]; [done |].
  destruct (loop_run_cons _ _ _ _ _ _ _ _ _ _ _ _ _ Hr)
    as (p & ans' & Hp' & ->).
  simpl in Hq. injection Hq as <- _ _.
  rewrite Hp in Hp'. injection Hp' as <-. simpl. done.
Qed.

(** X20: when the validation GET of a cached session is refused, the
    constructor authenticates in full.  With a cache record of its user,
    without debug mode, when the query loop sent a request and every one
    was answered by a status other than 200 and 401 (a 204, or the budget
    used up on 500s), [_authenticate] is called exactly once, with the
    default arguments: no response is handed in. *)
Theorem init_refused_validation_authenticates
    user pw persist url file timeout w d tok r w' :
  files w !! file = Some d ->
  d !! "token" = Some tok -> is_none tok = false ->
  d !! "account" = Some (JStr user) ->
  Ring__init__ user pw false persist url true file timeout w = (r, w') ->
  query_exchanges (since w w') <> [] ->
  Forall (answered unvalidated) (query_exchanges (since w w')) ->
  auth_calls (since w w') = [(RETRY_TOKEN (const w), None)].
Proof.
  intros Hf Htok Hn Hacc H Hsent HF.
  rewrite Ring__init___initialised in H.
  destruct (cached_session_run
              (initialised user pw false persist url true file timeout w)
              d tok _ _ Hf Htok Hn Hacc eq_refl H)
    as (pre & l & la & E & Fp & Fa & Hcase).
  assert (Hs : since w w'
               = since (initialised user pw false persist url true file
                          timeout w) w') by reflexivity.
  rewrite Hs, E in Hsent, HF |- *.
  rewrite !exchanges_app, (exchanges_token _ _ Fp),
    (query_exchanges_not_query _ Fa), app_nil_r in Hsent, HF.
  simpl in Hsent, HF.
  destruct Hcase as [[-> _]|(w0 & tk & v & wq & Hp & Hr & Cq & Hafter)];
    [done |].
  destruct (loop_run_unvalidated _ _ _ _ _ _ _ _ _ _ _ Hr Hsent HF)
    as (Hquiet & Hres).
  rewrite !auth_calls_app, Hquiet.
  rewrite (auth_calls_inner pre)
    by (by apply Forall_inner_not_auth_call, Forall_token_inner).
  simpl.
  assert (Hnone : exists req, v = Ok req /\ validated req wq = (Ok None, wq)).
  { destruct Hres as [->|(resp & -> & H204)].
    - exists QNone. done.
    - exists (QResp resp). split; [done |]. unfold validated, ret.
      rewrite H204. by rewrite andb_false_r. }
  destruct Hnone as (req & -> & Hv).
  destruct (Hafter Hv) as (u & -> & Fu). simpl.
  by rewrite (auth_calls_inner u) by (by apply Forall_inner_not_auth_call).
Qed.


(** ** __devices: the listing query and what is made of its answer *)

Lemma for_each_descriptions items ds w :
  described items ds ->
  for_each (fun obj => getitem obj "description") items w = (Ok ds, w).
Proof.
  induction 1 as [|obj d items ds (kvs & -> & Hd) _ IH]; [done |].
  simpl. unfold bind at 1. simpl. rewrite Hd. simpl.
  unfold bind at 1. by rewrite IH.
Qed.

Lemma for_each_missing_description good ds kvs rest w :
  described good ds ->
  assoc "description" kvs = None ->
  for_each (fun obj => getitem obj "description") (good ++ JObj kvs :: rest) w
  = (Raise (KeyError "description"), w).
Proof.
  intros Hg Hk. induction Hg as [|obj d good ds (okvs & -> & Hd) _ IH].
  - simpl. unfold bind at 1. simpl. by rewrite Hk.
  - simpl. unfold bind at 1. simpl. rewrite Hd. simpl.
    unfold bind at 1. by rewrite IH.
Qed.

Lemma append_devices_built {Dev} (new : json -> M Dev) ds w devs w' lst :
  built new ds w devs w' ->
  append_devices new ds lst w = ((lst ++ devs, None), w').
Proof.
  intros Hb. revert lst.
  induction Hb as [w|member rest w d w1 devs w2 Hn _ IH]; intros lst.
  - simpl. unfold no_op. by rewrite app_nil_r.
  - simpl. rewrite Hn, IH. by rewrite <- app_assoc.
Qed.

Lemma device_group_run {Dev} key (new : json -> M Dev) lst w :
  device_group key new lst w
  = match listing_query w with
    | (Ok v, w1) =>
        match (req <- qval_get v key ;; descriptions req) w1 with
        | (Ok members, w2) => append_devices new members lst w2
        | (Raise e, w2) => ((lst, Some e), w2)
        end
    | (Raise e, w1) => ((lst, Some e), w1)
    end.
Proof.
  unfold device_group, listing_query. rewrite !bind_get_const.
  unfold bind at 1.
  by destruct (query _ _ _ _ _ _ _ w) as [[v|e] w1].
Qed.

Lemma device_group_raises {Dev} key (new : json -> M Dev) lst w e w1 :
  listing_query w = (Raise e, w1) ->
  device_group key new lst w = ((lst, Some e), w1).
Proof. intros H. by rewrite device_group_run, H. Qed.

Lemma device_group_no_dictionary {Dev} key (new : json -> M Dev) lst w v w1 :
  listing_query w = (Ok v, w1) -> is_dict v = false ->
  device_group key new lst w = ((lst, Some AttributeError), w1).
Proof.
  intros H Hv. rewrite device_group_run, H.
  destruct v as [r|[| | | | |kvs]]; done.
Qed.

Lemma device_group_missing_key {Dev} key (new : json -> M Dev) lst w kvs w1 :
  listing_query w = (Ok (QVal (JObj kvs)), w1) ->
  assoc key kvs = None ->
  device_group key new lst w = ((lst, Some TypeError), w1).
Proof.
  intros H Hk. rewrite device_group_run, H.
  unfold bind, qval_get, dict_get. simpl. by rewrite Hk.
Qed.

Lemma device_group_missing_description {Dev} key (new : json -> M Dev) lst w
    kvs w1 good ds okvs rest :
  listing_query w = (Ok (QVal (JObj kvs)), w1) ->
  assoc key kvs = Some (JArr (good ++ JObj okvs :: rest)) ->
  described good ds ->
  assoc "description" okvs = None ->
  device_group key new lst w = ((lst, Some (KeyError "description")), w1).
Proof.
  intros H Hk Hg Hd. rewrite device_group_run, H.
  unfold bind at 1, qval_get, dict_get. simpl. rewrite Hk. simpl.
  unfold descriptions. unfold bind at 1. simpl.
  by rewrite (for_each_missing_description _ _ _ _ _ Hg Hd).
Qed.

Lemma device_group_built {Dev} key (new : json -> M Dev) lst w kvs w1
    items ds devs w2 :
  listing_query w = (Ok (QVal (JObj kvs)), w1) ->
  assoc key kvs = Some (JArr items) ->
  described items ds ->
  built new ds w1 devs w2 ->
  device_group key new lst w = ((lst ++ devs, None), w2).
Proof.
  intros H Hk Hd Hb. rewrite device_group_run, H.
  unfold bind at 1, qval_get, dict_get. simpl. rewrite Hk. simpl.
  unfold descriptions. unfold bind at 1. simpl.
  rewrite (for_each_descriptions _ _ _ Hd).
  by apply append_devices_built.
Qed.

Section DeviceListing.

Context {Dev : Type}.
Context (RingStickUpCam RingChime : json -> M Dev).
Context (RingDoorBell : json -> option bool -> M Dev).

Abbreviation devices_of := (__devices RingStickUpCam RingChime RingDoorBell).

(** When the first listing of a device type ends in an exception, that is
    the end of the [try] block. *)
Lemma __devices_stops device_type key w e w1 :
  listing_key device_type = Some key ->
  (forall new : json -> M Dev,
      device_group key new [] w = (([], Some e), w1)) ->
  devices_of device_type w = (swallowed [] e, w1).
Proof.
  unfold listing_key. intros Hkey Hg.
  assert (Hfin : forall out : (list Dev * option exn) * World,
            out = (([], Some e), w1) ->
            match out with
            | ((lst, None), w') => (Ok lst, w')
            | ((lst, Some AttributeError), w') => (Ok lst, w')
            | ((_, Some e), w') => (Raise e, w')
            end = (swallowed [] e, w1)).
  { intros out ->. by destruct e. }
  destruct (String.eqb device_type "stickup_cams") eqn:E1.
  { apply String.eqb_eq in E1. subst. injection Hkey as <-.
    unfold __devices. cbn [String.eqb Ascii.eqb Bool.eqb andb].
    apply Hfin. unfold and_then. by rewrite Hg. }
  destruct (String.eqb device_type "chimes") eqn:E2.
  { apply String.eqb_eq in E2. subst. injection Hkey as <-.
    unfold __devices. cbn [String.eqb Ascii.eqb Bool.eqb andb].
    apply Hfin. unfold and_then, no_op. by rewrite Hg. }
  destruct (String.eqb device_type "doorbells") eqn:E3; [| done].
  apply String.eqb_eq in E3. subst. injection Hkey as <-.
  unfold __devices. cbn [String.eqb Ascii.eqb Bool.eqb andb].
  apply Hfin. unfold and_then, no_op. by rewrite Hg.
Qed.

Lemma __devices_built_doorbells
    w kvs1 w1 items1 ds1 own w2 kvs2 w3 items2 ds2 shared w4 :
  listing_query w = (Ok (QVal (JObj kvs1)), w1) ->
  assoc "doorbots" kvs1 = Some (JArr items1) ->
  described items1 ds1 ->
  built (fun member => RingDoorBell member None) ds1 w1 own w2 ->
  listing_query w2 = (Ok (QVal (JObj kvs2)), w3) ->
  assoc "authorized_doorbots" kvs2 = Some (JArr items2) ->
  described items2 ds2 ->
  built (fun member => RingDoorBell member (Some true)) ds2 w3 shared w4 ->
  devices_of "doorbells" w = (Ok (own ++ shared), w4).
Proof.
  intros H1 K1 D1 B1 H2 K2 D2 B2.
  unfold __devices. cbn [String.eqb Ascii.eqb Bool.eqb andb].
  unfold and_then, no_op.
  rewrite (device_group_built _ _ _ _ _ _ _ _ _ _ H1 K1 D1 B1). simpl.
  by rewrite (device_group_built _ _ _ _ _ _ _ _ _ _ H2 K2 D2 B2).
Qed.

(** X22: an exception of the listing query is raised to the caller of
    [__devices], with one exception: an [AttributeError], wherever in
    the query it comes from, is swallowed, and the result is the empty
    list.  For doorbells the second listing is not made. *)
Theorem devices_query_raises device_type key w e w1 :
  listing_key device_type = Some key ->
  listing_query w = (Raise e, w1) ->
  devices_of device_type w = (swallowed [] e, w1).
Proof.
  intros Hkey H. apply (__devices_stops _ key); [done |].
  intros new. by apply device_group_raises.
Qed.

(** X23: when the listing query returns no dictionary ([None] after a soft
    failure, a list, a string) [__devices] returns the empty list: no
    exception, no device, and for doorbells no second listing. *)
Theorem devices_without_dictionary device_type key w v w1 :
  listing_key device_type = Some key ->
  listing_query w = (Ok v, w1) ->
  is_dict v = false ->
  devices_of device_type w = (Ok [], w1).
Proof.
  intros Hkey H Hv.
  apply (__devices_stops _ key _ AttributeError); [done |].
  intros new. by apply device_group_no_dictionary with v.
Qed.

(** X24: a listing that is a dictionary without the key of the device
    type ([stickup_cams], [chimes], [doorbots] for doorbells) does not
    give an empty list: [__devices] raises [TypeError], [None] not being
    iterable. *)
Theorem devices_missing_key_raises device_type key w kvs w1 :
  listing_key device_type = Some key ->
  listing_query w = (Ok (QVal (JObj kvs)), w1) ->
  assoc key kvs = None ->
  devices_of device_type w = (Raise TypeError, w1).
Proof.
  intros Hkey H Hk.
  apply (__devices_stops _ key _ TypeError); [done |].
  intros new. by apply device_group_missing_key with kvs.
Qed.

(** X25: when an entry of the list has no description, [__devices] raises
    [KeyError] before any device is made, also of the entries before
    it. *)
Theorem devices_missing_description_raises
    device_type key w kvs w1 good ds okvs rest :
  listing_key device_type = Some key ->
  listing_query w = (Ok (QVal (JObj kvs)), w1) ->
  assoc key kvs = Some (JArr (good ++ JObj okvs :: rest)) ->
  described good ds ->
  assoc "description" okvs = None ->
  devices_of device_type w = (Raise (KeyError "description"), w1).
Proof.
  intros Hkey H Hk Hg Hd.
  apply (__devices_stops _ key _ (KeyError "description")); [done |].
  intros new. by apply device_group_missing_description with kvs good ds okvs rest.
Qed.

(** X26: [doorbells] makes two listings.  The devices of [doorbots] come
    first, made without the argument [shared]; then the listing is
    queried again and the devices of its [authorized_doorbots] follow,
    made with [shared=True]. *)
Theorem doorbells_own_then_shared
    w kvs1 w1 items1 ds1 own w2 kvs2 w3 items2 ds2 shared w4 :
  listing_query w = (Ok (QVal (JObj kvs1)), w1) ->
  assoc "doorbots" kvs1 = Some (JArr items1) ->
  described items1 ds1 ->
  built (fun member => RingDoorBell member None) ds1 w1 own w2 ->
  listing_query w2 = (Ok (QVal (JObj kvs2)), w3) ->
  assoc "authorized_doorbots" kvs2 = Some (JArr items2) ->
  described items2 ds2 ->
  built (fun member => RingDoorBell member (Some true)) ds2 w3 shared w4 ->
  doorbells RingStickUpCam RingChime RingDoorBell w = (Ok (own ++ shared), w4).
Proof.
  intros H1 K1 D1 B1 H2 K2 D2 B2. unfold doorbells.
  by apply __devices_built_doorbells
    with kvs1 w1 items1 ds1 w2 kvs2 w3 items2 ds2.
Qed.

(** X27: [chimes] and [stickup_cams] make one listing and one device for
    each entry under their key, in the order of the list, from the
    entry's description. *)
Theorem chimes_and_cams_one_per_entry w kvs w1 items ds devs w2 :
  listing_query w = (Ok (QVal (JObj kvs)), w1) ->
  described items ds ->
  (assoc "chimes" kvs = Some (JArr items) ->
   built RingChime ds w1 devs w2 ->
   chimes RingStickUpCam RingChime RingDoorBell w = (Ok devs, w2)) /\
  (assoc "stickup_cams" kvs = Some (JArr items) ->
   built RingStickUpCam ds w1 devs w2 ->
   stickup_cams RingStickUpCam RingChime RingDoorBell w = (Ok devs, w2)).
Proof.
  intros H D. split; intros K B.
  - unfold chimes, __devices. cbn [String.eqb Ascii.eqb Bool.eqb andb].
    unfold and_then, no_op.
    by rewrite (device_group_built _ _ _ _ _ _ _ _ _ _ H K D B).
  - unfold stickup_cams, __devices. cbn [String.eqb Ascii.eqb Bool.eqb andb].
    unfold and_then, no_op.
    by rewrite (device_group_built _ _ _ _ _ _ _ _ _ _ H K D B).
Qed.

Context (read_attributes : Dev -> M unit).

(** X28: when each of the three listings returns no dictionary (the
    server refuses, say), [devices] still returns its dictionary, with
    three empty lists, after three listing queries and not four, and
    [update] returns [True], no device having been looked at. *)
Theorem update_without_devices w v1 w1 v2 w2 v3 w3 :
  listing_query w = (Ok v1, w1) -> is_dict v1 = false ->
  listing_query w1 = (Ok v2, w2) -> is_dict v2 = false ->
  listing_query w2 = (Ok v3, w3) -> is_dict v3 = false ->
  Ring_devices RingStickUpCam RingChime RingDoorBell w
  = (Ok [("chimes", []); ("stickup_cams", []); ("doorbells", [])], w3) /\
  update RingStickUpCam RingChime RingDoorBell read_attributes w
  = (Ok true, w3).
Proof.
  intros H1 V1 H2 V2 H3 V3.
  assert (Hd : Ring_devices RingStickUpCam RingChime RingDoorBell w
               = (Ok [("chimes", []); ("stickup_cams", []); ("doorbells", [])],
                  w3)).
  { unfold Ring_devices, chimes, stickup_cams, doorbells.
    assert (Hnone : forall ty key wa v wb,
              listing_key ty = Some key ->
              listing_query wa = (Ok v, wb) -> is_dict v = false ->
              devices_of ty wa = (Ok [], wb)).
    { intros ty key wa v wb Hkey H Hv.
      apply (__devices_stops _ key _ AttributeError); [done |].
      intros new. by apply device_group_no_dictionary with v. }
    unfold bind at 1.
    rewrite (Hnone "chimes" "chimes" _ _ _ eq_refl H1 V1).
    unfold bind at 1.
    rewrite (Hnone "stickup_cams" "stickup_cams" _ _ _ eq_refl H2 V2).
    unfold bind at 1.
    by rewrite (Hnone "doorbells" "doorbots" _ _ _ eq_refl H3 V3). }
  split; [exact Hd |].
  unfold update. unfold bind at 1. by rewrite Hd.
Qed.

End DeviceListing.

(** ** The further properties on example worlds *)

(** A new session fetches its OAuth token and has no refresh time. *)
Lemma get_oauth_token_first_use_witness :
  last_refresh
    (self (snd (_get_oauth_token
                  (world_of (fresh_ring false) (scripted [] created) ∅))))
  = None.
Proof.
  pose (w := world_of (fresh_ring false) (scripted [] created) ∅).
  destruct (get_oauth_token_first_use w (fst (_get_oauth_token w))
              (snd (_get_oauth_token w)))
    as (ans & _ & _ & Hl & _).
  - reflexivity.
  - apply surjective_pairing.
  - exact Hl.
Defined.


(** A post answered 201: the session takes the token of the profile. *)
Lemma authenticate_adopts_session_token_witness :
  token (self (snd (_authenticate 3 None 1
                      (world_of (fresh_ring false) (scripted [] created) ∅))))
  = JStr "sess-2" /\
  fst (_authenticate 3 None 1
         (world_of (fresh_ring false) (scripted [] created) ∅))
  = Ok true.
Proof.
  pose (w := world_of (fresh_ring false) (scripted [] created) ∅).
  destruct (authenticate_adopts_session_token 3 1 w
              (fst (_authenticate 3 None 1 w)) (snd (_authenticate 3 None 1 w))
              (session_post "first") created (JStr "sess-2"))
    as (Ht & _ & _ & Hr).
  - apply surjective_pairing.
  - vm_compute. reflexivity.
  - reflexivity.
  - reflexivity.
  - split; [exact Ht |]. apply Hr. vm_compute. repeat constructor.
Defined.

(** A post answered 200: the session keeps the token it had. *)
Lemma authenticate_200_keeps_session_token_witness :
  token (self (snd (_authenticate 3 None 1
                      (world_of (live_ring false)
                         (scripted [] (status_only 200)) ∅))))
  = JStr "sess-1".
Proof.
  pose (w := world_of (live_ring false) (scripted [] (status_only 200)) ∅).
  destruct (authenticate_200_keeps_session_token 3 1 w
              (fst (_authenticate 3 None 1 w)) (snd (_authenticate 3 None 1 w))
              (session_post "first") (status_only 200))
    as (Ht & _).
  - apply surjective_pairing.
  - vm_compute. reflexivity.
  - reflexivity.
  - exact Ht.
Defined.

(** A post answered 201 without a body: [ValueError]. *)
Lemma authenticate_unreadable_201_witness :
  fst (_authenticate 3 None 1
         (world_of (fresh_ring false) (scripted [] (status_only 201)) ∅))
  = Raise ValueError.
Proof.
  pose (w := world_of (fresh_ring false) (scripted [] (status_only 201)) ∅).
  destruct (authenticate_unreadable_201_raises 3 1 w
              (fst (_authenticate 3 None 1 w)) (snd (_authenticate 3 None 1 w))
              (session_post "first") (status_only 201) ValueError)
    as [Hr _].
  - apply surjective_pairing.
  - vm_compute. reflexivity.
  - reflexivity.
  - reflexivity.
  - exact Hr.
Defined.

(** [attempts = -1]. *)
Lemma authenticate_negative_attempts_witness :
  fst (_authenticate (-1) None 1
         (world_of (fresh_ring false) (scripted [] created) ∅))
  = Raise (UnboundLocalError "req").
Proof.
  assert (Hneg : -1 < 0) by lia.
  exact (f_equal fst
           (authenticate_negative_attempts (-1) None 1
              (world_of (fresh_ring false) (scripted [] created) ∅) Hneg)).
Defined.

(** Without [reuse_session] a successful login leaves no cache file. *)
Lemma authenticate_without_reuse_witness :
  files (snd (_authenticate 3 None 1
                (world_of private_ring (scripted [] created) ∅)))
  = ∅.
Proof.
  pose (w := world_of private_ring (scripted [] created) ∅).
  destruct (authenticate_without_reuse_saves_nothing 3 None 1 w
              (fst (_authenticate 3 None 1 w)) (snd (_authenticate 3 None 1 w)))
    as [Hf _].
  - reflexivity.
  - apply surjective_pairing.
  - exact Hf.
Defined.

(** A raw query answered 204 returns the response. *)
Lemma query_raw_returns_response_witness :
  fst (query devices_url 1 GET true None JNull None
         (world_of (live_ring false) (scripted [status_only 204] created) ∅))
  = Ok (QResp (status_only 204)).
Proof.
  pose (w := world_of (live_ring false) (scripted [status_only 204] created) ∅).
  destruct (query_raw_returns_response devices_url 1 GET None JNull None w
              (fst (query devices_url 1 GET true None JNull None w))
              (snd (query devices_url 1 GET true None JNull None w))
              (listing_get "first" live_params) (status_only 204))
    as [Hr _].
  - apply surjective_pairing.
  - vm_compute. left. reflexivity.
  - right. reflexivity.
  - exact Hr.
Defined.

(** A GET answered 204 without [raw]: [ValueError]. *)
Lemma query_get_undecodable_body_witness :
  fst (query devices_url 1 GET false None JNull None
         (world_of (live_ring false) (scripted [status_only 204] created) ∅))
  = Raise ValueError.
Proof.
  pose (w := world_of (live_ring false) (scripted [status_only 204] created) ∅).
  refine (query_get_undecodable_body_raises devices_url 1 None JNull None w
            (fst (query devices_url 1 GET false None JNull None w))
            (snd (query devices_url 1 GET false None JNull None w))
            (listing_get "first" live_params) (status_only 204) _ _ _ _).
  - apply surjective_pairing.
  - vm_compute. left. reflexivity.
  - right. reflexivity.
  - reflexivity.
Defined.

(** The connection is refused: the exception is raised at once. *)
Lemma query_transport_failure_witness :
  fst (query devices_url 3 GET false None JNull None
         (world_of (live_ring false) (scripted [] created) ∅))
  = Raise (RequestException "connection refused").
Proof.
  pose (w := world_of (live_ring false) (scripted [] created) ∅).
  destruct (query_transport_failure_not_retried devices_url 3 GET false None
              JNull None w
              (fst (query devices_url 3 GET false None JNull None w))
              (snd (query devices_url 3 GET false None JNull None w))
              (listing_get "first" live_params)
              (RequestException "connection refused"))
    as [Hr _].
  - apply surjective_pairing.
  - vm_compute. left. reflexivity.
  - exact Hr.
Defined.

(** A query answered 200 leaves the session as it was. *)
Lemma query_keeps_session_witness :
  login_state
    (snd (query devices_url 1 GET false None JNull None
            (world_of (live_ring false) (scripted [devices] created) ∅)))
  = login_state (world_of (live_ring false) (scripted [devices] created) ∅).
Proof.
  pose (w := world_of (live_ring false) (scripted [devices] created) ∅).
  assert (Hq : auth_calls
                 (since w (snd (query devices_url 1 GET false None JNull None w)))
               = []) by (vm_compute; reflexivity).
  exact (query_keeps_session devices_url 1 GET false None JNull None w
           (fst (query devices_url 1 GET false None JNull None w))
           (snd (query devices_url 1 GET false None JNull None w))
           (surjective_pairing _) Hq).
Defined.

(** The saved session of "user" is validated with its token. *)
Lemma init_validates_cached_token_witness :
  rq_params (listing_get "second" renewed_params)
  = Some (session_params demo_const (JStr "sess-2")).
Proof.
  pose (w := world_of (fresh_ring false) (scripted [devices] created)
               {[cache_name := saved_record]}).
  destruct (init_validates_cached_token "user" "pw" false "" cache_name 10 w
              saved_record (JStr "sess-2")
              (fst (Ring__init__ "user" "pw" false false "" true cache_name 10 w))
              (snd (Ring__init__ "user" "pw" false false "" true cache_name 10 w))
              (listing_get "second" renewed_params) (inr devices) [])
    as (_ & _ & Hp & _).
  - vm_compute. reflexivity.
  - vm_compute. reflexivity.
  - reflexivity.
  - vm_compute. reflexivity.
  - apply surjective_pairing.
  - vm_compute. reflexivity.
  - exact Hp.
Defined.

(** The validation GET is answered 204: a full authentication follows. *)
Lemma init_refused_validation_witness :
  auth_calls
    (since (world_of (fresh_ring false) (scripted [status_only 204] created)
              {[cache_name := saved_record]})
       (snd (Ring__init__ "user" "pw" false false "" true cache_name 10
               (world_of (fresh_ring false)
                  (scripted [status_only 204] created)
                  {[cache_name := saved_record]}))))
  = [(3, None)].
Proof.
  pose (w := world_of (fresh_ring false) (scripted [status_only 204] created)
               {[cache_name := saved_record]}).
  refine (init_refused_validation_authenticates "user" "pw" false ""
            cache_name 10 w saved_record (JStr "sess-2")
            (fst (Ring__init__ "user" "pw" false false "" true cache_name 10 w))
            (snd (Ring__init__ "user" "pw" false false "" true cache_name 10 w))
            _ _ _ _ _ _ _).
  - vm_compute. reflexivity.
  - vm_compute. reflexivity.
  - reflexivity.
  - vm_compute. reflexivity.
  - apply surjective_pairing.
  - vm_compute. discriminate.
  - vm_compute. repeat constructor; eexists; (split; [reflexivity |]);
      split; discriminate.
Defined.

Lemma run_outcome {A} (p : res A * World) r : fst p = r -> p = (r, snd p).
Proof. intros <-. apply surjective_pairing. Qed.

(** A first login with [reuse_session] writes the record of the
    session. *)
Lemma authenticate_saves_session_witness :
  exists d,
    files (snd (_authenticate 3 None 1
                  (world_of (fresh_ring false) (scripted [] created) ∅)))
      !! cache_name = Some d /\
    d !! "account" = Some (JStr "user").
Proof.
  pose (w := world_of (fresh_ring false) (scripted [] created) ∅).
  assert (Hrun : _authenticate 3 None 1 w
                 = (Ok true, snd (_authenticate 3 None 1 w))).
  { apply run_outcome. vm_compute. reflexivity. }
  destruct (authenticate_saves_session 3 1 w true
              (snd (_authenticate 3 None 1 w))
              (session_post "first") created Hrun)
    as (d & Hd & Hacc & _).
  - vm_compute. reflexivity.
  - right. reflexivity.
  - reflexivity.
  - exists d. split; [exact Hd | exact Hacc].
Defined.

(** A query on a new object: [TypeError], nothing sent. *)
Lemma query_before_login_witness :
  fst (query devices_url 3 GET false None JNull None
         (world_of (fresh_ring false) (scripted [devices] created) ∅))
  = Raise TypeError.
Proof.
  pose (w := world_of (fresh_ring false) (scripted [devices] created) ∅).
  destruct (query_before_login_raises devices_url 3 GET false None JNull None
              w (fst (query devices_url 3 GET false None JNull None w))
              (snd (query devices_url 3 GET false None JNull None w)))
    as [_ [Hr|(e & Ht & _)]].
  - apply surjective_pairing.
  - reflexivity.
  - reflexivity.
  - lia.
  - exact I.
  - exact Hr.
  - vm_compute in Ht. discriminate.
Defined.

(** A DELETE is no method of [query]. *)
Lemma query_unknown_method_witness :
  fst (query devices_url 3 (OTHER "DELETE") false None JNull None
         (world_of (live_ring false) (scripted [devices] created) ∅))
  = Raise (UnboundLocalError "req").
Proof.
  pose (w := world_of (live_ring false) (scripted [devices] created) ∅).
  destruct (query_unknown_method_raises devices_url 3 "DELETE" false None
              JNull None w
              (fst (query devices_url 3 (OTHER "DELETE") false None JNull None w))
              (snd (query devices_url 3 (OTHER "DELETE") false None JNull None w))
              live_params)
    as [_ [Hr|(e & Ht & _)]].
  - apply surjective_pairing.
  - reflexivity.
  - reflexivity.
  - lia.
  - exact Hr.
  - vm_compute in Ht. discriminate.
Defined.


(** ** The device lists on example servers *)

Lemma listing_outcome w r :
  fst (listing_query w) = r -> listing_query w = (r, snd (listing_query w)).
Proof. intros <-. apply surjective_pairing. Qed.

(** The connection is refused: [chimes] raises what the query raised. *)
Lemma devices_query_raises_witness :
  fst (chimes plain_cam plain_chime plain_doorbell
         (world_of (live_ring false) (scripted [] created) ∅))
  = Raise (RequestException "connection refused").
Proof.
  pose (w := world_of (live_ring false) (scripted [] created) ∅).
  assert (Hq : listing_query w
               = (Raise (RequestException "connection refused"),
                  snd (listing_query w)))
    by (apply listing_outcome; vm_compute; reflexivity).
  exact (f_equal fst
           (devices_query_raises plain_cam plain_chime plain_doorbell "chimes" "chimes" w _ _ eq_refl Hq)).
Defined.

(** Every request refused: no doorbells, and no exception. *)
Lemma devices_without_dictionary_witness :
  fst (doorbells plain_cam plain_chime plain_doorbell
         (world_of (live_ring false) (refusing 4) ∅))
  = Ok [].
Proof.
  pose (w := world_of (live_ring false) (refusing 4) ∅).
  assert (Hq : listing_query w = (Ok QNone, snd (listing_query w)))
    by (apply listing_outcome; vm_compute; reflexivity).
  exact (f_equal fst
           (devices_without_dictionary plain_cam plain_chime plain_doorbell
              "doorbells" "doorbots" w _ _ eq_refl Hq eq_refl)).
Defined.

(** A device list without [stickup_cams]: [TypeError]. *)
Lemma devices_missing_key_witness :
  fst (stickup_cams plain_cam plain_chime plain_doorbell
         (world_of (live_ring false) (scripted [devices] created) ∅))
  = Raise TypeError.
Proof.
  pose (w := world_of (live_ring false) (scripted [devices] created) ∅).
  assert (Hq : listing_query w
               = (Ok (QVal (JObj [("doorbots", JArr []); ("chimes", JArr [])])),
                  snd (listing_query w)))
    by (apply listing_outcome; vm_compute; reflexivity).
  exact (f_equal fst
           (devices_missing_key_raises plain_cam plain_chime plain_doorbell
              "stickup_cams" "stickup_cams" w _ _ eq_refl Hq eq_refl)).
Defined.

(** A chime without a description: [KeyError]. *)
Lemma devices_missing_description_witness :
  fst (chimes plain_cam plain_chime plain_doorbell
         (world_of (live_ring false) (scripted [doorbell_listing] created) ∅))
  = Raise (KeyError "description").
Proof.
  pose (w := world_of (live_ring false) (scripted [doorbell_listing] created) ∅).
  assert (Hq : listing_query w
               = (Ok (QVal (default JNull (body doorbell_listing))),
                  snd (listing_query w)))
    by (apply listing_outcome; vm_compute; reflexivity).
  assert (Hg : described [] []) by constructor.
  exact (f_equal fst
           (devices_missing_description_raises plain_cam plain_chime plain_doorbell
              "chimes" "chimes" w _ _ [] [] [("id", JNum 7)] []
              eq_refl Hq eq_refl Hg eq_refl)).
Defined.

(** The user's doorbell first, then the shared one. *)
Lemma doorbells_own_then_shared_witness :
  fst (doorbells plain_cam plain_chime plain_doorbell
         (world_of (live_ring false)
            (scripted [doorbell_listing; doorbell_listing] created) ∅))
  = Ok [("doorbell", JStr "Front door", None);
        ("doorbell", JStr "Neighbour", Some true)].
Proof.
  pose (w := world_of (live_ring false)
               (scripted [doorbell_listing; doorbell_listing] created) ∅).
  pose (w1 := snd (listing_query w)).
  pose (w3 := snd (listing_query w1)).
  assert (H1 : listing_query w
               = (Ok (QVal (default JNull (body doorbell_listing))), w1))
    by (apply listing_outcome; vm_compute; reflexivity).
  assert (H2 : listing_query w1
               = (Ok (QVal (default JNull (body doorbell_listing))), w3))
    by (apply listing_outcome; vm_compute; reflexivity).
  assert (D1 : described [JObj own_doorbots] [JStr "Front door"]).
  { constructor; [| constructor]. eexists. split; reflexivity. }
  assert (D2 : described [JObj [("description", JStr "Neighbour")]]
                 [JStr "Neighbour"]).
  { constructor; [| constructor]. eexists. split; reflexivity. }
  assert (B1 : built (fun member => plain_device "doorbell" member None)
                 [JStr "Front door"] w1
                 [("doorbell", JStr "Front door", None)] w1).
  { eapply built_cons; [reflexivity | apply built_nil]. }
  assert (B2 : built (fun member => plain_device "doorbell" member (Some true))
                 [JStr "Neighbour"] w3
                 [("doorbell", JStr "Neighbour", Some true)] w3).
  { eapply built_cons; [reflexivity | apply built_nil]. }
  exact (f_equal fst
           (doorbells_own_then_shared plain_cam plain_chime plain_doorbell
              w _ w1 _ _ _ w1 _ w3 _ _ _ w3
              H1 eq_refl D1 B1 H2 eq_refl D2 B2)).
Defined.

(** One camera for the one entry of [stickup_cams]. *)
Lemma chimes_and_cams_witness :
  fst (stickup_cams plain_cam plain_chime plain_doorbell
         (world_of (live_ring false) (scripted [doorbell_listing] created) ∅))
  = Ok [("cam", JStr "Yard", None)].
Proof.
  pose (w := world_of (live_ring false) (scripted [doorbell_listing] created) ∅).
  pose (w1 := snd (listing_query w)).
  assert (H1 : listing_query w
               = (Ok (QVal (default JNull (body doorbell_listing))), w1))
    by (apply listing_outcome; vm_compute; reflexivity).
  assert (D1 : described [JObj [("description", JStr "Yard")]] [JStr "Yard"]).
  { constructor; [| constructor]. eexists. split; reflexivity. }
  assert (B1 : built plain_cam [JStr "Yard"] w1
                 [("cam", JStr "Yard", None)] w1).
  { eapply built_cons; [reflexivity | apply built_nil]. }
  exact (f_equal fst
           (proj2 (chimes_and_cams_one_per_entry plain_cam plain_chime plain_doorbell
                     w _ w1 _ _ _ w1 H1 D1)
              eq_refl B1)).
Defined.

(** Twelve refusals: three listings of four requests each, three empty
    lists, and [update] returns [True]. *)
Lemma update_without_devices_witness :
  fst (update plain_cam plain_chime plain_doorbell no_attributes
         (world_of (live_ring false) (refusing 12) ∅))
  = Ok true /\
  length (query_exchanges
            (trace (snd (update plain_cam plain_chime plain_doorbell no_attributes
                           (world_of (live_ring false) (refusing 12) ∅)))))
  = 12%nat.
Proof.
  pose (w := world_of (live_ring false) (refusing 12) ∅).
  pose (w1 := snd (listing_query w)).
  pose (w2 := snd (listing_query w1)).
  pose (w3 := snd (listing_query w2)).
  assert (H1 : listing_query w = (Ok QNone, w1))
    by (apply listing_outcome; vm_compute; reflexivity).
  assert (H2 : listing_query w1 = (Ok QNone, w2))
    by (apply listing_outcome; vm_compute; reflexivity).
  assert (H3 : listing_query w2 = (Ok QNone, w3))
    by (apply listing_outcome; vm_compute; reflexivity).
  destruct (update_without_devices plain_cam plain_chime plain_doorbell no_attributes
              w _ w1 _ w2 _ w3 H1 eq_refl H2 eq_refl H3 eq_refl)
    as [_ Hu].
  split.
  - exact (f_equal fst Hu).
  - transitivity (length (query_exchanges (trace w3))).
    + exact (f_equal (fun x => length (query_exchanges (trace (snd x)))) Hu).
    + vm_compute. reflexivity.
Defined.
